(** * stpeterinchains/refresh: the tweet-to-record transforms and the
      change-detection pipeline

    A shallow embedding of the cloud function of [src/index.js] (the YAML
    revision with three collections) and of the helpers and the publish
    decision of its successor revision (the second file of
    [src/unnamed/part_000]: [handleContinuation], [prepare], the dry-run
    gate of [agent]), and of its line-oriented predecessor (the first file
    of [src/unnamed/part_000]) with the regular expressions it reads posts
    with.

    External collaborators are parameters of the sections below: the YAML
    decoder ([yamlSafeLoad] of js-yaml with the failsafe schema), the URL
    parser behind [new URL], the MD5 compression behind [createHash], the
    JSON and base64 encoders.  Everything the repository itself wrote is a
    definition that computes. *)

From Stdlib Require Import Ascii.
From stdpp Require Import gmap strings list.

Set Warnings "-register-all".
Local Open Scope char_scope.
Local Open Scope stdpp_scope.

(** ** JavaScript strings

    A string is a sequence of code units; the embedding keeps the code units
    0..255 ([ascii]).  All the operations below are uniform in the
    alphabet. *)

Definition LF : string := String "010" EmptyString.

(** [s.slice(n)] for [0 <= n]. *)
Fixpoint slice (n : nat) (s : string) : string :=
  match n, s with
  | 0, _ => s
  | S n', String _ s' => slice n' s'
  | S _, EmptyString => EmptyString
  end.

(** The split of [s] around the first occurrence of [searchString]: what
    [s.indexOf(searchString)] finds, as the text before it and the text
    after it. *)
Fixpoint indexOf (searchString s : string) : option (string * string) :=
  if String.prefix searchString s
  then Some (EmptyString, slice (String.length searchString) s)
  else match s with
       | EmptyString => None
       | String c s' =>
           match indexOf searchString s' with
           | Some (before, after) => Some (String c before, after)
           | None => None
           end
       end.

(** ECMAScript GetSubstitution for a string pattern: there are no captures,
    so [$1]..[$99] and [$<] stay as they are written. *)
Fixpoint GetSubstitution (matched before after template : string) : string :=
  match template with
  | EmptyString => EmptyString
  | String "$" (String "$" rest) =>
      String "$" (GetSubstitution matched before after rest)
  | String "$" (String "&" rest) =>
      matched +:+ GetSubstitution matched before after rest
  | String "$" (String "`" rest) =>
      before +:+ GetSubstitution matched before after rest
  | String "$" (String "'" rest) =>
      after +:+ GetSubstitution matched before after rest
  | String c rest => String c (GetSubstitution matched before after rest)
  end.

(** [String.prototype.replace] with a string pattern and a string
    replacement: the first occurrence only. *)
Definition replace (s searchValue replaceValue : string) : string :=
  match indexOf searchValue s with
  | None => s
  | Some (before, after) =>
      before +:+ GetSubstitution searchValue before after replaceValue +:+ after
  end.

(** ECMAScript WhiteSpace and LineTerminator code units below 256. *)
Definition isWhiteSpace (c : ascii) : bool :=
  match c with
  | "009" | "010" | "011" | "012" | "013" | " " | "160" => true
  | _ => false
  end%char.

Fixpoint trimStart (s : string) : string :=
  match s with
  | EmptyString => EmptyString
  | String c s' => if isWhiteSpace c then trimStart s' else s
  end.

Definition trimEnd (s : string) : string :=
  String.rev (trimStart (String.rev s)).

Definition trim (s : string) : string := trimEnd (trimStart s).

(** ** Link expansion (index.js 388-399)

    One entry of [entities.urls], and the loop that rewrites the text handed
    to the transform. *)

Record urlEntity := { url : string; expanded_url : string }.

Definition tweetTextExpandedLinks (tweetText : string)
    (tweetLinks : list urlEntity) : string :=
  fold_left (fun text link => replace text (url link) (expanded_url link))
            tweetLinks tweetText.

(** ** Decoded documents

    What [yamlSafeLoad] returns under the failsafe schema: strings, sequences
    and mappings, [null] for a key without a value, [undefined] for an empty
    document.  [VFunction] stands for an inherited method read as a property
    ([String.prototype.sub], [String.prototype.link]). *)

Inductive jsval :=
  | VUndefined
  | VNull
  | VString (s : string)
  | VArray (items : list jsval)
  | VObject (members : list (string * jsval))
  | VFunction (name : string).

(** ToBoolean. *)
Definition truthy (v : jsval) : bool :=
  match v with
  | VUndefined | VNull => false
  | VString s => negb (String.eqb s EmptyString)
  | VArray _ | VObject _ | VFunction _ => true
  end.

(** Own property of a mapping built by the decoder. *)
Fixpoint member (key : string) (members : list (string * jsval)) : jsval :=
  match members with
  | [] => VUndefined
  | (k, v) :: rest => if String.eqb k key then v else member key rest
  end.

(** Property read [v.key] on a value that is neither [null] nor
    [undefined], for the keys the transforms read ([title], [sub], [color],
    [loc], [times], [desc], [date], [link], [inserts], [youtube], [tweet],
    [day], [time]): none is defined on [Object.prototype],
    [Array.prototype] or [Function.prototype]; a string inherits [sub] and
    [link]. *)
Definition get (v : jsval) (key : string) : jsval :=
  match v with
  | VObject members => member key members
  | VString _ =>
      if String.eqb key "sub" || String.eqb key "link"
      then VFunction key else VUndefined
  | _ => VUndefined
  end.

(** A destructuring default, [{ key = fallback }]: taken for [undefined]
    only. *)
Definition orDefault (v fallback : jsval) : jsval :=
  match v with
  | VUndefined => fallback
  | _ => v
  end.

(** ** Exceptions

    The three classes the catch blocks tell apart.  A message is either a
    literal of the source or the engine's wording for a fault of the
    language. *)

Inductive fault :=
  | NotDestructurable   (* destructuring null or undefined *)
  | NoProperties        (* reading a property of null or undefined *)
  | NotAFunction        (* calling what is not a function *)
  | NotIterable.        (* iterating what has no iterator *)

Inductive message :=
  | Message (text : string)
  | EngineMessage (f : fault).

Record Mark := { position : nat; line : nat; column : nat }.

Inductive thrown :=
  | YAMLException (reason : string) (mark : option Mark)
  | TypeError (msg : message)
  | Error (msg : message).

(** [error.name]. *)
Definition name (e : thrown) : string :=
  match e with
  | YAMLException _ _ => "YAMLException"
  | TypeError _ => "TypeError"
  | Error _ => "Error"
  end.

Inductive outcome (A : Type) :=
  | Return (a : A)
  | Throw (e : thrown).
Arguments Return {A} a.
Arguments Throw {A} e.

(** What the decoder does with a text, by its contract: a document, or a
    [YAMLException] with its reason and, when it has one, its mark. *)
Inductive loaded :=
  | Document (doc : jsval)
  | Malformed (reason : string) (mark : option Mark).

(** ** Error descriptors (index.js 115-136) *)

Module Descriptor.
Record t := mk {
  error : string;
  type : string;
  reason : message;
  mark : option Mark;
  tweetId : option string
}.
End Descriptor.

(** The descriptor the catch blocks build from what they caught
    ([instanceof YAMLException], [instanceof TypeError], anything else) and
    stamp with the tweet's id; [tweetId] is [None] where the id is
    [undefined]. *)
Definition describe (error : thrown) (tweetId : option string)
    : Descriptor.t :=
  match error with
  | YAMLException reason mark =>
      Descriptor.mk "Invalid YAML" (name error) (Message reason) mark tweetId
  | TypeError msg =>
      Descriptor.mk "Invalid structure" (name error) msg None tweetId
  | Error msg =>
      Descriptor.mk "Unexpected error" (name error) msg None tweetId
  end.

(** ** Records *)

Module Event.
Record t := mk {
  title : jsval;
  subtitle : jsval;
  color : jsval;
  location : jsval;
  times : jsval;
  descriptive : string
}.
End Event.

Module Announcement.
Record t := mk {
  title : jsval;
  subtitle : jsval;
  color : jsval;
  youtube : jsval;
  tweet : jsval;
  descriptive : string
}.
End Announcement.

Module Bulletin.
Record t := mk {
  date : jsval;
  title : jsval;
  subtitle : jsval;
  link : jsval;
  inserts : jsval
}.
End Bulletin.

(** Records that carry the mutable [descriptive] field. *)
Class Descriptive (R : Type) := {
  descriptiveOf : R -> string;
  withDescriptive : string -> R -> R
}.

#[export] Instance event_descriptive : Descriptive Event.t := {|
  descriptiveOf := Event.descriptive;
  withDescriptive d e :=
    Event.mk (Event.title e) (Event.subtitle e) (Event.color e)
             (Event.location e) (Event.times e) d
|}.

#[export] Instance announcement_descriptive : Descriptive Announcement.t := {|
  descriptiveOf := Announcement.descriptive;
  withDescriptive d a :=
    Announcement.mk (Announcement.title a) (Announcement.subtitle a)
                    (Announcement.color a) (Announcement.youtube a)
                    (Announcement.tweet a) d
|}.

(** ** The store of record objects and the console

    Records are objects: the dataset and the carried last-primary pointer
    hold references to the same object, and a continuation writes through
    the reference.  A reference is an index into [heap]; [console] is the
    diagnostic sink. *)

Abbreviation ref := nat (only parsing).

(** A rejected store request, with its [errors] property when it has one. *)
Record rejection := { rejectionErrors : option string }.

Inductive consoleArg :=
  | ArgText (s : string)
  | ArgDescriptor (d : Descriptor.t)
  | ArgThrown (e : thrown)
  | ArgRejection (r : rejection).

Inductive consoleCall :=
  | console_error (args : list consoleArg)
  | console_log (args : list consoleArg)
  | console_info (args : list consoleArg).

Record world (R : Type) := World {
  heap : list R;
  console : list consoleCall
}.
Arguments World {R} heap console.
Arguments heap {R} w.
Arguments console {R} w.

(** Computations that read and write the world and may throw; the world
    survives a throw. *)
Definition M (R A : Type) : Type := world R -> world R * outcome A.

Definition ret {R A} (a : A) : M R A := fun w => (w, Return a).

Definition throw {R A} (e : thrown) : M R A := fun w => (w, Throw e).

Definition bind {R A B} (m : M R A) (k : A -> M R B) : M R B :=
  fun w =>
    match m w with
    | (w', Return a) => k a w'
    | (w', Throw e) => (w', Throw e)
    end.

Definition tryCatch {R A} (body : M R A) (handler : thrown -> M R A) : M R A :=
  fun w =>
    match body w with
    | (w', Return a) => (w', Return a)
    | (w', Throw e) => handler e w'
    end.

Declare Scope js_scope.
Delimit Scope js_scope with js.
Notation "x <- m ;; k" := (bind m (fun x => k))
  (at level 100, m at next level, right associativity) : js_scope.
Notation "m ;;; k" := (bind m (fun _ => k))
  (at level 100, right associativity) : js_scope.
Local Open Scope js_scope.

(** [new] of an object literal: a fresh reference. *)
Definition alloc {R} (r : R) : M R ref :=
  fun w => (World (heap w ++ [r]) (console w), Return (length (heap w))).

(** [o.descriptive += suffix] through the reference [o]. *)
Definition appendDescriptive {R} `{Descriptive R} (o : ref) (suffix : string)
    : M R unit :=
  fun w =>
    (World (alter (fun r => withDescriptive (descriptiveOf r +:+ suffix) r)
                  o (heap w))
           (console w),
     Return tt).

Definition consoleError {R} (args : list consoleArg) : M R unit :=
  fun w => (World (heap w) (console w ++ [console_error args]), Return tt).

(** ** Steps shared by the transforms *)

(** Destructuring [const { ... } = v] throws on [null] and [undefined]. *)
Definition destructure {R} (v : jsval) : M R unit :=
  match v with
  | VUndefined | VNull => throw (TypeError (EngineMessage NotDestructurable))
  | _ => ret tt
  end.

(** [descriptiveRaw.trim()]: only a string has a callable [trim]; [null]
    has no properties, and on every other value of a document [trim] is
    missing or is not a function. *)
Definition callTrim {R} (descriptiveRaw : jsval) : M R string :=
  match descriptiveRaw with
  | VString s => ret (trim s)
  | VUndefined | VNull => throw (TypeError (EngineMessage NoProperties))
  | _ => throw (TypeError (EngineMessage NotAFunction))
  end.

(** The values a [for ... of] visits: the elements of an array, the
    characters of a string; nothing else made by the decoder is iterable. *)
Definition iterate {R} (v : jsval) : M R (list jsval) :=
  match v with
  | VArray items => ret items
  | VString s =>
      ret (map (fun c => VString (String c EmptyString))
               (String.list_ascii_of_string s))
  | _ => throw (TypeError (EngineMessage NotIterable))
  end.

Definition nonEmpty (s : string) : bool := negb (String.eqb s EmptyString).

(** The result triple of a transform: [[ element, last, descriptor ]]. *)
Record result := Result {
  element : option ref;
  lastNonContinuation : option ref;
  errorDescriptor : option Descriptor.t
}.

(** [yamlSafeLoad(text, { schema : yamlFailsafeSchema })], given what the
    decoder does with a text. *)
Definition load {R} (yamlSafeLoad : string -> loaded) (tweetText : string)
    : M R jsval :=
  match yamlSafeLoad tweetText with
  | Document doc => ret doc
  | Malformed reason mark => throw (YAMLException reason mark)
  end.

(** [for (const { day, time } of times) if (! day || ! time) throw ...]
    (index.js 81-83, part_000 626-628), over the values the iteration
    visits. *)
Fixpoint timesLoop {R} (items : list jsval) : M R unit :=
  match items with
  | [] => ret tt
  | item :: rest =>
      destructure item ;;;
      if negb (truthy (get item "day")) || negb (truthy (get item "time"))
      then throw (TypeError (Message "Day/date or time missing"))
      else timesLoop rest
  end.

(** [for (const { title, link } of inserts) ...] (index.js 180-189,
    part_000 686-695); [newURL v] tells whether [new URL(v)] returns rather
    than throws. *)
Fixpoint insertsLoop {R} (newURL : jsval -> bool) (items : list jsval)
    : M R unit :=
  match items with
  | [] => ret tt
  | item :: rest =>
      destructure item ;;;
      (if negb (truthy (get item "title"))
       then throw (TypeError (Message "Insert title missing"))
       else ret tt) ;;;
      (if negb (newURL (get item "link"))
       then throw (TypeError (Message "Insert link missing or invalid"))
       else ret tt) ;;;
      insertsLoop newURL rest
  end.

(** ** The collection loop (index.js 371-416, part_000 956-1001)

    The same text in both revisions. *)

(** An entry of [objects.tweets]. *)
Record tweetObject := { full_text : string; urls : list urlEntity }.

(** A [Hash] object: the chunks it was updated with, oldest first. *)
Definition Hash := list string.

Definition createHash : Hash := [].

Definition update (hash : Hash) (data : string) : Hash := hash ++ [data].

(** The arrays and the hash a collection's loop writes to, and the variable
    it carries from one tweet to the next. *)
Record collection := Collection {
  dataset : list ref;
  errors : list Descriptor.t;
  hash : Hash;
  lastNonContinuationElement : option ref
}.

(** [if (item) array.push(item)]. *)
Definition push {A} (array : list A) (item : option A) : list A :=
  match item with
  | Some a => array ++ [a]
  | None => array
  end.

Section Loop.

Context {R : Type}.
Variable transform : string -> string -> option ref -> M R result.
Variable tweets : gmap string tweetObject.

(** One pass of the inner loop (382-415). *)
Definition iteration (state : collection) (tweetId : string)
    : M R collection :=
  match tweets !! tweetId with
  | None => throw (TypeError (EngineMessage NotDestructurable))
  | Some {| full_text := tweetText; urls := tweetLinks |} =>
      r <- transform tweetId
                     (tweetTextExpandedLinks tweetText tweetLinks)
                     (lastNonContinuationElement state) ;;
      ret (Collection (push (dataset state) (element r))
                      (push (errors state) (errorDescriptor r))
                      (update (hash state) tweetText)
                      (lastNonContinuation r))
  end.

Fixpoint timelineLoop (timeline : list string) (state : collection)
    : M R collection :=
  match timeline with
  | [] => ret state
  | tweetId :: rest =>
      state' <- iteration state tweetId ;;
      timelineLoop rest state'
  end.

End Loop.

(** What a collection contributes to the generated content: its records as
    they stand when the loop ends, its errors, its hash. *)
Record collected (R : Type) := Collected {
  records : list R;
  errorList : list Descriptor.t;
  timelineHash : Hash
}.
Arguments Collected {R} records errorList timelineHash.
Arguments records {R} c.
Arguments errorList {R} c.
Arguments timelineHash {R} c.

(** One pass of the outer loop (355-417): [timeline = []] and [tweets = {}]
    by default, [lastNonContinuationElement = null] at the start.  Each
    collection's records live in a store of their own; the console is the
    one console. *)
Definition collectionLoop {R}
    (transform : string -> string -> option ref -> M R result)
    (timeline : option (list string))
    (tweets : option (gmap string tweetObject))
    (out : list consoleCall) : list consoleCall * outcome (collected R) :=
  match timelineLoop transform (default ∅ tweets) (default [] timeline)
                     (Collection [] [] createHash None) (World [] out) with
  | (w, Return state) =>
      (console w,
       Return (Collected (omap (fun r => heap w !! r) (dataset state))
                         (errors state) (hash state)))
  | (w, Throw e) => (console w, Throw e)
  end.

(** [hash.digest('hex')]: the hash of the chunks, end to end; [md5] is the
    hex MD5 of the UTF-8 encoding of a text. *)
Definition digest (md5 : string -> string) (hash : Hash) : string :=
  md5 (String.concat EmptyString hash).

(** [stored !== computed] against a digest read from the published
    artifact. *)
Definition differs (stored : jsval) (computed : string) : bool :=
  match stored with
  | VString s => negb (String.eqb s computed)
  | _ => true
  end.

(** ** The content store and the top-level catch *)

(** The request of [github.repos.createOrUpdateFile] (owner, repository and
    path come from the environment and are the same in every request). *)
Module Commit.
Record t := mk { message : string; content : string; sha : string }.
End Commit.

Inductive failure :=
  | Thrown (e : thrown)
  | Rejected (r : rejection).

(** What an invocation leaves behind: the console, the requests it sent to
    the store, and what ended it when it did not run to its end. *)
Record effects := Effects {
  consoleOut : list consoleCall;
  requests : list Commit.t;
  caught : option failure
}.

(** index.js 496-505, part_000 1101-1110. *)
Definition topLevelCatch (out : list consoleCall) (sent : list Commit.t)
    (error : failure) : effects :=
  Effects
    (out ++ [console_error [ArgText "****** ERROR ******"]] ++
       match error with
       | Rejected {| rejectionErrors := Some errs |} =>
           [console_error [ArgText "Twitter API error"; ArgText errs]]
       | Rejected r => [console_error [ArgRejection r]]
       | Thrown e => [console_error [ArgThrown e]]
       end)
    sent (Some error).

(** [if (flag) updatedCollections.push(label)]. *)
Definition pushIf (flag : bool) (label : string) : list string :=
  if flag then [label] else [].

(** ** src/index.js *)

Module Index.

(** What the awaited fetches of 292-340 bind. *)
Record fetched := {
  regularEventsTimeline : option (list string);
  regularEventsTweets : option (gmap string tweetObject);
  specialEventsTimeline : option (list string);
  specialEventsTweets : option (gmap string tweetObject);
  bulletinsTimeline : option (list string);
  bulletinsTweets : option (gmap string tweetObject);
  generatedContentSha1 : string;
  regularEventsTimelineDigest : jsval;
  specialEventsTimelineDigest : jsval;
  bulletinsTimelineDigest : jsval
}.

(** [computedGeneratedContent] (451-462). *)
Record generatedContent := {
  regularEvents : list Event.t;
  specialEvents : list Event.t;
  bulletins : list Bulletin.t;
  digests : list string;
  regularEventsErrors : list Descriptor.t;
  specialEventsErrors : list Descriptor.t;
  bulletinsErrors : list Descriptor.t
}.

Section Program.

(** js-yaml's decoder under the failsafe schema. *)
Variable yamlSafeLoad : string -> loaded.
(** Whether [new URL(v)] returns rather than throws. *)
Variable newURL : jsval -> bool.
(** The hex MD5 of a text. *)
Variable md5 : string -> string.
(** [JSON.stringify] and [Buffer.from(json).toString('base64')]. *)
Variable stringify : generatedContent -> string.
Variable base64 : string -> string.
(** The store's answer to a request: the commit's sha, or a rejection. *)
Variable createOrUpdateFile : Commit.t -> rejection + string.

(** The catch block of both transforms (113-141, 197-225). *)
Definition catchBlock {R} (tweetId : string) (error : thrown) : M R result :=
  let descriptor := describe error (Some tweetId) in
  consoleError [ArgDescriptor descriptor] ;;;
  ret (Result None None (Some descriptor)).

(** index.js 53-142. *)
Definition eventsTransform (tweetId tweetText : string)
    (lastNonContinuationEvent : option ref) : M Event.t result :=
  tryCatch
    (eventDocument <- load yamlSafeLoad tweetText ;;
     destructure eventDocument ;;;
     let title := get eventDocument "title" in
     let subtitle := get eventDocument "sub" in
     let color := get eventDocument "color" in
     let location := get eventDocument "loc" in
     let times := orDefault (get eventDocument "times") (VArray []) in
     let descriptiveRaw :=
       orDefault (get eventDocument "desc") (VString EmptyString) in
     descriptive <- callTrim descriptiveRaw ;;
     let continuation := negb (truthy title) && nonEmpty descriptive in
     if negb continuation then
       (if negb (truthy title)
        then throw (TypeError (Message "Title missing"))
        else ret tt) ;;;
       items <- iterate times ;;
       timesLoop items ;;;
       event <- alloc (Event.mk title subtitle color location times
                                descriptive) ;;
       ret (Result (Some event) (Some event) None)
     else
       match lastNonContinuationEvent with
       | Some last =>
           let separator :=
             if nonEmpty descriptive then LF +:+ LF else EmptyString in
           appendDescriptive last (separator +:+ descriptive) ;;;
           ret (Result None (Some last) None)
       | None =>
           throw (Error (Message "Continuation tweet with no primary"))
       end)
    (catchBlock tweetId).

(** index.js 153-226. *)
Definition bulletinsTransform (tweetId tweetText : string)
    : M Bulletin.t result :=
  tryCatch
    (bulletinDocument <- load yamlSafeLoad tweetText ;;
     destructure bulletinDocument ;;;
     let date := get bulletinDocument "date" in
     let title := get bulletinDocument "title" in
     let subtitle := get bulletinDocument "sub" in
     let link := get bulletinDocument "link" in
     let inserts := orDefault (get bulletinDocument "inserts") (VArray []) in
     (if negb (truthy date) || negb (truthy title)
      then throw (TypeError (Message "Bulletin date or title missing"))
      else ret tt) ;;;
     (if negb (newURL link)
      then throw (TypeError (Message "Bulletin link missing or invalid"))
      else ret tt) ;;;
     items <- iterate inserts ;;
     insertsLoop newURL items ;;;
     bulletin <- alloc (Bulletin.mk date title subtitle link inserts) ;;
     ret (Result (Some bulletin) None None))
    (catchBlock tweetId).

(** index.js 419-493, once the three loops have run. *)
Definition publish (input : fetched) (out : list consoleCall)
    (regular special : collected Event.t) (bulletin : collected Bulletin.t)
    : effects :=
  let regularEventsTimelineComputedDigest :=
    digest md5 (timelineHash regular) in
  let specialEventsTimelineComputedDigest :=
    digest md5 (timelineHash special) in
  let bulletinsTimelineComputedDigest :=
    digest md5 (timelineHash bulletin) in
  let regularEventsCollectionUpdated :=
    differs (regularEventsTimelineDigest input)
            regularEventsTimelineComputedDigest in
  let specialEventsCollectionUpdated :=
    differs (specialEventsTimelineDigest input)
            specialEventsTimelineComputedDigest in
  let bulletinsCollectionUpdated :=
    differs (bulletinsTimelineDigest input)
            bulletinsTimelineComputedDigest in
  let collectionsUpdated :=
    regularEventsCollectionUpdated || specialEventsCollectionUpdated ||
    bulletinsCollectionUpdated in
  if collectionsUpdated then
    let updatedCollections :=
      pushIf regularEventsCollectionUpdated "regular events" ++
      pushIf specialEventsCollectionUpdated "special events" ++
      pushIf bulletinsCollectionUpdated "bulletins" in
    let computedGeneratedContent :=
      {| regularEvents := records regular;
         specialEvents := records special;
         bulletins := records bulletin;
         digests := [ regularEventsTimelineComputedDigest;
                      specialEventsTimelineComputedDigest;
                      bulletinsTimelineComputedDigest ];
         regularEventsErrors := errorList regular;
         specialEventsErrors := errorList special;
         bulletinsErrors := errorList bulletin |} in
    let computedGeneratedContentJsonBase64 :=
      base64 (stringify computedGeneratedContent) in
    let updatedCollectionsList := String.concat ", " updatedCollections in
    let githubCommitMessage :=
      "Generated content data: Updates in " +:+ updatedCollectionsList in
    let request :=
      Commit.mk githubCommitMessage computedGeneratedContentJsonBase64
                (generatedContentSha1 input) in
    match createOrUpdateFile request with
    | inr githubCommitSha1 =>
        Effects
          (out ++ [console_log
                     [ArgText ("Commit " +:+
                               String.substring 0 7 githubCommitSha1 +:+
                               " - Updates in " +:+
                               updatedCollectionsList)]])
          [request] None
    | inl r => topLevelCatch out [request] (Rejected r)
    end
  else
    Effects (out ++ [console_log [ArgText "No collection updates"]])
            [] None.

(** index.js 344-505, from the first loop on. *)
Definition agent (input : fetched) : effects :=
  match collectionLoop eventsTransform
                       (regularEventsTimeline input)
                       (regularEventsTweets input) [] with
  | (out, Throw e) => topLevelCatch out [] (Thrown e)
  | (out, Return regular) =>
  match collectionLoop eventsTransform
                       (specialEventsTimeline input)
                       (specialEventsTweets input) out with
  | (out, Throw e) => topLevelCatch out [] (Thrown e)
  | (out, Return special) =>
  match collectionLoop
          (fun tweetId tweetText _ => bulletinsTransform tweetId tweetText)
          (bulletinsTimeline input) (bulletinsTweets input) out with
  | (out, Throw e) => topLevelCatch out [] (Thrown e)
  | (out, Return bulletin) => publish input out regular special bulletin
  end end end.

End Program.
End Index.

(** ** src/unnamed/part_000, second file (482-1111)

    The successor of [src/index.js]: a fourth collection (announcements),
    the continuation and the catch block factored out as
    [handleContinuation] and [prepare], a dry-run option. *)

Module Successor.

(** What 800-919 bind: the option and the awaited fetches. *)
Record fetched := {
  dryRun : bool;
  announcementsTimeline : option (list string);
  announcementsTweets : option (gmap string tweetObject);
  regularEventsTimeline : option (list string);
  regularEventsTweets : option (gmap string tweetObject);
  specialEventsTimeline : option (list string);
  specialEventsTweets : option (gmap string tweetObject);
  bulletinsTimeline : option (list string);
  bulletinsTweets : option (gmap string tweetObject);
  generatedContentSha1 : string;
  announcementsTimelineDigest : jsval;
  regularEventsTimelineDigest : jsval;
  specialEventsTimelineDigest : jsval;
  bulletinsTimelineDigest : jsval
}.

(** [computedGeneratedContent] (1035-1049). *)
Record generatedContent := {
  announcements : list Announcement.t;
  regularEvents : list Event.t;
  specialEvents : list Event.t;
  bulletins : list Bulletin.t;
  digests : list string;
  announcementsErrors : list Descriptor.t;
  regularEventsErrors : list Descriptor.t;
  specialEventsErrors : list Descriptor.t;
  bulletinsErrors : list Descriptor.t
}.

Section Program.

Variable yamlSafeLoad : string -> loaded.
Variable newURL : jsval -> bool.
Variable md5 : string -> string.
Variable stringify : generatedContent -> string.
Variable base64 : string -> string.
Variable createOrUpdateFileContents : Commit.t -> rejection + string.

(** part_000 718-737. *)
Definition handleContinuation {R} `{Descriptive R}
    (lastNonContinuation : option ref) (descriptive : string)
    : M R result :=
  match lastNonContinuation with
  | Some last =>
      let separator :=
        if nonEmpty descriptive then LF +:+ LF else EmptyString in
      appendDescriptive last (separator +:+ descriptive) ;;;
      ret (Result None (Some last) None)
  | None =>
      throw (Error (Message "Continuation tweet with no primary"))
  end.

(** part_000 747-776; [tweetId] is [None] where the caller passes no
    second argument. *)
Definition prepare {R} (error : thrown) (tweetId : option string)
    : M R result :=
  let descriptor := describe error tweetId in
  consoleError [ArgDescriptor descriptor] ;;;
  ret (Result None None (Some descriptor)).

(** part_000 537-583. *)
Definition announcementsTransform (tweetId tweetText : string)
    (lastNonContinuationAnnouncement : option ref)
    : M Announcement.t result :=
  tryCatch
    (announcementDocument <- load yamlSafeLoad tweetText ;;
     destructure announcementDocument ;;;
     let title := get announcementDocument "title" in
     let subtitle := get announcementDocument "sub" in
     let color := get announcementDocument "color" in
     let youtube := get announcementDocument "youtube" in
     let tweet := get announcementDocument "tweet" in
     let descriptiveRaw :=
       orDefault (get announcementDocument "desc") (VString EmptyString) in
     descriptive <- callTrim descriptiveRaw ;;
     let continuation := negb (truthy title) && nonEmpty descriptive in
     if negb continuation then
       (if negb (truthy title)
        then throw (TypeError (Message "Title missing"))
        else ret tt) ;;;
       announcement <- alloc (Announcement.mk title subtitle color youtube
                                              tweet descriptive) ;;
       ret (Result (Some announcement) (Some announcement) None)
     else
       handleContinuation lastNonContinuationAnnouncement descriptive)
    (fun error => prepare error (Some tweetId)).

(** part_000 597-646. *)
Definition eventsTransform (tweetId tweetText : string)
    (lastNonContinuationEvent : option ref) : M Event.t result :=
  tryCatch
    (eventDocument <- load yamlSafeLoad tweetText ;;
     destructure eventDocument ;;;
     let title := get eventDocument "title" in
     let subtitle := get eventDocument "sub" in
     let color := get eventDocument "color" in
     let location := get eventDocument "loc" in
     let times := orDefault (get eventDocument "times") (VArray []) in
     let descriptiveRaw :=
       orDefault (get eventDocument "desc") (VString EmptyString) in
     descriptive <- callTrim descriptiveRaw ;;
     let continuation := negb (truthy title) && nonEmpty descriptive in
     if negb continuation then
       (if negb (truthy title)
        then throw (TypeError (Message "Title missing"))
        else ret tt) ;;;
       items <- iterate times ;;
       timesLoop items ;;;
       event <- alloc (Event.mk title subtitle color location times
                                descriptive) ;;
       ret (Result (Some event) (Some event) None)
     else
       handleContinuation lastNonContinuationEvent descriptive)
    (fun error => prepare error (Some tweetId)).

(** part_000 658-707; the catch block calls [prepare(error)]. *)
Definition bulletinsTransform (tweetId tweetText : string)
    : M Bulletin.t result :=
  tryCatch
    (bulletinDocument <- load yamlSafeLoad tweetText ;;
     destructure bulletinDocument ;;;
     let date := get bulletinDocument "date" in
     let title := get bulletinDocument "title" in
     let subtitle := get bulletinDocument "sub" in
     let link := get bulletinDocument "link" in
     let inserts := orDefault (get bulletinDocument "inserts") (VArray []) in
     (if negb (truthy date) || negb (truthy title)
      then throw (TypeError (Message "Bulletin date or title missing"))
      else ret tt) ;;;
     (if negb (newURL link)
      then throw (TypeError (Message "Bulletin link missing or invalid"))
      else ret tt) ;;;
     items <- iterate inserts ;;
     insertsLoop newURL items ;;;
     bulletin <- alloc (Bulletin.mk date title subtitle link inserts) ;;
     ret (Result (Some bulletin) None None))
    (fun error => prepare error None).

(** part_000 1004-1098, once the four loops have run. *)
Definition publish (input : fetched) (out : list consoleCall)
    (announcement : collected Announcement.t)
    (regular special : collected Event.t) (bulletin : collected Bulletin.t)
    : effects :=
  let announcementsTimelineComputedDigest :=
    digest md5 (timelineHash announcement) in
  let regularEventsTimelineComputedDigest :=
    digest md5 (timelineHash regular) in
  let specialEventsTimelineComputedDigest :=
    digest md5 (timelineHash special) in
  let bulletinsTimelineComputedDigest :=
    digest md5 (timelineHash bulletin) in
  let announcementsCollectionUpdated :=
    differs (announcementsTimelineDigest input)
            announcementsTimelineComputedDigest in
  let regularEventsCollectionUpdated :=
    differs (regularEventsTimelineDigest input)
            regularEventsTimelineComputedDigest in
  let specialEventsCollectionUpdated :=
    differs (specialEventsTimelineDigest input)
            specialEventsTimelineComputedDigest in
  let bulletinsCollectionUpdated :=
    differs (bulletinsTimelineDigest input)
            bulletinsTimelineComputedDigest in
  let collectionsUpdated :=
    announcementsCollectionUpdated || regularEventsCollectionUpdated ||
    specialEventsCollectionUpdated || bulletinsCollectionUpdated in
  if collectionsUpdated || dryRun input then
    let computedGeneratedContent :=
      {| announcements := records announcement;
         regularEvents := records regular;
         specialEvents := records special;
         bulletins := records bulletin;
         digests := [ announcementsTimelineComputedDigest;
                      regularEventsTimelineComputedDigest;
                      specialEventsTimelineComputedDigest;
                      bulletinsTimelineComputedDigest ];
         announcementsErrors := errorList announcement;
         regularEventsErrors := errorList regular;
         specialEventsErrors := errorList special;
         bulletinsErrors := errorList bulletin |} in
    let computedGeneratedContentJson := stringify computedGeneratedContent in
    let computedGeneratedContentJsonBase64 :=
      base64 computedGeneratedContentJson in
    if negb (dryRun input) then
      let updatedCollections :=
        pushIf announcementsCollectionUpdated "announcements" ++
        pushIf regularEventsCollectionUpdated "regular events" ++
        pushIf specialEventsCollectionUpdated "special events" ++
        pushIf bulletinsCollectionUpdated "bulletins" in
      let updatedCollectionsList := String.concat ", " updatedCollections in
      let githubCommitMessage :=
        "Generated content data: Updates in " +:+ updatedCollectionsList in
      let request :=
        Commit.mk githubCommitMessage computedGeneratedContentJsonBase64
                  (generatedContentSha1 input) in
      match createOrUpdateFileContents request with
      | inr githubCommitSha1 =>
          Effects
            (out ++ [console_info
                       [ArgText ("Commit " +:+
                                 String.substring 0 7 githubCommitSha1 +:+
                                 " - Updates in " +:+
                                 updatedCollectionsList)]])
            [request] None
      | inl r => topLevelCatch out [request] (Rejected r)
      end
    else
      Effects (out ++ [console_info [ArgText computedGeneratedContentJson]])
              [] None
  else
    Effects (out ++ [console_info [ArgText "No collection updates"]])
            [] None.

(** part_000 921-1110, from the first loop on. *)
Definition agent (input : fetched) : effects :=
  match collectionLoop announcementsTransform
                       (announcementsTimeline input)
                       (announcementsTweets input) [] with
  | (out, Throw e) => topLevelCatch out [] (Thrown e)
  | (out, Return announcement) =>
  match collectionLoop eventsTransform
                       (regularEventsTimeline input)
                       (regularEventsTweets input) out with
  | (out, Throw e) => topLevelCatch out [] (Thrown e)
  | (out, Return regular) =>
  match collectionLoop eventsTransform
                       (specialEventsTimeline input)
                       (specialEventsTweets input) out with
  | (out, Throw e) => topLevelCatch out [] (Thrown e)
  | (out, Return special) =>
  match collectionLoop
          (fun tweetId tweetText _ => bulletinsTransform tweetId tweetText)
          (bulletinsTimeline input) (bulletinsTweets input) out with
  | (out, Throw e) => topLevelCatch out [] (Thrown e)
  | (out, Return bulletin) =>
      publish input out announcement regular special bulletin
  end end end end.

End Program.
End Successor.

(** ** The [try] blocks of [src/index.js]

    What stands between [try {] and [catch] in the two transforms
    (index.js 56-111 and 156-195), on its own and not yet under the catch
    block: the computation whose exceptions the catch block receives. *)

Definition eventsTry (yamlSafeLoad : string -> loaded) (tweetText : string)
    (lastNonContinuationEvent : option ref) : M Event.t result :=
  eventDocument <- load yamlSafeLoad tweetText ;;
  destructure eventDocument ;;;
  let title := get eventDocument "title" in
  let subtitle := get eventDocument "sub" in
  let color := get eventDocument "color" in
  let location := get eventDocument "loc" in
  let times := orDefault (get eventDocument "times") (VArray []) in
  let descriptiveRaw :=
    orDefault (get eventDocument "desc") (VString EmptyString) in
  descriptive <- callTrim descriptiveRaw ;;
  let continuation := negb (truthy title) && nonEmpty descriptive in
  if negb continuation then
    (if negb (truthy title)
     then throw (TypeError (Message "Title missing"))
     else ret tt) ;;;
    items <- iterate times ;;
    timesLoop items ;;;
    event <- alloc (Event.mk title subtitle color location times
                             descriptive) ;;
    ret (Result (Some event) (Some event) None)
  else
    match lastNonContinuationEvent with
    | Some last =>
        let separator :=
          if nonEmpty descriptive then LF +:+ LF else EmptyString in
        appendDescriptive last (separator +:+ descriptive) ;;;
        ret (Result None (Some last) None)
    | None =>
        throw (Error (Message "Continuation tweet with no primary"))
    end.

Definition bulletinsTry (yamlSafeLoad : string -> loaded)
    (newURL : jsval -> bool) (tweetText : string) : M Bulletin.t result :=
  bulletinDocument <- load yamlSafeLoad tweetText ;;
  destructure bulletinDocument ;;;
  let date := get bulletinDocument "date" in
  let title := get bulletinDocument "title" in
  let subtitle := get bulletinDocument "sub" in
  let link := get bulletinDocument "link" in
  let inserts := orDefault (get bulletinDocument "inserts") (VArray []) in
  (if negb (truthy date) || negb (truthy title)
   then throw (TypeError (Message "Bulletin date or title missing"))
   else ret tt) ;;;
  (if negb (newURL link)
   then throw (TypeError (Message "Bulletin link missing or invalid"))
   else ret tt) ;;;
  items <- iterate inserts ;;
  insertsLoop newURL items ;;;
  bulletin <- alloc (Bulletin.mk date title subtitle link inserts) ;;
  ret (Result (Some bulletin) None None).

(** ** The invocation from its first line

    Before its first loop [exports.agent] awaits the secrets, the timelines
    and the published artifact, decodes the artifact and binds its digests
    by position (index.js 249-340, part_000 819-919), all of it inside the
    [try] of the top-level catch.  Either every call resolves and every
    statement binds - then [fetched] holds what they bound - or one of them
    rejects or throws, and the catch block receives that failure: nothing
    has been logged or sent by then.  What the services answer is theirs to
    say, so the outcome of that part is given. *)

Module Invocation.

Section Program.

Variable yamlSafeLoad : string -> loaded.
Variable newURL : jsval -> bool.
Variable md5 : string -> string.
Variable base64 : string -> string.
Variable createOrUpdateFile : Commit.t -> rejection + string.

(** index.js 246-506. *)
Definition index (stringify : Index.generatedContent -> string)
    (fetches : failure + Index.fetched) : effects :=
  match fetches with
  | inr input =>
      Index.agent yamlSafeLoad newURL md5 stringify base64
                  createOrUpdateFile input
  | inl error => topLevelCatch [] [] error
  end.

(** part_000 797-1111; the dry-run option is read before the [try]
    (800-817) and is part of what was bound. *)
Definition successor (stringify : Successor.generatedContent -> string)
    (fetches : failure + Successor.fetched) : effects :=
  match fetches with
  | inr input =>
      Successor.agent yamlSafeLoad newURL md5 stringify base64
                      createOrUpdateFile input
  | inl error => topLevelCatch [] [] error
  end.

End Program.

End Invocation.

(** * src/unnamed/part_000, first file (1-481)

    The predecessor of [src/index.js]: a post is read line by line with
    regular expressions, a post that does not fit is dropped without a
    diagnostic, and the transforms have no [try] of their own. *)

(** ** Regular expressions

    The fragment of ECMAScript patterns the file writes, matched the way
    the language's backtracking matcher does it: a pattern is run against
    a continuation, a greedy quantifier tries the longer match first and a
    lazy one the shorter.  Patterns have no flag but [g]: [^] and [$] are
    the ends of the input, and [.] is every code unit but a line
    terminator. *)

Module RegExp.

Inductive charClass :=
  | Dot
  | WhiteSpace
  | Word
  | Literal (c : ascii).

Definition isLineTerminator (c : ascii) : bool :=
  match c with
  | "010" | "013" => true
  | _ => false
  end%char.

Definition isWordChar (c : ascii) : bool :=
  (Ascii.leb "a" c && Ascii.leb c "z") ||
  (Ascii.leb "A" c && Ascii.leb c "Z") ||
  (Ascii.leb "0" c && Ascii.leb c "9") ||
  Ascii.eqb c "_".

Definition matches (class : charClass) (c : ascii) : bool :=
  match class with
  | Dot => negb (isLineTerminator c)
  | WhiteSpace => isWhiteSpace c
  | Word => isWordChar c
  | Literal l => Ascii.eqb c l
  end.

Inductive pattern :=
  | Empty
  | Atom (class : charClass)
  | Star (class : charClass)
  | LazyStar (class : charClass)
  | Plus (class : charClass)
  | Capture (index : nat) (body : pattern)
  | Optional (body : pattern)
  | InputStart
  | InputEnd
  | Seq (first second : pattern).

(** The end index of a match and its captures; index 0 of the captures is
    left for the matched text, and a group that took no part is
    [undefined]. *)
Definition matchResult : Type := nat * list jsval.

(** What is left to match: from an index, the rest of the input there and
    the captures so far. *)
Definition continuation : Type :=
  nat -> string -> list jsval -> option matchResult.

(** [class*] and [class*?]. *)
Fixpoint star (class : charClass) (greedy : bool) (k : continuation)
    (index : nat) (rest : string) (captures : list jsval)
    : option matchResult :=
  match rest with
  | String c rest' =>
      if matches class c then
        if greedy then
          match star class greedy k (S index) rest' captures with
          | Some r => Some r
          | None => k index rest captures
          end
        else
          match k index rest captures with
          | Some r => Some r
          | None => star class greedy k (S index) rest' captures
          end
      else k index rest captures
  | EmptyString => k index rest captures
  end.

Fixpoint matcher (p : pattern) (k : continuation)
    (index : nat) (rest : string) (captures : list jsval)
    : option matchResult :=
  match p with
  | Empty => k index rest captures
  | Atom class =>
      match rest with
      | String c rest' =>
          if matches class c then k (S index) rest' captures else None
      | EmptyString => None
      end
  | Star class => star class true k index rest captures
  | LazyStar class => star class false k index rest captures
  | Plus class =>
      match rest with
      | String c rest' =>
          if matches class c then star class true k (S index) rest' captures
          else None
      | EmptyString => None
      end
  | Capture n body =>
      matcher body
        (fun index' rest' captures' =>
           k index' rest'
             (<[n := VString (String.substring 0 (index' - index) rest)]>
                captures'))
        index rest captures
  | Optional body =>
      match matcher body
              (fun index' rest' captures' =>
                 if Nat.eqb index' index then None else k index' rest' captures')
              index rest captures with
      | Some r => Some r
      | None => k index rest captures
      end
  | InputStart => if Nat.eqb index 0 then k index rest captures else None
  | InputEnd =>
      match rest with
      | EmptyString => k index rest captures
      | String _ _ => None
      end
  | Seq first second => matcher first (matcher second k) index rest captures
  end.

(** One attempt at an index: the end of the match and the captures. *)
Definition attempt (p : pattern) (groups : nat) (index : nat) (rest : string)
    : option matchResult :=
  matcher p (fun index' _ captures => Some (index', captures))
          index rest (replicate (S groups) VUndefined).

(** The search of [RegExpBuiltinExec] from an index on: the first index at
    which the pattern matches. *)
Fixpoint search (p : pattern) (groups : nat) (index : nat) (rest : string)
    : option (list jsval) :=
  match attempt p groups index rest with
  | Some (e, captures) =>
      Some (<[0 := VString (String.substring 0 (e - index) rest)]> captures)
  | None =>
      match rest with
      | String _ rest' => search p groups (S index) rest'
      | EmptyString => None
      end
  end.

(** [s.match(p)] for a pattern without [g]: the array of the matched text
    and the captures, or [null]. *)
Definition exec (p : pattern) (groups : nat) (s : string)
    : option (list jsval) :=
  search p groups 0 s.

(** [s.replace(p, '')] for a pattern with [g]: every match, found from the
    end of the one before, is left out; [skip] code units of the current
    match are still to be left out.  After an empty match the search moves
    one code unit on. *)
Fixpoint remove (p : pattern) (skip : nat) (index : nat) (rest : string)
    : string :=
  match rest with
  | EmptyString => EmptyString
  | String c rest' =>
      match skip with
      | S skip' => remove p skip' (S index) rest'
      | 0 =>
          match attempt p 0 index rest with
          | Some (e, _) =>
              match e - index with
              | S skip' => remove p skip' (S index) rest'
              | 0 => String c (remove p 0 (S index) rest')
              end
          | None => String c (remove p 0 (S index) rest')
          end
      end
  end.

Definition removeAll (p : pattern) (s : string) : string := remove p 0 0 s.

(** A pattern written as the sequence of its terms. *)
Definition sequence (terms : list pattern) : pattern :=
  fold_right Seq Empty terms.

End RegExp.

(** [s.split(separator)] for a separator of one code unit: the first piece
    and the pieces after it. *)
Fixpoint splitBy (separator : ascii) (s : string) : string * list string :=
  match s with
  | EmptyString => (EmptyString, [])
  | String c s' =>
      let (piece, pieces) := splitBy separator s' in
      if Ascii.eqb c separator then (EmptyString, piece :: pieces)
      else (String c piece, pieces)
  end.

(** An element of an array read by a destructuring pattern: [undefined]
    past the end. *)
Definition at_ (index : nat) (array : list jsval) : jsval :=
  default VUndefined (array !! index).

Module Predecessor.

Import RegExp.

(** [/^\s*(.*?)\s*$/] *)
Definition trimPattern : pattern :=
  sequence [ InputStart; Star WhiteSpace; Capture 1 (LazyStar Dot);
             Star WhiteSpace; InputEnd ].

(** [/\+\w+/g] *)
Definition colorDirectives : pattern :=
  sequence [ Atom (Literal "+"); Plus Word ].

(** [/\+(\w+)/] *)
Definition colorDirective : pattern :=
  sequence [ Atom (Literal "+"); Capture 1 (Plus Word) ].

(** [/^\s*(.*?)\s*@\s*(.*?)(?:\s*\(\s*(.*?)\s*\).*?)?\s*$/] *)
Definition timePattern : pattern :=
  sequence [ InputStart; Star WhiteSpace; Capture 1 (LazyStar Dot);
             Star WhiteSpace; Atom (Literal "@"); Star WhiteSpace;
             Capture 2 (LazyStar Dot);
             Optional
               (sequence [ Star WhiteSpace; Atom (Literal "(");
                           Star WhiteSpace; Capture 3 (LazyStar Dot);
                           Star WhiteSpace; Atom (Literal ")");
                           LazyStar Dot ]);
             Star WhiteSpace; InputEnd ].

(** [/^\s*(.*?)\s*-\s*(.*?)\s*$/] *)
Definition dateTitlePattern : pattern :=
  sequence [ InputStart; Star WhiteSpace; Capture 1 (LazyStar Dot);
             Star WhiteSpace; Atom (Literal "-"); Star WhiteSpace;
             Capture 2 (LazyStar Dot); Star WhiteSpace; InputEnd ].

Record occurrence := { day : jsval; time : jsval; location : jsval }.

Module Event.
Record t := mk {
  title : jsval;
  color : jsval;
  times : list occurrence;
  descriptive : list jsval
}.
End Event.

Record insert := { insertTitle : jsval; insertLink : jsval }.

Module Bulletin.
Record t := mk {
  date : jsval;
  title : jsval;
  link : jsval;
  inserts : list insert
}.
End Bulletin.

(** [[ , line ] = rawLine.match(/^\s*(.*?)\s*$/)]: the destructuring of
    [null] throws. *)
Definition trimmed {R} (rawLine : string) : M R jsval :=
  match exec trimPattern 1 rawLine with
  | Some result => ret (at_ 1 result)
  | None => throw (TypeError (EngineMessage NotIterable))
  end.

(** The loop over the time segments (part_000 80-95). *)
Fixpoint timesLoop (timeSegments : list string) (times : list occurrence)
    : list occurrence :=
  match timeSegments with
  | [] => times
  | timeSegment :: rest =>
      let result :=
        default [ VUndefined; VNull; VNull; VNull ]
                (exec timePattern 3 timeSegment) in
      let day := at_ 1 result in
      let time := at_ 2 result in
      let location := orDefault (at_ 3 result) VNull in
      timesLoop rest
        (if truthy day && truthy time
         then times ++ [ {| day := day; time := time; location := location |} ]
         else times)
  end.

(** The loop over the descriptive lines of a primary (part_000 99-107). *)
Fixpoint descriptiveLoop {R} (descriptiveLines : list string)
    (descriptive : list jsval) : M R (list jsval) :=
  match descriptiveLines with
  | [] => ret descriptive
  | rawLine :: rest =>
      line <- trimmed rawLine ;;
      descriptiveLoop rest
        (if truthy line then descriptive ++ [line] else descriptive)
  end.

(** [descriptive.push(line)] through the reference to the event. *)
Definition pushDescriptive (event : ref) (line : jsval) : M Event.t unit :=
  fun w =>
    (World (alter (fun e => Event.mk (Event.title e) (Event.color e)
                                     (Event.times e)
                                     (Event.descriptive e ++ [line]))
                  event (heap w))
           (console w),
     Return tt).

(** The loop over the lines of a continuation (part_000 124-132): it
    writes to the array of the event the last-primary names. *)
Fixpoint continuationLoop (event : ref) (descriptiveLines : list string)
    : M Event.t unit :=
  match descriptiveLines with
  | [] => ret tt
  | lineRaw :: rest =>
      line <- trimmed lineRaw ;;
      (if truthy line then pushDescriptive event line else ret tt) ;;;
      continuationLoop event rest
  end.

(** The pairing of the trimmed lines into inserts (part_000 185-208). *)
Fixpoint insertsLoop {R} (subsequentLines : list string)
    (insertTitle : jsval) (expectingInsertTitleLine : bool)
    (inserts : list insert) : M R (list insert) :=
  match subsequentLines with
  | [] => ret inserts
  | rawLine :: rest =>
      trimmedLine <- trimmed rawLine ;;
      if truthy trimmedLine then
        if expectingInsertTitleLine
        then insertsLoop rest trimmedLine false inserts
        else insertsLoop rest insertTitle true
               (inserts ++ [ {| insertTitle := insertTitle;
                                insertLink := trimmedLine |} ])
      else insertsLoop rest insertTitle expectingInsertTitleLine inserts
  end.

(** The arrays and the hash a collection's loop writes to, and the variable
    it carries from one post to the next (part_000 332-355). *)
Record collection := Collection {
  dataset : list ref;
  hash : Hash;
  lastNonContinuationElement : option ref
}.

(** An element of the array a transform returns: [null] and [undefined]
    alike where only its truth is asked. *)
Definition element (index : nat) (array : list (option ref)) : option ref :=
  array !! index ≫= id.

Section Loop.

Context {R : Type}.
Variable transform : string -> option ref -> M R (list (option ref)).
Variable tweets : gmap string tweetObject.

(** One pass of the inner loop (part_000 364-390). *)
Definition iteration (state : collection) (tweetId : string)
    : M R collection :=
  match tweets !! tweetId with
  | None => throw (TypeError (EngineMessage NotDestructurable))
  | Some {| full_text := tweetText; urls := tweetLinks |} =>
      r <- transform (tweetTextExpandedLinks tweetText tweetLinks)
                     (lastNonContinuationElement state) ;;
      ret (Collection (push (dataset state) (element 0 r))
                      (update (hash state) tweetText)
                      (element 1 r))
  end.

Fixpoint timelineLoop (timeline : list string) (state : collection)
    : M R collection :=
  match timeline with
  | [] => ret state
  | tweetId :: rest =>
      state' <- iteration state tweetId ;;
      timelineLoop rest state'
  end.

End Loop.

(** What a collection contributes to the generated content. *)
Record collected (R : Type) := Collected {
  records : list R;
  timelineHash : Hash
}.
Arguments Collected {R} records timelineHash.
Arguments records {R} c.
Arguments timelineHash {R} c.

(** One pass of the outer loop (part_000 340-391); each collection's
    objects live in a store of their own, the console is the one
    console. *)
Definition collectionLoop {R}
    (transform : string -> option ref -> M R (list (option ref)))
    (timeline : option (list string))
    (tweets : option (gmap string tweetObject))
    (out : list consoleCall) : list consoleCall * outcome (collected R) :=
  match timelineLoop transform (default ∅ tweets) (default [] timeline)
                     (Collection [] createHash None) (World [] out) with
  | (w, Return state) =>
      (console w,
       Return (Collected (omap (fun r => heap w !! r) (dataset state))
                         (hash state)))
  | (w, Throw e) => (console w, Throw e)
  end.

(** [computedGeneratedContent] (part_000 437-444). *)
Record generatedContent := {
  regularEvents : list Event.t;
  specialEvents : list Event.t;
  bulletins : list Bulletin.t;
  digests : list string
}.

Section Program.

(** [process.env.TWEET_CONTINUATION]. *)
Variable tweetContinuationLine : option string.
Variable newURL : jsval -> bool.
Variable md5 : string -> string.

(** [firstLine !== tweetContinuationLine]. *)
Definition isContinuation (firstLine : string) : bool :=
  match tweetContinuationLine with
  | Some line => String.eqb firstLine line
  | None => false
  end.

(** part_000 50-143.  The event object is made only where it is returned:
    elsewhere nothing can reach it. *)
Definition eventsTransform (tweetText : string)
    (lastNonContinuationEvent : option ref)
    : M Event.t (list (option ref)) :=
  let (firstLine, subsequentLines) := splitBy "010" tweetText in
  if negb (isContinuation firstLine) then
    let titleLine := firstLine in
    let timesLine := head subsequentLines in
    let descriptiveLines := tail subsequentLines in
    title <- trimmed (removeAll colorDirectives titleLine) ;;
    let color :=
      at_ 1 (default [ VUndefined; VNull ]
                     (exec colorDirective 1 titleLine)) in
    let timeSegments :=
      match timesLine with
      | Some line =>
          if nonEmpty line
          then let (segment, segments) := splitBy ";" line in
               segment :: segments
          else []
      | None => []
      end in
    let times := timesLoop timeSegments [] in
    descriptive <- descriptiveLoop descriptiveLines [] ;;
    if truthy title && Nat.ltb 0 (length times) then
      event <- alloc (Event.mk title color times descriptive) ;;
      ret [ Some event; Some event ]
    else ret [ None; None ]
  else
    match lastNonContinuationEvent with
    | Some event =>
        continuationLoop event subsequentLines ;;;
        ret [ None; Some event ]
    | None => ret [ None; None ]
    end.

(** part_000 153-214. *)
Definition bulletinsTransform (tweetText : string)
    : M Bulletin.t (list (option ref)) :=
  let (bulletinDateTitleLine, lines) := splitBy "010" tweetText in
  let bulletinLinkLine := head lines in
  let subsequentLines := tail lines in
  let result :=
    default [ VUndefined; VNull; VNull ]
            (exec dateTitlePattern 2 bulletinDateTitleLine) in
  let date := at_ 1 result in
  let title := at_ 2 result in
  link <- match bulletinLinkLine with
          | Some line => trimmed line
          | None => throw (TypeError (EngineMessage NoProperties))
          end ;;
  if negb (truthy date) || negb (truthy title) then ret [ None ]
  else if negb (newURL link) then ret [ None ]
  else
    inserts <- insertsLoop subsequentLines VUndefined true [] ;;
    bulletin <- alloc (Bulletin.mk date title link inserts) ;;
    ret [ Some bulletin ].

Variable stringify : generatedContent -> string.
Variable base64 : string -> string.
Variable createOrUpdateFile : Commit.t -> rejection + string.

(** part_000 393-467, once the three loops have run. *)
Definition publish (input : Index.fetched) (out : list consoleCall)
    (regular special : collected Event.t) (bulletin : collected Bulletin.t)
    : effects :=
  let regularEventsTimelineComputedDigest :=
    digest md5 (timelineHash regular) in
  let specialEventsTimelineComputedDigest :=
    digest md5 (timelineHash special) in
  let bulletinsTimelineComputedDigest :=
    digest md5 (timelineHash bulletin) in
  let regularEventsCollectionUpdated :=
    differs (Index.regularEventsTimelineDigest input)
            regularEventsTimelineComputedDigest in
  let specialEventsCollectionUpdated :=
    differs (Index.specialEventsTimelineDigest input)
            specialEventsTimelineComputedDigest in
  let bulletinsCollectionUpdated :=
    differs (Index.bulletinsTimelineDigest input)
            bulletinsTimelineComputedDigest in
  let collectionsUpdated :=
    regularEventsCollectionUpdated || specialEventsCollectionUpdated ||
    bulletinsCollectionUpdated in
  if collectionsUpdated then
    let updatedCollections :=
      pushIf regularEventsCollectionUpdated "regular events" ++
      pushIf specialEventsCollectionUpdated "special events" ++
      pushIf bulletinsCollectionUpdated "bulletins" in
    let computedGeneratedContent :=
      {| regularEvents := records regular;
         specialEvents := records special;
         bulletins := records bulletin;
         digests := [ regularEventsTimelineComputedDigest;
                      specialEventsTimelineComputedDigest;
                      bulletinsTimelineComputedDigest ] |} in
    let computedGeneratedContentJsonBase64 :=
      base64 (stringify computedGeneratedContent) in
    let updatedCollectionsList := String.concat ", " updatedCollections in
    let githubCommitMessage :=
      "Generated content data: Updates in " +:+ updatedCollectionsList in
    let request :=
      Commit.mk githubCommitMessage computedGeneratedContentJsonBase64
                (Index.generatedContentSha1 input) in
    match createOrUpdateFile request with
    | inr githubCommitSha1 =>
        Effects
          (out ++ [console_log
                     [ArgText ("Commit " +:+
                               String.substring 0 7 githubCommitSha1 +:+
                               " - Updates in " +:+
                               updatedCollectionsList)]])
          [request] None
    | inl r => topLevelCatch out [request] (Rejected r)
    end
  else
    Effects (out ++ [console_log [ArgText "No collection updates"]])
            [] None.

(** part_000 330-480, from the first loop on; what was fetched is bound as
    in [src/index.js]. *)
Definition agent (input : Index.fetched) : effects :=
  match collectionLoop eventsTransform
                       (Index.regularEventsTimeline input)
                       (Index.regularEventsTweets input) [] with
  | (out, Throw e) => topLevelCatch out [] (Thrown e)
  | (out, Return regular) =>
  match collectionLoop eventsTransform
                       (Index.specialEventsTimeline input)
                       (Index.specialEventsTweets input) out with
  | (out, Throw e) => topLevelCatch out [] (Thrown e)
  | (out, Return special) =>
  match collectionLoop (fun tweetText _ => bulletinsTransform tweetText)
                       (Index.bulletinsTimeline input)
                       (Index.bulletinsTweets input) out with
  | (out, Throw e) => topLevelCatch out [] (Thrown e)
  | (out, Return bulletin) => publish input out regular special bulletin
  end end end.

End Program.

End Predecessor.

(** * Vocabulary of the properties *)

(** ** Link expansion *)


(** ** The document as the transforms see it

    The try block of a transform decides, without touching the store, among
    a primary record, a continuation and an exception; the rest of the
    transform acts on that decision.  The definitions of this part restate
    the decision as plain functions, and [eventsTransform_resolve] and its
    siblings show that the transforms compute exactly that. *)

(** The values [for ... of] visits, when there are any. *)
Definition elements (v : jsval) : option (list jsval) :=
  match v with
  | VArray items => Some items
  | VString s =>
      Some (map (fun c => VString (String c EmptyString))
                (String.list_ascii_of_string s))
  | _ => None
  end.

(** [null] or [undefined]. *)
Definition nullish (v : jsval) : bool :=
  match v with
  | VUndefined | VNull => true
  | _ => false
  end.

(** The first exception of the loop over [times], if any. *)
Fixpoint timesFault (items : list jsval) : option thrown :=
  match items with
  | [] => None
  | item :: rest =>
      if nullish item
      then Some (TypeError (EngineMessage NotDestructurable))
      else if negb (truthy (get item "day")) || negb (truthy (get item "time"))
      then Some (TypeError (Message "Day/date or time missing"))
      else timesFault rest
  end.

(** The first exception of the loop over [inserts], if any. *)
Fixpoint insertsFault (newURL : jsval -> bool) (items : list jsval)
    : option thrown :=
  match items with
  | [] => None
  | item :: rest =>
      if nullish item
      then Some (TypeError (EngineMessage NotDestructurable))
      else if negb (truthy (get item "title"))
      then Some (TypeError (Message "Insert title missing"))
      else if negb (newURL (get item "link"))
      then Some (TypeError (Message "Insert link missing or invalid"))
      else insertsFault newURL rest
  end.

(** The decision of a try block. *)
Inductive parsed (R : Type) :=
  | Primary (record : R)
  | Continuation (descriptive : string)
  | Invalid (e : thrown).
Arguments Primary {R} record.
Arguments Continuation {R} descriptive.
Arguments Invalid {R} e.

(** The try block of [eventsTransform], up to the decision. *)
Definition parseEvent (l : loaded) : parsed Event.t :=
  match l with
  | Malformed reason mark => Invalid (YAMLException reason mark)
  | Document doc =>
      if nullish doc
      then Invalid (TypeError (EngineMessage NotDestructurable))
      else
        match orDefault (get doc "desc") (VString EmptyString) with
        | VString raw =>
            let title := get doc "title" in
            let times := orDefault (get doc "times") (VArray []) in
            if negb (truthy title) && nonEmpty (trim raw)
            then Continuation (trim raw)
            else if negb (truthy title)
            then Invalid (TypeError (Message "Title missing"))
            else
              match elements times with
              | None => Invalid (TypeError (EngineMessage NotIterable))
              | Some items =>
                  match timesFault items with
                  | Some e => Invalid e
                  | None =>
                      Primary (Event.mk title (get doc "sub")
                                        (get doc "color") (get doc "loc")
                                        times (trim raw))
                  end
              end
        | VUndefined | VNull =>
            Invalid (TypeError (EngineMessage NoProperties))
        | _ => Invalid (TypeError (EngineMessage NotAFunction))
        end
  end.

(** The try block of [announcementsTransform], up to the decision. *)
Definition parseAnnouncement (l : loaded) : parsed Announcement.t :=
  match l with
  | Malformed reason mark => Invalid (YAMLException reason mark)
  | Document doc =>
      if nullish doc
      then Invalid (TypeError (EngineMessage NotDestructurable))
      else
        match orDefault (get doc "desc") (VString EmptyString) with
        | VString raw =>
            let title := get doc "title" in
            if negb (truthy title) && nonEmpty (trim raw)
            then Continuation (trim raw)
            else if negb (truthy title)
            then Invalid (TypeError (Message "Title missing"))
            else
              Primary (Announcement.mk title (get doc "sub")
                                       (get doc "color") (get doc "youtube")
                                       (get doc "tweet") (trim raw))
        | VUndefined | VNull =>
            Invalid (TypeError (EngineMessage NoProperties))
        | _ => Invalid (TypeError (EngineMessage NotAFunction))
        end
  end.

(** The try block of [bulletinsTransform], up to the decision. *)
Definition parseBulletin (newURL : jsval -> bool) (l : loaded)
    : thrown + Bulletin.t :=
  match l with
  | Malformed reason mark => inl (YAMLException reason mark)
  | Document doc =>
      if nullish doc
      then inl (TypeError (EngineMessage NotDestructurable))
      else
        let inserts := orDefault (get doc "inserts") (VArray []) in
        if negb (truthy (get doc "date")) || negb (truthy (get doc "title"))
        then inl (TypeError (Message "Bulletin date or title missing"))
        else if negb (newURL (get doc "link"))
        then inl (TypeError (Message "Bulletin link missing or invalid"))
        else
          match elements inserts with
          | None => inl (TypeError (EngineMessage NotIterable))
          | Some items =>
              match insertsFault newURL items with
              | Some e => inl e
              | None =>
                  inr (Bulletin.mk (get doc "date") (get doc "title")
                                   (get doc "sub") (get doc "link") inserts)
              end
          end
  end.

(** What a catch block leaves: the descriptor on the console and in the
    result, the store untouched. *)
Definition failed {R} (e : thrown) (tweetId : option string) (w : world R)
    : world R * outcome result :=
  (World (heap w)
         (console w ++ [console_error [ArgDescriptor (describe e tweetId)]]),
   Return (Result None None (Some (describe e tweetId)))).

(** What a primary record leaves: a new object, returned twice. *)
Definition emitted {R} (record : R) (last : option ref) (w : world R)
    : world R * outcome result :=
  (World (heap w ++ [record]) (console w),
   Return (Result (Some (length (heap w))) last None)).

(** What a continuation leaves when there is a primary to write to. *)
Definition merged {R} `{Descriptive R} (last : ref) (descriptive : string)
    (w : world R) : world R * outcome result :=
  (World (alter (fun r =>
                   withDescriptive
                     (descriptiveOf r +:+
                        ((if nonEmpty descriptive then LF +:+ LF
                          else EmptyString) +:+ descriptive)) r)
                last (heap w))
         (console w),
   Return (Result None (Some last) None)).

(** The resolver of continuations, on the parser's decision. *)
Definition resolve {R} `{Descriptive R} (p : parsed R) (tweetId : option string)
    (last : option ref) (w : world R) : world R * outcome result :=
  match p with
  | Primary record => emitted record (Some (length (heap w))) w
  | Continuation descriptive =>
      match last with
      | Some l => merged l descriptive w
      | None =>
          failed (Error (Message "Continuation tweet with no primary"))
                 tweetId w
      end
  | Invalid e => failed e tweetId w
  end.

(** A transform that returns a triple on every input, whatever the store
    and the console hold. *)
Definition returns {R} (transform : string -> string -> option ref -> M R result)
    : Prop :=
  forall tweetId tweetText last w,
    exists w' r, transform tweetId tweetText last w = (w', Return r).

(** The timeline's ids paired with the tweets they name in the lookup
    table. *)
Definition resolved (tweets : gmap string tweetObject)
    (timeline : list string) (posts : list tweetObject) : Prop :=
  Forall2 (fun tweetId post => tweets !! tweetId = Some post) timeline posts.

(** ** Example data

    A decoder and a URL parser for the texts of the examples: every text the
    decoder does not know is read as one plain scalar. *)

Definition sampleYaml (text : string) : loaded :=
  if String.eqb text ("title: A" +:+ LF +:+ "desc: see https://example.org/x")
  then Document (VObject [("title", VString "A");
                          ("desc", VString "see https://example.org/x")])
  else if String.eqb text ("title: A" +:+ LF +:+ "desc: hello")
  then Document (VObject [("title", VString "A"); ("desc", VString "hello")])
  else if String.eqb text "title: A"
  then Document (VObject [("title", VString "A")])
  else if String.eqb text "desc: world"
  then Document (VObject [("desc", VString "world")])
  else if String.eqb text "desc: orphan"
  then Document (VObject [("desc", VString "orphan")])
  else if String.eqb text "title: ["
  then Malformed "unexpected end of the stream within a flow collection"
                 (Some {| position := 8; line := 1; column := 0 |})
  else if String.eqb text ("title: B" +:+ LF +:+ "times: [{day: Sunday}]")
  then Document (VObject [("title", VString "B");
                          ("times",
                           VArray [VObject [("day", VString "Sunday")]])])
  else if String.eqb text
            ("date: May 31" +:+ LF +:+ "title: C" +:+ LF +:+ "link: not-a-url")
  then Document (VObject [("date", VString "May 31"); ("title", VString "C");
                          ("link", VString "not-a-url")])
  else if String.eqb text EmptyString
  then Document VUndefined
  else Document (VString text).

Definition sampleURL (v : jsval) : bool :=
  match v with
  | VString s => String.prefix "https://" s
  | _ => false
  end.

(** A stand-in for MD5 that shows what it was given. *)
Definition sampleDigest (data : string) : string := "md5:" +:+ data.

(** A primary with a link, its continuation, a malformed post, and a
    continuation that finds no primary. *)
Definition samplePosts : list tweetObject :=
  [ {| full_text := "title: A" +:+ LF +:+ "desc: see t.co/x";
       urls := [ {| url := "t.co/x";
                    expanded_url := "https://example.org/x" |} ] |};
    {| full_text := "desc: world"; urls := [] |};
    {| full_text := "title: ["; urls := [] |};
    {| full_text := "desc: orphan"; urls := [] |} ].

Definition sampleTimeline : list string := [ "11"; "12"; "13"; "14" ].

Definition sampleTweets : gmap string tweetObject :=
  list_to_map (zip sampleTimeline samplePosts).

(** A tweet without links. *)
Definition post (text : string) : tweetObject :=
  {| full_text := text; urls := [] |}.

(** The digest a collection's loop ends with, when it runs to its end. *)
Definition computedDigest {R} (md5 : string -> string)
    (transform : string -> string -> option ref -> M R result)
    (timeline : list string) (tweets : gmap string tweetObject)
    : option string :=
  match collectionLoop transform (Some timeline) (Some tweets) [] with
  | (_, Return c) => Some (digest md5 (timelineHash c))
  | (_, Throw _) => None
  end.

(** A decoded document is a continuation candidate with descriptive text
    [descriptive]: no title, and a [desc] that trims to a non-empty
    [descriptive]. *)
Definition continuationCandidate (doc : jsval) (descriptive : string) : Prop :=
  truthy (get doc "title") = false /\
  exists raw,
    orDefault (get doc "desc") (VString EmptyString) = VString raw /\
    descriptive = trim raw /\
    descriptive <> EmptyString.

(** The descriptive text the spec's words give a merge: a blank line
    between the two texts only when both are non-empty. *)
Definition separatedWhenBothNonEmpty (primary continuation : string)
    : string :=
  primary +:+
  (if nonEmpty primary && nonEmpty continuation then LF +:+ LF
   else EmptyString) +:+
  continuation.

(** The descriptor of a continuation that finds no primary. *)
Definition noPrimary (tweetId : string) : Descriptor.t :=
  Descriptor.mk "Unexpected error" "Error"
                (Message "Continuation tweet with no primary") None
                (Some tweetId).

(** The descriptor of the malformed post of the examples. *)
Definition sampleMalformed : Descriptor.t :=
  describe (YAMLException
              "unexpected end of the stream within a flow collection"
              (Some {| position := 8; line := 1; column := 0 |}))
           (Some "13").

(** The record of the examples after its continuation. *)
Definition sampleEvent : Event.t :=
  Event.mk (VString "A") VUndefined VUndefined VUndefined (VArray [])
           ("see https://example.org/x" +:+ LF +:+ LF +:+ "world").

(** A store that accepts every request. *)
Definition sampleStore (request : Commit.t) : rejection + string :=
  inr "0123456789abcdef".

(** What an invocation of the examples fetched, with [stored] as the
    published digest of the regular events. *)
Definition sampleInput (stored : string) : Index.fetched :=
  {| Index.regularEventsTimeline := Some sampleTimeline;
     Index.regularEventsTweets := Some sampleTweets;
     Index.specialEventsTimeline := None;
     Index.specialEventsTweets := None;
     Index.bulletinsTimeline := None;
     Index.bulletinsTweets := None;
     Index.generatedContentSha1 := "f00";
     Index.regularEventsTimelineDigest := VString stored;
     Index.specialEventsTimelineDigest := VString (sampleDigest EmptyString);
     Index.bulletinsTimelineDigest := VString (sampleDigest EmptyString) |}.

(** ** Vocabulary of the further properties *)

(** An occurrence entry the loop over [times] accepts. *)
Definition validEntry (item : jsval) : bool :=
  negb (nullish item) && truthy (get item "day") && truthy (get item "time").

(** An insert the loop over [inserts] accepts. *)
Definition validInsert (newURL : jsval -> bool) (item : jsval) : bool :=
  negb (nullish item) && truthy (get item "title") && newURL (get item "link").

(** The documents [eventsTransform] makes a record of: a truthy title, a
    [desc] that is absent or a string, [times] absent or iterable, every
    entry with a truthy day and a truthy time. *)
Definition primaryEvent (doc : jsval) : bool :=
  truthy (get doc "title") &&
  match orDefault (get doc "desc") (VString EmptyString),
        elements (orDefault (get doc "times") (VArray [])) with
  | VString _, Some items => forallb validEntry items
  | _, _ => false
  end.

(** The record made of such a document. *)
Definition eventOf (doc : jsval) : Event.t :=
  Event.mk (get doc "title") (get doc "sub") (get doc "color")
           (get doc "loc") (orDefault (get doc "times") (VArray []))
           match orDefault (get doc "desc") (VString EmptyString) with
           | VString raw => trim raw
           | _ => EmptyString
           end.

(** The documents [bulletinsTransform] makes a record of. *)
Definition primaryBulletin (newURL : jsval -> bool) (doc : jsval) : bool :=
  truthy (get doc "date") && truthy (get doc "title") &&
  newURL (get doc "link") &&
  match elements (orDefault (get doc "inserts") (VArray [])) with
  | Some items => forallb (validInsert newURL) items
  | None => false
  end.

Definition bulletinOf (doc : jsval) : Bulletin.t :=
  Bulletin.mk (get doc "date") (get doc "title") (get doc "sub")
              (get doc "link") (orDefault (get doc "inserts") (VArray [])).

(** The documents [announcementsTransform] makes a record of. *)
Definition primaryAnnouncement (doc : jsval) : bool :=
  truthy (get doc "title") &&
  match orDefault (get doc "desc") (VString EmptyString) with
  | VString _ => true
  | _ => false
  end.

Definition announcementOf (doc : jsval) : Announcement.t :=
  Announcement.mk (get doc "title") (get doc "sub") (get doc "color")
                  (get doc "youtube") (get doc "tweet")
                  match orDefault (get doc "desc") (VString EmptyString) with
                  | VString raw => trim raw
                  | _ => EmptyString
                  end.

(** A bulletin with one insert, and a decoder that knows its text. *)
Definition sampleBulletinText : string :=
  "date: May 31" +:+ LF +:+ "title: C" +:+ LF +:+
  "link: https://example.org/c.pdf" +:+ LF +:+
  "inserts: [{title: Insert, link: https://example.org/i.pdf}]".

Definition sampleBulletin : jsval :=
  VObject [("date", VString "May 31"); ("title", VString "C");
           ("link", VString "https://example.org/c.pdf");
           ("inserts",
            VArray [VObject [("title", VString "Insert");
                             ("link", VString "https://example.org/i.pdf")]])].

Definition sampleBulletinYaml (text : string) : loaded :=
  if String.eqb text sampleBulletinText then Document sampleBulletin
  else sampleYaml text.

(** The three things a transform of the YAML revisions does with a post:
    allocate a record (and keep it as last-primary or not), write to the
    record the last-primary names, or log a descriptor stamped with the
    post's id. *)
Inductive stepOf {R} (tweetId : string) (last : option ref) (w : world R)
    : world R * outcome result -> Prop :=
  | step_record record keep :
      stepOf tweetId last w
        (World (heap w ++ [record]) (console w),
         Return (Result (Some (length (heap w)))
                        (if keep : bool then Some (length (heap w)) else None)
                        None))
  | step_merge l f :
      last = Some l ->
      stepOf tweetId last w
        (World (alter f l (heap w)) (console w),
         Return (Result None (Some l) None))
  | step_failed e :
      stepOf tweetId last w (failed e (Some tweetId) w).

Definition steps {R}
    (transform : string -> string -> option ref -> M R result) : Prop :=
  forall tweetId tweetText last w,
    stepOf tweetId last w (transform tweetId tweetText last w).

(** The pointer and the dataset agree with the store: the dataset lists
    every object of the store once, in the order of allocation, and the
    pointer is none or names the newest. *)
Definition aligned {R} (state : collection) (w : world R) : Prop :=
  dataset state = seq 0 (length (heap w)) /\
  match lastNonContinuationElement state with
  | Some l => S l = length (heap w)
  | None => True
  end.

(** The run of the examples, as computed. *)
Definition sampleRun : world Event.t * outcome collection :=
  Eval vm_compute in
    timelineLoop (Index.eventsTransform sampleYaml) sampleTweets
                 sampleTimeline (Collection [] [] createHash None)
                 (World [] []).

Definition sampleWorld : world Event.t := fst sampleRun.

Definition sampleState : collection :=
  match snd sampleRun with
  | Return state => state
  | Throw _ => Collection [] [] createHash None
  end.

(** [e'] is [e] with text appended to its descriptive text. *)
Definition extended (e e' : Event.t) : Prop :=
  Event.title e' = Event.title e /\
  Event.subtitle e' = Event.subtitle e /\
  Event.color e' = Event.color e /\
  Event.location e' = Event.location e /\
  Event.times e' = Event.times e /\
  exists suffix, Event.descriptive e' = Event.descriptive e +:+ suffix.

(** The posts pair with the descriptive texts of continuation candidates
    their expanded texts decode to. *)
Definition continuations (load : string -> loaded)
    (posts : list tweetObject) (texts : list string) : Prop :=
  Forall2 (fun post text =>
             exists doc,
               load (tweetTextExpandedLinks (full_text post) (urls post)) =
                 Document doc /\
               continuationCandidate doc text)
          posts texts.

(** Some id of the timeline has no entry in the lookup table. *)
Definition missing (tweets : option (gmap string tweetObject))
    (timeline : option (list string)) : Prop :=
  Exists (fun tweetId => default ∅ tweets !! tweetId = None)
         (default [] timeline).

(** What [publish] leaves behind, whatever it is given. *)
Definition settled (store : Commit.t -> rejection + string) (sha : string)
    (run : effects) : Prop :=
  length (requests run) <= 1 /\
  Forall (fun request => Commit.sha request = sha) (requests run) /\
  match caught run with
  | None =>
      forall request, request ∈ requests run ->
                      exists commit, store request = inr commit
  | Some (Rejected r) =>
      exists request, requests run = [request] /\ store request = inl r
  | Some (Thrown e) => False
  end.

(** A timeline of the examples that names a post the table does not have. *)
Definition sampleGap : Index.fetched :=
  {| Index.regularEventsTimeline := Some [ "11"; "99"; "12" ];
     Index.regularEventsTweets := Some sampleTweets;
     Index.specialEventsTimeline := None;
     Index.specialEventsTweets := None;
     Index.bulletinsTimeline := None;
     Index.bulletinsTweets := None;
     Index.generatedContentSha1 := "f00";
     Index.regularEventsTimelineDigest := VString "0";
     Index.specialEventsTimelineDigest := VString "0";
     Index.bulletinsTimelineDigest := VString "0" |}.

(** The console of the top-level catch after a thrown exception. *)
Definition errorBanner (e : thrown) : list consoleCall :=
  [ console_error [ArgText "****** ERROR ******"];
    console_error [ArgThrown e] ].

(** What an invocation of the successor fetched in the examples: the posts
    of the examples as announcements, the other timelines absent. *)
Definition sampleSuccessorInput (dry : bool) (stored : string)
    : Successor.fetched :=
  {| Successor.dryRun := dry;
     Successor.announcementsTimeline := Some sampleTimeline;
     Successor.announcementsTweets := Some sampleTweets;
     Successor.regularEventsTimeline := None;
     Successor.regularEventsTweets := None;
     Successor.specialEventsTimeline := None;
     Successor.specialEventsTweets := None;
     Successor.bulletinsTimeline := None;
     Successor.bulletinsTweets := None;
     Successor.generatedContentSha1 := "f00";
     Successor.announcementsTimelineDigest := VString stored;
     Successor.regularEventsTimelineDigest :=
       VString (sampleDigest EmptyString);
     Successor.specialEventsTimelineDigest :=
       VString (sampleDigest EmptyString);
     Successor.bulletinsTimelineDigest :=
       VString (sampleDigest EmptyString) |}.

(** ** Vocabulary of the predecessor's properties *)

(** Every code unit of the text is white space. *)
Fixpoint allWhiteSpace (s : string) : bool :=
  match s with
  | EmptyString => true
  | String c s' => isWhiteSpace c && allWhiteSpace s'
  end.

(** No line terminator: every code unit is one [.] matches. *)
Fixpoint oneLine (s : string) : bool :=
  match s with
  | EmptyString => true
  | String c s' => negb (RegExp.isLineTerminator c) && oneLine s'
  end.

(** The lines a loop over raw lines keeps: each trimmed, the empty ones
    left out. *)
Definition keptLines (rawLines : list string) : list jsval :=
  VString <$> filter (fun line => nonEmpty line = true) (trim <$> rawLines).

(** Every line trims to a text without a line terminator. *)
Definition cleanLines (rawLines : list string) : Prop :=
  Forall (fun line => oneLine (trim line) = true) rawLines.

(** The inserts made of consecutive pairs. *)
Fixpoint pairUp (lines : list jsval) : list Predecessor.insert :=
  match lines with
  | title :: link :: rest =>
      {| Predecessor.insertTitle := title; Predecessor.insertLink := link |}
      :: pairUp rest
  | _ => []
  end.

(** An event as the predecessor keeps them. *)
Definition wellFormed (event : Predecessor.Event.t) : Prop :=
  truthy (Predecessor.Event.title event) = true /\
  Predecessor.Event.times event <> [] /\
  Forall (fun o => truthy (Predecessor.day o) = true /\
                   truthy (Predecessor.time o) = true)
         (Predecessor.Event.times event) /\
  Forall (fun line => truthy line = true)
         (Predecessor.Event.descriptive event).

(** A post of the predecessor's format, and the event made of it. *)
Definition sampleLines : string :=
  "Mass +red" +:+ LF +:+ "Sun @ 9am (Hall); Mon @ 8am" +:+ LF +:+
  "  All welcome  ".

Definition sampleLinesEvent : Predecessor.Event.t :=
  Predecessor.Event.mk
    (VString "Mass") (VString "red")
    [ {| Predecessor.day := VString "Sun";
         Predecessor.time := VString "9am";
         Predecessor.location := VString "Hall" |};
      {| Predecessor.day := VString "Mon";
         Predecessor.time := VString "8am";
         Predecessor.location := VNull |} ]
    [ VString "All welcome" ].

(** An exception of the engine, not one the source throws by name. *)
Definition engineFault (e : thrown) : Prop :=
  exists f, e = TypeError (EngineMessage f).

(** A computation that writes nothing to the console and throws nothing
    but an exception of the engine. *)
Definition quiet {R A} (m : M R A) : Prop :=
  forall w,
    console (fst (m w)) = console w /\
    match snd (m w) with
    | Throw e => engineFault e
    | Return _ => True
    end.

(** The continuation of a match that has nothing left to do. *)
Definition done_ : RegExp.continuation :=
  fun index _ captures => Some (index, captures).

(** What the title line and the times line of a post give. *)
Definition titleOf (firstLine : string) : string :=
  trim (RegExp.removeAll Predecessor.colorDirectives firstLine).

Definition colorOf (firstLine : string) : jsval :=
  at_ 1 (default [ VUndefined; VNull ]
                 (RegExp.exec Predecessor.colorDirective 1 firstLine)).

Definition timesOf (subsequentLines : list string)
    : list Predecessor.occurrence :=
  match head subsequentLines with
  | Some line =>
      if nonEmpty line
      then Predecessor.timesLoop
             (fst (splitBy ";" line) :: snd (splitBy ";" line)) []
      else []
  | None => []
  end.

(** The date and the title of the first line of a bulletin post. *)
Definition dateTitleOf (firstLine : string) : jsval * jsval :=
  let result :=
    default [ VUndefined; VNull; VNull ]
            (RegExp.exec Predecessor.dateTitlePattern 2 firstLine) in
  (at_ 1 result, at_ 2 result).

(** A bulletin post with one insert and a title left without its link. *)
Definition sampleBulletinLines : string :=
  "May 31 - Pentecost" +:+ LF +:+ " https://example.org/c.pdf" +:+ LF +:+
  "Insert" +:+ LF +:+ LF +:+ "https://example.org/i.pdf " +:+ LF +:+
  "Left over".

(** A bulletins timeline with a post of one line after a post that
    fits. *)
Definition sampleOneLine : Index.fetched :=
  {| Index.regularEventsTimeline := None;
     Index.regularEventsTweets := None;
     Index.specialEventsTimeline := None;
     Index.specialEventsTweets := None;
     Index.bulletinsTimeline := Some [ "31"; "32" ];
     Index.bulletinsTweets :=
       Some (list_to_map [ ("31", post sampleBulletinLines);
                           ("32", post "June 7 - Trinity") ]);
     Index.generatedContentSha1 := "f00";
     Index.regularEventsTimelineDigest := VString "0";
     Index.specialEventsTimelineDigest := VString "0";
     Index.bulletinsTimelineDigest := VString "0" |}.

(** The code unit does not occur in the text. *)
Fixpoint lacks (c : ascii) (s : string) : bool :=
  match s with
  | EmptyString => true
  | String d s' => negb (Ascii.eqb d c) && lacks c s'
  end.

(** A continuation that cannot succeed on a text without the code unit. *)
Definition needs (c : ascii) (k : RegExp.continuation) : Prop :=
  forall index rest captures,
    lacks c rest = true -> k index rest captures = None.

(** * Properties *)

(** ** Strings *)

Lemma append_nil_l (s : string) : EmptyString +:+ s = s.
Proof. reflexivity. Qed.

Lemma append_cons (c : ascii) (s t : string) :
  String c s +:+ t = String c (s +:+ t).
Proof. reflexivity. Qed.

Lemma append_nil_r (s : string) : s +:+ EmptyString = s.
Proof. induction s as [|c s IH]; [done|]. by rewrite append_cons, IH. Qed.

Lemma append_assoc (s t u : string) : (s +:+ t) +:+ u = s +:+ (t +:+ u).
Proof. induction s as [|c s IH]; [done|]. by rewrite !append_cons, IH. Qed.









(** ** The transforms compute the parser's decision *)

Local Arguments describe : simpl never.

Ltac run :=
  unfold bind, tryCatch, ret, throw, alloc, appendDescriptive, consoleError,
    load, destructure, callTrim, iterate in *;
  simpl in *.

Lemma timesLoop_fault {R} (items : list jsval) (w : world R) :
  timesLoop items w =
  (w, match timesFault items with Some e => Throw e | None => Return tt end).
Proof.
  induction items as [|item rest IH]; [done|].
  simpl. destruct item; run; try done; by destruct (_ || _).
Qed.

Lemma insertsLoop_fault {R} newURL (items : list jsval) (w : world R) :
  insertsLoop newURL items w =
  (w, match insertsFault newURL items with
      | Some e => Throw e
      | None => Return tt
      end).
Proof.
  induction items as [|item rest IH]; [done|].
  simpl. destruct item; run; try done;
    destruct (truthy _); run; try done; by destruct (newURL _).
Qed.

Lemma eventsTransform_resolve load id text last (w : world Event.t) :
  Index.eventsTransform load id text last w =
  resolve (parseEvent (load text)) (Some id) last w.
Proof.
  unfold Index.eventsTransform, Index.catchBlock, parseEvent, resolve,
    failed, emitted, merged.
  run. destruct (load text) as [doc|reason mark]; [|done].
  destruct doc as [| |s|items|members|f]; run; try done.
  destruct (orDefault (member "desc" members) _) as [| |raw| | |]; try done.
  destruct (truthy (member "title" members));
    destruct (nonEmpty (trim raw)) eqn:Hd; simpl; rewrite ?Hd; try done;
    try (by destruct last).
  all: match goal with
       | |- context [orDefault (member "times" ?m) ?d] =>
           destruct (orDefault (member "times" m) d); simpl; try done;
           rewrite timesLoop_fault; by destruct (timesFault _)
       end.
Qed.

Lemma announcementsTransform_resolve load id text last
    (w : world Announcement.t) :
  Successor.announcementsTransform load id text last w =
  resolve (parseAnnouncement (load text)) (Some id) last w.
Proof.
  unfold Successor.announcementsTransform, Successor.handleContinuation,
    Successor.prepare, parseAnnouncement, resolve, failed, emitted, merged.
  run. destruct (load text) as [doc|reason mark]; [|done].
  destruct doc as [| |s|items|members|f]; run; try done.
  destruct (orDefault (member "desc" members) _) as [| |raw| | |]; try done.
  destruct (truthy (member "title" members));
    destruct (nonEmpty (trim raw)) eqn:Hd; simpl; rewrite ?Hd; try done;
    try (by destruct last).
Qed.

Lemma bulletinsTransform_resolve load newURL id text
    (w : world Bulletin.t) :
  Index.bulletinsTransform load newURL id text w =
  match parseBulletin newURL (load text) with
  | inr record => emitted record None w
  | inl e => failed e (Some id) w
  end.
Proof.
  unfold Index.bulletinsTransform, Index.catchBlock, parseBulletin,
    failed, emitted.
  run. destruct (load text) as [doc|reason mark]; [|done].
  destruct doc as [| |s|items|members|f]; run; try done.
  destruct (truthy (member "date" members)); simpl; try done.
  destruct (truthy (member "title" members)); simpl; try done.
  destruct (newURL (member "link" members)); simpl; try done.
  destruct (orDefault (member "inserts" members) _); simpl; try done;
    rewrite insertsLoop_fault; by destruct (insertsFault _ _).
Qed.


Lemma successor_bulletinsTransform_resolve load newURL id text
    (w : world Bulletin.t) :
  Successor.bulletinsTransform load newURL id text w =
  match parseBulletin newURL (load text) with
  | inr record => emitted record None w
  | inl e => failed e None w
  end.
Proof.
  unfold Successor.bulletinsTransform, Successor.prepare, parseBulletin,
    failed, emitted.
  run. destruct (load text) as [doc|reason mark]; [|done].
  destruct doc as [| |s|items|members|f]; run; try done.
  destruct (truthy (member "date" members)); simpl; try done.
  destruct (truthy (member "title" members)); simpl; try done.
  destruct (newURL (member "link" members)); simpl; try done.
  destruct (orDefault (member "inserts" members) _); simpl; try done;
    rewrite insertsLoop_fault; by destruct (insertsFault _ _).
Qed.

(** ** Transforms return *)

Lemma resolve_returns {R} `{Descriptive R} (p : parsed R) tweetId last
    (w : world R) :
  exists w' r, resolve p tweetId last w = (w', Return r).
Proof. destruct p as [record|d|e]; [|destruct last|]; simpl; eauto. Qed.

Lemma index_eventsTransform_returns load :
  returns (Index.eventsTransform load).
Proof. intros id text last w. rewrite eventsTransform_resolve. apply resolve_returns. Qed.

Lemma index_bulletinsTransform_returns load newURL :
  returns (fun tweetId tweetText _ =>
             Index.bulletinsTransform load newURL tweetId tweetText).
Proof.
  intros id text last w. rewrite bulletinsTransform_resolve.
  destruct (parseBulletin _ _); simpl; eauto.
Qed.

Lemma successor_announcementsTransform_returns load :
  returns (Successor.announcementsTransform load).
Proof.
  intros id text last w. rewrite announcementsTransform_resolve.
  apply resolve_returns.
Qed.

Lemma successor_bulletinsTransform_returns load newURL :
  returns (fun tweetId tweetText _ =>
             Successor.bulletinsTransform load newURL tweetId tweetText).
Proof.
  intros id text last w. rewrite successor_bulletinsTransform_resolve.
  destruct (parseBulletin _ _); simpl; eauto.
Qed.

(** ** The loop over a timeline *)

Section LoopFacts.

Context {R : Type}.
Variable transform : string -> string -> option ref -> M R result.
Variable tweets : gmap string tweetObject.

Lemma iteration_found state tweetId post (w : world R) :
  tweets !! tweetId = Some post ->
  iteration transform tweets state tweetId w =
  match transform tweetId
                  (tweetTextExpandedLinks (full_text post) (urls post))
                  (lastNonContinuationElement state) w with
  | (w', Return r) =>
      (w', Return (Collection (push (dataset state) (element r))
                              (push (errors state) (errorDescriptor r))
                              (update (hash state) (full_text post))
                              (lastNonContinuation r)))
  | (w', Throw e) => (w', Throw e)
  end.
Proof. intros Hpost. unfold iteration. rewrite Hpost. by destruct post. Qed.

Lemma timelineLoop_app before after state (w : world R) :
  timelineLoop transform tweets (before ++ after) state w =
  match timelineLoop transform tweets before state w with
  | (w', Return state') => timelineLoop transform tweets after state' w'
  | (w', Throw e) => (w', Throw e)
  end.
Proof.
  revert state w. induction before as [|tweetId rest IH]; intros state w;
    [done|].
  simpl. unfold bind.
  destruct (iteration transform tweets state tweetId w) as [w' [state'|e]];
    [apply IH|done].
Qed.

Hypothesis transform_returns : returns transform.

Lemma iteration_returns state tweetId post (w : world R) :
  tweets !! tweetId = Some post ->
  exists w' r,
    transform tweetId (tweetTextExpandedLinks (full_text post) (urls post))
              (lastNonContinuationElement state) w = (w', Return r) /\
    iteration transform tweets state tweetId w =
    (w', Return (Collection (push (dataset state) (element r))
                            (push (errors state) (errorDescriptor r))
                            (update (hash state) (full_text post))
                            (lastNonContinuation r))).
Proof.
  intros Hpost. rewrite (iteration_found _ _ _ _ Hpost).
  destruct (transform_returns tweetId
              (tweetTextExpandedLinks (full_text post) (urls post))
              (lastNonContinuationElement state) w) as (w' & r & Hr).
  exists w', r. by rewrite Hr.
Qed.

Lemma timelineLoop_hash timeline posts state (w : world R) :
  resolved tweets timeline posts ->
  exists w' state',
    timelineLoop transform tweets timeline state w = (w', Return state') /\
    hash state' = hash state ++ map full_text posts.
Proof.
  intros Hres. revert state w.
  induction Hres as [|tweetId post timeline posts Hpost _ IH];
    intros state w.
  - exists w, state. by rewrite app_nil_r.
  - destruct (iteration_returns state tweetId post w Hpost)
      as (w1 & r & _ & Hstep).
    simpl. unfold bind. rewrite Hstep.
    destruct (IH (Collection (push (dataset state) (element r))
                             (push (errors state) (errorDescriptor r))
                             (update (hash state) (full_text post))
                             (lastNonContinuation r)) w1)
      as (w' & state' & Hloop & Hhash).
    exists w', state'. split; [done|].
    rewrite Hhash. simpl. unfold update. by rewrite <- app_assoc.
Qed.

End LoopFacts.

Lemma collectionLoop_hash {R}
    (transform : string -> string -> option ref -> M R result)
    tweets timeline posts out :
  returns transform ->
  resolved (default ∅ tweets) (default [] timeline) posts ->
  exists out' c,
    collectionLoop transform timeline tweets out = (out', Return c) /\
    timelineHash c = map full_text posts.
Proof.
  intros Hret Hres. unfold collectionLoop.
  destruct (timelineLoop_hash transform (default ∅ tweets) Hret
              (default [] timeline) posts
              (Collection [] [] createHash None) (World [] out) Hres)
    as (w' & state' & -> & Hhash).
  eauto.
Qed.

(** ** The examples *)

Lemma sample_resolved : resolved sampleTweets sampleTimeline samplePosts.
Proof. repeat constructor. Qed.

(** The spec's scenario of a primary followed by a continuation, then a
    malformed post and a continuation that finds no primary. *)
Example sample_collection :
  collectionLoop (Index.eventsTransform sampleYaml)
                 (Some sampleTimeline) (Some sampleTweets) [] =
  ([ console_error
       [ArgDescriptor
          (describe (YAMLException
                       "unexpected end of the stream within a flow collection"
                       (Some {| position := 8; line := 1; column := 0 |}))
                    (Some "13"))];
     console_error
       [ArgDescriptor
          (describe (Error (Message "Continuation tweet with no primary"))
                    (Some "14"))] ],
   Return
     (Collected
        [ Event.mk (VString "A") VUndefined VUndefined VUndefined (VArray [])
                   ("see https://example.org/x" +:+ LF +:+ LF +:+ "world") ]
        [ describe (YAMLException
                      "unexpected end of the stream within a flow collection"
                      (Some {| position := 8; line := 1; column := 0 |}))
                   (Some "13");
          describe (Error (Message "Continuation tweet with no primary"))
                   (Some "14") ]
        [ "title: A" +:+ LF +:+ "desc: see t.co/x"; "desc: world";
          "title: ["; "desc: orphan" ])).
Proof. vm_compute. reflexivity. Qed.

(** [replace] with a string pattern touches the first occurrence only, and
    expands the [$] patterns of the replacement. *)
Example replace_first_only :
  replace "a-b-a" "a" "X" = "X-b-a".
Proof. reflexivity. Qed.

Example replace_dollar_patterns :
  replace "see t.co/x now" "t.co/x" "u?a=$&b=$$" = "see u?a=t.co/xb=$ now".
Proof. reflexivity. Qed.

Example trim_both_ends :
  trim (" " +:+ LF +:+ "hello world " +:+ LF) = "hello world".
Proof. reflexivity. Qed.

(** The spec's scenario: posts [title: A / desc: hello] and [desc: world]
    give one record, with descriptive text [hello], a blank line,
    [world]. *)
Example primary_then_continuation :
  collectionLoop (Index.eventsTransform sampleYaml) (Some ["1"; "2"])
    (Some (list_to_map
             [("1", post ("title: A" +:+ LF +:+ "desc: hello"));
              ("2", post "desc: world")]))
    [] =
  ([], Return (Collected
                 [ Event.mk (VString "A") VUndefined VUndefined VUndefined
                            (VArray [])
                            ("hello" +:+ LF +:+ LF +:+ "world") ]
                 []
                 [ "title: A" +:+ LF +:+ "desc: hello"; "desc: world" ])).
Proof. vm_compute. reflexivity. Qed.

(** The spec's scenario: a bulletin with [link: not-a-url] gives one
    [Invalid structure] error and no record. *)
Example bulletin_with_bad_link :
  collectionLoop
    (fun tweetId tweetText _ =>
       Index.bulletinsTransform sampleYaml sampleURL tweetId tweetText)
    (Some ["21"])
    (Some (list_to_map
             [("21", post ("date: May 31" +:+ LF +:+ "title: C" +:+ LF +:+
                           "link: not-a-url"))]))
    [] =
  ([ console_error
       [ArgDescriptor
          (Descriptor.mk "Invalid structure" "TypeError"
             (Message "Bulletin link missing or invalid") None
             (Some "21"))] ],
   Return (Collected []
             [ Descriptor.mk "Invalid structure" "TypeError"
                 (Message "Bulletin link missing or invalid") None
                 (Some "21") ]
             [ "date: May 31" +:+ LF +:+ "title: C" +:+ LF +:+
               "link: not-a-url" ])).
Proof. vm_compute. reflexivity. Qed.

(** An empty document is [undefined]: destructuring it throws the engine's
    [TypeError], which the catch block files under [Invalid structure]. *)
Example empty_document :
  Index.eventsTransform sampleYaml "1" EmptyString None (World [] []) =
  failed (TypeError (EngineMessage NotDestructurable)) (Some "1")
         (World [] []).
Proof. reflexivity. Qed.

(** ** C5: one update of the hash per post, with the raw text *)

(** C5.  For every timeline whose ids name tweets of the lookup table, and
    for every transform (whatever it makes of each post: a record, a
    continuation, an error), the loop runs to its end and leaves in the hash
    exactly the raw [full_text] of each post of the timeline, one chunk per
    post, in timeline order, after what the hash held before; the text with
    links expanded never reaches the hash. *)
Theorem hash_updated_once_per_post {R}
    (transform : string -> string -> option ref -> M R result)
    (tweets : gmap string tweetObject) (timeline : list string)
    (posts : list tweetObject) (state : collection) (w : world R) :
  returns transform ->
  resolved tweets timeline posts ->
  (exists w' state',
     timelineLoop transform tweets timeline state w = (w', Return state') /\
     hash state' = hash state ++ map full_text posts) /\
  (forall out, exists out' c,
     collectionLoop transform (Some timeline) (Some tweets) out =
     (out', Return c) /\
     timelineHash c = map full_text posts).
Proof.
  intros Hret Hres. split.
  - by apply timelineLoop_hash.
  - intros out. by apply collectionLoop_hash.
Qed.

(** The four posts of the examples: a record, a merge and two errors, and
    four chunks in the hash. *)
Lemma hash_updated_once_per_post_witness :
  (exists w' state',
     timelineLoop (Index.eventsTransform sampleYaml) sampleTweets
                  sampleTimeline (Collection [] [] createHash None)
                  (World [] []) = (w', Return state') /\
     hash state' = createHash ++ map full_text samplePosts) /\
  (forall out, exists out' c,
     collectionLoop (Index.eventsTransform sampleYaml)
                    (Some sampleTimeline) (Some sampleTweets) out =
     (out', Return c) /\
     timelineHash c = map full_text samplePosts).
Proof.
  apply (hash_updated_once_per_post (Index.eventsTransform sampleYaml)
           sampleTweets sampleTimeline samplePosts
           (Collection [] [] createHash None) (World [] [])).
  - apply index_eventsTransform_returns.
  - apply sample_resolved.
Defined.

(** ** C1: what the digest tells apart *)

Lemma computedDigest_concat {R} md5
    (transform : string -> string -> option ref -> M R result)
    timeline tweets posts :
  returns transform ->
  resolved tweets timeline posts ->
  computedDigest md5 transform timeline tweets =
  Some (md5 (String.concat EmptyString (map full_text posts))).
Proof.
  intros Hret Hres. unfold computedDigest.
  destruct (collectionLoop_hash transform (Some tweets) (Some timeline)
              posts [] Hret Hres) as (out' & c & -> & Hhash).
  unfold digest. by rewrite Hhash.
Qed.

(** C1, as stated, fails: two runs over a collection of two posts, the
    second with the texts [ab], [c] edited to [a], [bc], and two runs with
    the posts [ab], [abab] in either order, read different sequences of raw
    texts and end with the same digest, whatever the decoder makes of the
    texts and whatever function MD5 is. *)
Lemma digest_misses_some_differences :
  map full_text [post "ab"; post "c"] <> map full_text [post "a"; post "bc"] /\
  map full_text [post "ab"; post "abab"] <>
    map full_text [post "abab"; post "ab"] /\
  forall (load : string -> loaded) (md5 : string -> string),
    (computedDigest md5 (Index.eventsTransform load) ["1"; "2"]
       (list_to_map [("1", post "ab"); ("2", post "c")]) =
     Some (md5 "abc") /\
     computedDigest md5 (Index.eventsTransform load) ["1"; "2"]
       (list_to_map [("1", post "a"); ("2", post "bc")]) =
     Some (md5 "abc")) /\
    (computedDigest md5 (Index.eventsTransform load) ["1"; "2"]
       (list_to_map [("1", post "ab"); ("2", post "abab")]) =
     Some (md5 "ababab") /\
     computedDigest md5 (Index.eventsTransform load) ["2"; "1"]
       (list_to_map [("1", post "ab"); ("2", post "abab")]) =
     Some (md5 "ababab")).
Proof.
  split; [done|]. split; [done|]. intros load md5.
  pose proof (index_eventsTransform_returns load) as Hret.
  repeat split.
  - rewrite (computedDigest_concat md5 _ _ _ [post "ab"; post "c"] Hret);
      [done|repeat constructor].
  - rewrite (computedDigest_concat md5 _ _ _ [post "a"; post "bc"] Hret);
      [done|repeat constructor].
  - rewrite (computedDigest_concat md5 _ _ _ [post "ab"; post "abab"] Hret);
      [done|repeat constructor].
  - rewrite (computedDigest_concat md5 _ _ _ [post "abab"; post "ab"] Hret);
      [done|repeat constructor].
Qed.

(** C1, amended.  For every collection the finalized digest is determined
    solely by the sequence of raw post texts, through their concatenation
    in timeline order: it is the MD5 of that concatenation, whatever the
    transform makes of each post.  Two runs that read identical sequences
    (including posts that fail to parse) end with identical digests, and so
    do two runs whose sequences differ but concatenate to the same text. *)
Theorem digest_is_md5_of_concatenation {R R'}
    (md5 : string -> string)
    (transform : string -> string -> option ref -> M R result)
    (transform' : string -> string -> option ref -> M R' result)
    (timeline timeline' : list string)
    (tweets tweets' : gmap string tweetObject)
    (posts posts' : list tweetObject) (out out' : list consoleCall) :
  returns transform -> returns transform' ->
  resolved tweets timeline posts -> resolved tweets' timeline' posts' ->
  exists o c o' c',
    collectionLoop transform (Some timeline) (Some tweets) out =
      (o, Return c) /\
    collectionLoop transform' (Some timeline') (Some tweets') out' =
      (o', Return c') /\
    digest md5 (timelineHash c) =
      md5 (String.concat EmptyString (map full_text posts)) /\
    digest md5 (timelineHash c') =
      md5 (String.concat EmptyString (map full_text posts')) /\
    (map full_text posts = map full_text posts' ->
     digest md5 (timelineHash c) = digest md5 (timelineHash c')) /\
    (String.concat EmptyString (map full_text posts) =
     String.concat EmptyString (map full_text posts') ->
     digest md5 (timelineHash c) = digest md5 (timelineHash c')).
Proof.
  intros Hret Hret' Hres Hres'.
  destruct (collectionLoop_hash transform (Some tweets) (Some timeline)
              posts out Hret Hres) as (o & c & Hrun & Hhash).
  destruct (collectionLoop_hash transform' (Some tweets') (Some timeline')
              posts' out' Hret' Hres') as (o' & c' & Hrun' & Hhash').
  exists o, c, o', c'. unfold digest. rewrite Hhash, Hhash'.
  repeat split; try done; by intros ->.
Qed.

(** The posts of the examples read as events and read as bulletins: the
    same digest. *)
Lemma digest_is_md5_of_concatenation_witness :
  exists o c o' c',
    collectionLoop (Index.eventsTransform sampleYaml)
                   (Some sampleTimeline) (Some sampleTweets) [] =
      (o, Return c) /\
    collectionLoop
      (fun tweetId tweetText _ =>
         Index.bulletinsTransform sampleYaml sampleURL tweetId tweetText)
      (Some sampleTimeline) (Some sampleTweets) [] = (o', Return c') /\
    digest sampleDigest (timelineHash c) =
      sampleDigest (String.concat EmptyString (map full_text samplePosts)) /\
    digest sampleDigest (timelineHash c') =
      sampleDigest (String.concat EmptyString (map full_text samplePosts)) /\
    (map full_text samplePosts = map full_text samplePosts ->
     digest sampleDigest (timelineHash c) =
     digest sampleDigest (timelineHash c')) /\
    (String.concat EmptyString (map full_text samplePosts) =
     String.concat EmptyString (map full_text samplePosts) ->
     digest sampleDigest (timelineHash c) =
     digest sampleDigest (timelineHash c')).
Proof.
  apply (digest_is_md5_of_concatenation sampleDigest
           (Index.eventsTransform sampleYaml)
           (fun tweetId tweetText _ =>
              Index.bulletinsTransform sampleYaml sampleURL tweetId tweetText)
           sampleTimeline sampleTimeline sampleTweets sampleTweets
           samplePosts samplePosts [] []).
  - apply index_eventsTransform_returns.
  - apply index_bulletinsTransform_returns.
  - apply sample_resolved.
  - apply sample_resolved.
Defined.

(** ** C2: what link expansion replaces *)

Lemma append_length (s t : string) :
  String.length (s +:+ t) = String.length s + String.length t.
Proof. induction s as [|c s IH]; [done|]. rewrite append_cons. simpl. by rewrite IH. Qed.








(** ** Continuations *)

Lemma nonEmpty_true (s : string) : s <> EmptyString -> nonEmpty s = true.
Proof.
  intros Hs. unfold nonEmpty. by destruct (String.eqb_spec s EmptyString).
Qed.

Lemma parseEvent_candidate (doc : jsval) (descriptive : string) :
  continuationCandidate doc descriptive ->
  parseEvent (Document doc) = Continuation descriptive.
Proof.
  intros (Htitle & raw & Hdesc & -> & Hne). unfold parseEvent.
  destruct (nullish doc) eqn:Hnull.
  { destruct doc; try discriminate; simpl in Hdesc; injection Hdesc as <-;
      by destruct Hne. }
  by rewrite Hdesc, Htitle, (nonEmpty_true _ Hne).
Qed.

Lemma parseAnnouncement_candidate (doc : jsval) (descriptive : string) :
  continuationCandidate doc descriptive ->
  parseAnnouncement (Document doc) = Continuation descriptive.
Proof.
  intros (Htitle & raw & Hdesc & -> & Hne). unfold parseAnnouncement.
  destruct (nullish doc) eqn:Hnull.
  { destruct doc; try discriminate; simpl in Hdesc; injection Hdesc as <-;
      by destruct Hne. }
  by rewrite Hdesc, Htitle, (nonEmpty_true _ Hne).
Qed.

(** C3, as stated, fails: a primary without descriptive text followed by a
    continuation ends with the blank-line separator in front of the
    continuation's text, in the collection's record and in
    [handleContinuation] alike. *)
Lemma separator_after_empty_primary :
  collectionLoop (Index.eventsTransform sampleYaml) (Some ["1"; "2"])
    (Some (list_to_map [("1", post "title: A"); ("2", post "desc: world")]))
    [] =
  ([], Return (Collected
                 [ Event.mk (VString "A") VUndefined VUndefined VUndefined
                            (VArray []) (LF +:+ LF +:+ "world") ]
                 [] [ "title: A"; "desc: world" ])) /\
  Successor.handleContinuation (Some 0) "world"
    (World [ Event.mk (VString "A") VUndefined VUndefined VUndefined
                      (VArray []) EmptyString ] []) =
  (World [ Event.mk (VString "A") VUndefined VUndefined VUndefined
                    (VArray []) (LF +:+ LF +:+ "world") ] [],
   Return (Result None (Some 0) None)) /\
  LF +:+ LF +:+ "world" <> separatedWhenBothNonEmpty EmptyString "world".
Proof.
  split; [vm_compute; reflexivity|]. split; [vm_compute; reflexivity|].
  vm_compute. discriminate.
Qed.

(** C3, amended.  For every continuation post merged into a preceding
    primary record, the continuation's descriptive text is appended to the
    primary's descriptive text after a blank-line separator, whether the
    primary's existing descriptive text is empty or not: the separator is
    there exactly when the continuation's descriptive text is non-empty,
    which it is for every continuation the transforms merge; every other
    record is left as it was and no new record is returned. *)
Theorem continuation_appends_after_blank_line
    (load : string -> loaded) (tweetId tweetText : string) (doc : jsval)
    (descriptive : string) (last : ref) (primary : Event.t)
    (w : world Event.t) :
  load tweetText = Document doc ->
  continuationCandidate doc descriptive ->
  heap w !! last = Some primary ->
  (exists w',
     Index.eventsTransform load tweetId tweetText (Some last) w =
       (w', Return (Result None (Some last) None)) /\
     Successor.eventsTransform load tweetId tweetText (Some last) w =
       (w', Return (Result None (Some last) None)) /\
     heap w' !! last =
       Some (withDescriptive
               (Event.descriptive primary +:+ LF +:+ LF +:+ descriptive)
               primary) /\
     (forall other, other <> last -> heap w' !! other = heap w !! other) /\
     console w' = console w) /\
  (forall text,
   exists w',
     Successor.handleContinuation (Some last) text w =
       (w', Return (Result None (Some last) None)) /\
     heap w' !! last =
       Some (withDescriptive
               (Event.descriptive primary +:+
                  (if nonEmpty text then LF +:+ LF else EmptyString) +:+
                  text)
               primary) /\
     (forall other, other <> last -> heap w' !! other = heap w !! other) /\
     console w' = console w).
Proof.
  intros Hload Hcand Hlast. split.
  - pose proof (eventsTransform_resolve load tweetId tweetText (Some last) w)
      as Hrun.
    rewrite Hload, (parseEvent_candidate _ _ Hcand) in Hrun.
    destruct Hcand as (_ & raw & _ & _ & Hne).
    unfold resolve, merged in Hrun. rewrite (nonEmpty_true _ Hne) in Hrun.
    eexists. split; [exact Hrun|]. split; [exact Hrun|].
    simpl. split; [|split; [|done]].
    + by rewrite list_lookup_alter_eq, Hlast, append_assoc.
    + intros other Hother. by rewrite list_lookup_alter_ne.
  - intros text. unfold Successor.handleContinuation. run.
    eexists. split; [done|]. simpl. split; [|split; [|done]].
    + by rewrite list_lookup_alter_eq, Hlast.
    + intros other Hother. by rewrite list_lookup_alter_ne.
Qed.

(** A continuation [world] after a primary whose text is [hello]. *)
Lemma continuation_appends_after_blank_line_witness :
  (exists w',
     Index.eventsTransform sampleYaml "2" "desc: world" (Some 0)
       (World [ Event.mk (VString "A") VUndefined VUndefined VUndefined
                         (VArray []) "hello" ] []) =
       (w', Return (Result None (Some 0) None)) /\
     Successor.eventsTransform sampleYaml "2" "desc: world" (Some 0)
       (World [ Event.mk (VString "A") VUndefined VUndefined VUndefined
                         (VArray []) "hello" ] []) =
       (w', Return (Result None (Some 0) None)) /\
     heap w' !! 0 =
       Some (Event.mk (VString "A") VUndefined VUndefined VUndefined
                      (VArray []) ("hello" +:+ LF +:+ LF +:+ "world")) /\
     (forall other, other <> 0 ->
        heap w' !! other =
        [ Event.mk (VString "A") VUndefined VUndefined VUndefined
                   (VArray []) "hello" ] !! other) /\
     console w' = []) /\
  (forall text,
   exists w',
     Successor.handleContinuation (Some 0) text
       (World [ Event.mk (VString "A") VUndefined VUndefined VUndefined
                         (VArray []) "hello" ] []) =
       (w', Return (Result None (Some 0) None)) /\
     heap w' !! 0 =
       Some (Event.mk (VString "A") VUndefined VUndefined VUndefined
               (VArray [])
               ("hello" +:+
                  (if nonEmpty text then LF +:+ LF else EmptyString) +:+
                  text)) /\
     (forall other, other <> 0 ->
        heap w' !! other =
        [ Event.mk (VString "A") VUndefined VUndefined VUndefined
                   (VArray []) "hello" ] !! other) /\
     console w' = []).
Proof.
  apply (continuation_appends_after_blank_line sampleYaml "2" "desc: world"
           (VObject [("desc", VString "world")]) "world" 0
           (Event.mk (VString "A") VUndefined VUndefined VUndefined
                     (VArray []) "hello")
           (World [ Event.mk (VString "A") VUndefined VUndefined VUndefined
                             (VArray []) "hello" ] [])).
  - reflexivity.
  - split; [reflexivity|]. exists "world".
    split; [reflexivity|split; [reflexivity|done]].
  - reflexivity.
Defined.

(** ** C4: a continuation without a primary *)

Lemma eventsTransform_orphan load tweetId tweetText doc descriptive
    (w : world Event.t) :
  load tweetText = Document doc ->
  continuationCandidate doc descriptive ->
  Index.eventsTransform load tweetId tweetText None w =
  (World (heap w)
         (console w ++ [console_error [ArgDescriptor (noPrimary tweetId)]]),
   Return (Result None None (Some (noPrimary tweetId)))).
Proof.
  intros Hload Hcand.
  by rewrite eventsTransform_resolve, Hload, (parseEvent_candidate _ _ Hcand).
Qed.

(** C4.  For every post whose decoded document is a continuation candidate
    (no title, non-empty descriptive text), processed when the carried
    last-primary pointer is none: the transform returns the descriptor of
    [Continuation tweet with no primary] (category [Unexpected error]) and
    no record, allocates nothing and changes no record; the loop appends the
    descriptor to the errors and nothing to the dataset, and the pointer
    stays none.  [handleContinuation] throws that error on every text. *)
Theorem orphan_continuation_is_an_error
    (load : string -> loaded) (tweets : gmap string tweetObject)
    (tweetId : string) (tweet : tweetObject) (doc : jsval)
    (descriptive : string) (state : collection) (w : world Event.t) :
  tweets !! tweetId = Some tweet ->
  load (tweetTextExpandedLinks (full_text tweet) (urls tweet)) = Document doc ->
  continuationCandidate doc descriptive ->
  lastNonContinuationElement state = None ->
  Index.eventsTransform load tweetId
    (tweetTextExpandedLinks (full_text tweet) (urls tweet)) None w =
    (World (heap w)
           (console w ++ [console_error [ArgDescriptor (noPrimary tweetId)]]),
     Return (Result None None (Some (noPrimary tweetId)))) /\
  iteration (Index.eventsTransform load) tweets state tweetId w =
    (World (heap w)
           (console w ++ [console_error [ArgDescriptor (noPrimary tweetId)]]),
     Return (Collection (dataset state)
                        (errors state ++ [noPrimary tweetId])
                        (hash state ++ [full_text tweet])
                        None)) /\
  (forall text,
     Successor.handleContinuation None text w =
     (w, Throw (Error (Message "Continuation tweet with no primary")))).
Proof.
  intros Htweet Hload Hcand Hlast.
  pose proof (eventsTransform_orphan load tweetId _ doc descriptive w
                Hload Hcand) as Hrun.
  split; [exact Hrun|]. split; [|done].
  by rewrite (iteration_found _ _ _ _ _ _ Htweet), Hlast, Hrun.
Qed.

(** The last post of the examples, at the start of a collection. *)
Lemma orphan_continuation_is_an_error_witness :
  Index.eventsTransform sampleYaml "14" "desc: orphan" None (World [] []) =
    (World [] [console_error [ArgDescriptor (noPrimary "14")]],
     Return (Result None None (Some (noPrimary "14")))) /\
  iteration (Index.eventsTransform sampleYaml) sampleTweets
            (Collection [] [] createHash None) "14" (World [] []) =
    (World [] [console_error [ArgDescriptor (noPrimary "14")]],
     Return (Collection [] [noPrimary "14"] ["desc: orphan"] None)) /\
  (forall text,
     Successor.handleContinuation None text (World (R := Event.t) [] []) =
     (World [] [],
      Throw (Error (Message "Continuation tweet with no primary")))).
Proof.
  apply (orphan_continuation_is_an_error sampleYaml sampleTweets "14"
           {| full_text := "desc: orphan"; urls := [] |}
           (VObject [("desc", VString "orphan")]) "orphan"
           (Collection [] [] createHash None) (World [] [])).
  - reflexivity.
  - reflexivity.
  - split; [reflexivity|]. exists "orphan".
    split; [reflexivity|split; [reflexivity|done]].
  - reflexivity.
Defined.

(** ** C10: a record or an error, never both *)

Lemma resolve_shape {R} `{Descriptive R} (p : parsed R) tweetId last
    (w : world R) :
  exists w' r,
    resolve p tweetId last w = (w', Return r) /\
    ((exists e, r = Result (Some e) (Some e) None) \/
     (exists l, last = Some l /\ r = Result None (Some l) None) \/
     (exists d, r = Result None None (Some d))).
Proof.
  destruct p as [record|d|e]; [|destruct last as [l|]|]; simpl;
    do 2 eexists; (split; [reflexivity|]); eauto 6.
Qed.

Lemma bulletinsTransform_shape load newURL tweetId tweetText
    (w : world Bulletin.t) :
  exists w' r,
    Index.bulletinsTransform load newURL tweetId tweetText w =
      (w', Return r) /\
    ((exists e, r = Result (Some e) None None) \/
     (exists d, r = Result None None (Some d))).
Proof.
  rewrite bulletinsTransform_resolve.
  destruct (parseBulletin _ _); simpl;
    do 2 eexists; (split; [reflexivity|]); eauto.
Qed.

(** C10.  For every post, each transform returns exactly one of: a new
    record with no error (the record is also the new last-primary for an
    event, and a bulletin leaves none), a continuation merge with neither a
    new record nor an error (only an event, only when a last-primary was
    passed, which is returned), or an error descriptor with no record and
    no last-primary.  Hence every pass of the loop that returns leaves the
    dataset and the errors as they were (a merge), or appends one element
    to the dataset and none to the errors, or one to the errors and none to
    the dataset. *)
Theorem record_or_error_never_both
    (load : string -> loaded) (newURL : jsval -> bool)
    (tweetId tweetText : string) (last : option ref) :
  (forall w : world Event.t, exists w' r,
     Index.eventsTransform load tweetId tweetText last w = (w', Return r) /\
     ((exists e, r = Result (Some e) (Some e) None) \/
      (exists l, last = Some l /\ r = Result None (Some l) None) \/
      (exists d, r = Result None None (Some d)))) /\
  (forall w : world Bulletin.t, exists w' r,
     Index.bulletinsTransform load newURL tweetId tweetText w =
       (w', Return r) /\
     ((exists e, r = Result (Some e) None None) \/
      (exists d, r = Result None None (Some d)))) /\
  (forall tweets state (w : world Event.t),
     match iteration (Index.eventsTransform load) tweets state tweetId w with
     | (_, Return state') =>
         (dataset state' = dataset state /\ errors state' = errors state) \/
         (exists e, dataset state' = dataset state ++ [e] /\
                    errors state' = errors state) \/
         (exists d, dataset state' = dataset state /\
                    errors state' = errors state ++ [d])
     | (_, Throw _) => tweets !! tweetId = None
     end) /\
  (forall tweets state (w : world Bulletin.t),
     match iteration
             (fun tweetId tweetText _ =>
                Index.bulletinsTransform load newURL tweetId tweetText)
             tweets state tweetId w with
     | (_, Return state') =>
         (exists e, dataset state' = dataset state ++ [e] /\
                    errors state' = errors state) \/
         (exists d, dataset state' = dataset state /\
                    errors state' = errors state ++ [d])
     | (_, Throw _) => tweets !! tweetId = None
     end).
Proof.
  split; [|split; [|split]].
  - intros w. rewrite eventsTransform_resolve. apply resolve_shape.
  - intros w. apply bulletinsTransform_shape.
  - intros tweets state w. unfold iteration.
    destruct (tweets !! tweetId) as [[text links]|]; [|done].
    unfold bind. rewrite eventsTransform_resolve.
    destruct (resolve_shape (parseEvent (load (tweetTextExpandedLinks text links)))
                (Some tweetId) (lastNonContinuationElement state) w)
      as (w' & r & -> & [[e ->]|[(l & _ & ->)|[d ->]]]); simpl; eauto.
  - intros tweets state w. unfold iteration.
    destruct (tweets !! tweetId) as [[text links]|]; [|done].
    unfold bind.
    destruct (bulletinsTransform_shape load newURL tweetId
                (tweetTextExpandedLinks text links) w)
      as (w' & r & -> & [[e ->]|[d ->]]); simpl; eauto.
Qed.

(** ** What the parser rejects *)

Lemma timesFault_TypeError items e :
  timesFault items = Some e -> exists msg, e = TypeError msg.
Proof.
  induction items as [|item rest IH]; [done|]. simpl.
  destruct (nullish item); [intros [= <-]; eauto|].
  destruct (_ || _); [intros [= <-]; eauto|done].
Qed.

Lemma insertsFault_TypeError newURL items e :
  insertsFault newURL items = Some e -> exists msg, e = TypeError msg.
Proof.
  induction items as [|item rest IH]; [done|]. simpl.
  destruct (nullish item); [intros [= <-]; eauto|].
  destruct (negb (truthy _)); [intros [= <-]; eauto|].
  destruct (negb (newURL _)); [intros [= <-]; eauto|done].
Qed.

Lemma timesFault_entry items item :
  item ∈ items ->
  truthy (get item "day") = false \/ truthy (get item "time") = false ->
  exists msg, timesFault items = Some (TypeError msg).
Proof.
  intros Hin Hbad. induction Hin as [item rest|item other rest Hin IH]; simpl.
  - destruct (nullish item); [eauto|].
    destruct Hbad as [-> | ->]; simpl; rewrite ?orb_true_r; eauto.
  - destruct (nullish other); [eauto|]. destruct (_ || _); eauto.
Qed.

Lemma insertsFault_entry newURL items item :
  item ∈ items ->
  truthy (get item "title") = false \/ newURL (get item "link") = false ->
  exists msg, insertsFault newURL items = Some (TypeError msg).
Proof.
  intros Hin Hbad. induction Hin as [item rest|item other rest Hin IH]; simpl.
  - destruct (nullish item); [eauto|].
    destruct Hbad as [-> | ->]; simpl; [eauto|].
    destruct (negb (truthy _)); eauto.
  - destruct (nullish other); [eauto|].
    destruct (negb (truthy _)); [eauto|]. destruct (negb (newURL _)); eauto.
Qed.

Lemma parseEvent_invalid l e :
  parseEvent l = Invalid e ->
  (exists reason mark,
     l = Malformed reason mark /\ e = YAMLException reason mark) \/
  (exists doc msg, l = Document doc /\ e = TypeError msg).
Proof.
  destruct l as [doc|reason mark]; simpl; [|intros [= <-]; eauto].
  intros Hp. right. exists doc.
  destruct (nullish doc); [injection Hp as <-; eauto|].
  destruct (orDefault (get doc "desc") _) as [| |raw| | |];
    try (injection Hp as <-; eauto).
  destruct (negb (truthy _) && nonEmpty _); [done|].
  destruct (negb (truthy _)); [injection Hp as <-; eauto|].
  destruct (elements _) as [items|]; [|injection Hp as <-; eauto].
  destruct (timesFault items) as [e'|] eqn:Hfault; [|done].
  injection Hp as <-. destruct (timesFault_TypeError _ _ Hfault) as [msg ->].
  eauto.
Qed.

Lemma parseBulletin_invalid newURL l e :
  parseBulletin newURL l = inl e ->
  (exists reason mark,
     l = Malformed reason mark /\ e = YAMLException reason mark) \/
  (exists doc msg, l = Document doc /\ e = TypeError msg).
Proof.
  destruct l as [doc|reason mark]; simpl; [|intros [= <-]; eauto].
  intros Hp. right. exists doc.
  destruct (nullish doc); [injection Hp as <-; eauto|].
  destruct (_ || _); [injection Hp as <-; eauto|].
  destruct (negb (newURL _)); [injection Hp as <-; eauto|].
  destruct (elements _) as [items|]; [|injection Hp as <-; eauto].
  destruct (insertsFault newURL items) as [e'|] eqn:Hfault; [|done].
  injection Hp as <-.
  destruct (insertsFault_TypeError _ _ _ Hfault) as [msg ->]. eauto.
Qed.

(** Where the descriptor of an event post comes from. *)
Lemma eventsTransform_descriptor load tweetId tweetText last
    (w w' : world Event.t) r d :
  Index.eventsTransform load tweetId tweetText last w = (w', Return r) ->
  errorDescriptor r = Some d ->
  r = Result None None (Some d) /\
  ((exists reason mark,
      load tweetText = Malformed reason mark /\
      d = describe (YAMLException reason mark) (Some tweetId)) \/
   (exists doc msg,
      load tweetText = Document doc /\
      d = describe (TypeError msg) (Some tweetId)) \/
   (exists doc,
      load tweetText = Document doc /\ last = None /\
      d = noPrimary tweetId)).
Proof.
  rewrite eventsTransform_resolve. unfold resolve.
  destruct (parseEvent (load tweetText)) as [record|descriptive|e] eqn:Hp.
  - intros [= <- <-]. done.
  - destruct last as [l|]; [intros [= <- <-]; done|].
    intros [= <- <-] [= <-]. split; [done|]. right. right.
    destruct (load tweetText) as [doc|reason mark]; [eauto|done].
  - intros [= <- <-] [= <-]. split; [done|].
    destruct (parseEvent_invalid _ _ Hp)
      as [(reason & mark & -> & ->)|(doc & msg & -> & ->)]; eauto 8.
Qed.

Lemma bulletinsTransform_descriptor load newURL tweetId tweetText
    (w w' : world Bulletin.t) r d :
  Index.bulletinsTransform load newURL tweetId tweetText w = (w', Return r) ->
  errorDescriptor r = Some d ->
  r = Result None None (Some d) /\
  ((exists reason mark,
      load tweetText = Malformed reason mark /\
      d = describe (YAMLException reason mark) (Some tweetId)) \/
   (exists doc msg,
      load tweetText = Document doc /\
      d = describe (TypeError msg) (Some tweetId))).
Proof.
  rewrite bulletinsTransform_resolve.
  destruct (parseBulletin newURL (load tweetText)) as [e|record] eqn:Hp.
  - intros [= <- <-] [= <-]. split; [done|].
    destruct (parseBulletin_invalid _ _ _ Hp)
      as [(reason & mark & -> & ->)|(doc & msg & -> & ->)]; eauto 8.
  - intros [= <- <-]. done.
Qed.

(** ** C9: an error resets the last-primary pointer *)

(** C9.  Whenever a post's transform returns an error descriptor it returns
    no record and no last-primary; so after every pass of the loop that
    appended to the errors the carried pointer is none, and a continuation
    candidate that comes next gets the continuation-with-no-primary error,
    whatever the dataset already holds. *)
Theorem error_resets_last_primary
    (load : string -> loaded) (newURL : jsval -> bool) :
  (forall tweetId tweetText last (w w' : world Event.t) r,
     Index.eventsTransform load tweetId tweetText last w = (w', Return r) ->
     errorDescriptor r <> None ->
     lastNonContinuation r = None /\ element r = None) /\
  (forall tweetId tweetText (w w' : world Bulletin.t) r,
     Index.bulletinsTransform load newURL tweetId tweetText w =
       (w', Return r) ->
     errorDescriptor r <> None ->
     lastNonContinuation r = None /\ element r = None) /\
  (forall tweets state failedId nextId next doc descriptive
          (w w1 : world Event.t) state1,
     iteration (Index.eventsTransform load) tweets state failedId w =
       (w1, Return state1) ->
     errors state1 <> errors state ->
     tweets !! nextId = Some next ->
     load (tweetTextExpandedLinks (full_text next) (urls next)) =
       Document doc ->
     continuationCandidate doc descriptive ->
     lastNonContinuationElement state1 = None /\
     dataset state1 = dataset state /\
     iteration (Index.eventsTransform load) tweets state1 nextId w1 =
       (World (heap w1)
              (console w1 ++
                 [console_error [ArgDescriptor (noPrimary nextId)]]),
        Return (Collection (dataset state1)
                           (errors state1 ++ [noPrimary nextId])
                           (hash state1 ++ [full_text next])
                           None))).
Proof.
  split; [|split].
  - intros tweetId tweetText last w w' r Hrun Herr.
    destruct (errorDescriptor r) as [d|] eqn:Hd; [|done].
    by destruct (eventsTransform_descriptor _ _ _ _ _ _ _ _ Hrun Hd) as [-> _].
  - intros tweetId tweetText w w' r Hrun Herr.
    destruct (errorDescriptor r) as [d|] eqn:Hd; [|done].
    by destruct (bulletinsTransform_descriptor _ _ _ _ _ _ _ _ Hrun Hd)
      as [-> _].
  - intros tweets state failedId nextId next doc descriptive w w1 state1
      Hstep Herr Hnext Hload Hcand.
    assert (lastNonContinuationElement state1 = None /\
            dataset state1 = dataset state) as [Hlast Hdata].
    { unfold iteration in Hstep.
      destruct (tweets !! failedId) as [[text links]|]; [|done].
      unfold bind in Hstep.
      destruct (Index.eventsTransform load failedId _ _ w)
        as [w2 [r|e]] eqn:Hrun; [|done].
      injection Hstep as <- <-. simpl in *.
      destruct (errorDescriptor r) as [d|] eqn:Hd; [|done].
      by destruct (eventsTransform_descriptor _ _ _ _ _ _ _ _ Hrun Hd)
        as [-> _]. }
    split; [done|]. split; [done|].
    by rewrite (iteration_found _ _ _ _ _ _ Hnext), Hlast,
      (eventsTransform_orphan load nextId _ doc descriptive w1 Hload Hcand).
Qed.

(** The examples after their malformed third post: the fourth, a
    continuation, finds no primary although the dataset holds a record. *)
Lemma error_resets_last_primary_witness :
  lastNonContinuationElement
    (Collection [0] [sampleMalformed]
       (map full_text (take 3 samplePosts)) None) = None /\
  dataset (Collection [0] [sampleMalformed]
             (map full_text (take 3 samplePosts)) None) =
  dataset (Collection [0] [] (map full_text (take 2 samplePosts)) (Some 0)) /\
  iteration (Index.eventsTransform sampleYaml) sampleTweets
    (Collection [0] [sampleMalformed]
       (map full_text (take 3 samplePosts)) None)
    "14"
    (World [sampleEvent] [console_error [ArgDescriptor sampleMalformed]]) =
  (World [sampleEvent]
         ([console_error [ArgDescriptor sampleMalformed]] ++
            [console_error [ArgDescriptor (noPrimary "14")]]),
   Return (Collection [0]
             ([sampleMalformed] ++ [noPrimary "14"])
             (map full_text (take 3 samplePosts) ++ ["desc: orphan"])
             None)).
Proof.
  apply (proj2 (proj2 (error_resets_last_primary sampleYaml sampleURL))
           sampleTweets
           (Collection [0] [] (map full_text (take 2 samplePosts)) (Some 0))
           "13" "14" {| full_text := "desc: orphan"; urls := [] |}
           (VObject [("desc", VString "orphan")]) "orphan"
           (World [sampleEvent] [])
           (World [sampleEvent] [console_error [ArgDescriptor sampleMalformed]])
           (Collection [0] [sampleMalformed]
              (map full_text (take 3 samplePosts)) None)).
  - vm_compute. reflexivity.
  - discriminate.
  - reflexivity.
  - reflexivity.
  - split; [reflexivity|]. exists "orphan".
    split; [reflexivity|split; [reflexivity|done]].
Defined.

(** ** C6: the category of an error *)

Lemma parseEvent_title_missing doc raw :
  nullish doc = false ->
  truthy (get doc "title") = false ->
  orDefault (get doc "desc") (VString EmptyString) = VString raw ->
  trim raw = EmptyString ->
  parseEvent (Document doc) = Invalid (TypeError (Message "Title missing")).
Proof.
  intros Hnull Htitle Hdesc Htrim. unfold parseEvent.
  by rewrite Hnull, Hdesc, Htitle, Htrim.
Qed.

Lemma parseEvent_bad_entry doc items item :
  truthy (get doc "title") = true ->
  orDefault (get doc "times") (VArray []) = VArray items ->
  item ∈ items ->
  truthy (get item "day") = false \/ truthy (get item "time") = false ->
  exists msg, parseEvent (Document doc) = Invalid (TypeError msg).
Proof.
  intros Htitle Htimes Hin Hbad. unfold parseEvent.
  destruct (nullish doc); [eauto|].
  destruct (orDefault (get doc "desc") _) as [| |raw| | |]; eauto.
  rewrite Htitle, Htimes. simpl.
  destruct (timesFault_entry _ _ Hin Hbad) as [msg ->]. eauto.
Qed.

Lemma parseBulletin_bad_link newURL doc :
  newURL (get doc "link") = false ->
  exists msg, parseBulletin newURL (Document doc) = inl (TypeError msg).
Proof.
  intros Hlink. unfold parseBulletin.
  destruct (nullish doc); [eauto|]. destruct (_ || _); [eauto|].
  rewrite Hlink. simpl. eauto.
Qed.

Lemma parseBulletin_bad_insert newURL doc items item :
  orDefault (get doc "inserts") (VArray []) = VArray items ->
  item ∈ items ->
  newURL (get item "link") = false ->
  exists msg, parseBulletin newURL (Document doc) = inl (TypeError msg).
Proof.
  intros Hinserts Hin Hlink. unfold parseBulletin.
  destruct (nullish doc); [eauto|]. destruct (_ || _); [eauto|].
  destruct (negb (newURL (get doc "link"))); [eauto|].
  rewrite Hinserts. simpl.
  destruct (insertsFault_entry newURL _ _ Hin (or_intror Hlink)) as [msg ->].
  eauto.
Qed.

(** C6.  For every post: when the document fails to decode, the transform
    returns the [Invalid YAML] descriptor with the decoder's reason and
    mark; when it decodes, no descriptor the transform returns is
    [Invalid YAML] - an event's is [Invalid structure] or
    [Unexpected error], a bulletin's is [Invalid structure] - and a missing
    title, an occurrence entry without day or time, an invalid bulletin
    link and an invalid insert link are each reported as
    [Invalid structure]. *)
Theorem syntax_error_exactly_on_decode_failure
    (load : string -> loaded) (newURL : jsval -> bool)
    (tweetId tweetText : string) :
  (forall reason mark,
     load tweetText = Malformed reason mark ->
     (forall last (w : world Event.t),
        Index.eventsTransform load tweetId tweetText last w =
        failed (YAMLException reason mark) (Some tweetId) w) /\
     (forall w : world Bulletin.t,
        Index.bulletinsTransform load newURL tweetId tweetText w =
        failed (YAMLException reason mark) (Some tweetId) w) /\
     describe (YAMLException reason mark) (Some tweetId) =
       Descriptor.mk "Invalid YAML" "YAMLException" (Message reason) mark
                     (Some tweetId)) /\
  (forall doc,
     load tweetText = Document doc ->
     (forall last (w w' : world Event.t) r d,
        Index.eventsTransform load tweetId tweetText last w = (w', Return r) ->
        errorDescriptor r = Some d ->
        (Descriptor.error d = "Invalid structure" \/
         Descriptor.error d = "Unexpected error") /\
        Descriptor.error d <> "Invalid YAML") /\
     (forall (w w' : world Bulletin.t) r d,
        Index.bulletinsTransform load newURL tweetId tweetText w =
          (w', Return r) ->
        errorDescriptor r = Some d ->
        Descriptor.error d = "Invalid structure") /\
     (forall raw,
        nullish doc = false ->
        truthy (get doc "title") = false ->
        orDefault (get doc "desc") (VString EmptyString) = VString raw ->
        trim raw = EmptyString ->
        forall last (w : world Event.t),
          Index.eventsTransform load tweetId tweetText last w =
          failed (TypeError (Message "Title missing")) (Some tweetId) w) /\
     (forall items item,
        truthy (get doc "title") = true ->
        orDefault (get doc "times") (VArray []) = VArray items ->
        item ∈ items ->
        truthy (get item "day") = false \/ truthy (get item "time") = false ->
        forall last (w : world Event.t), exists msg,
          Index.eventsTransform load tweetId tweetText last w =
          failed (TypeError msg) (Some tweetId) w) /\
     (newURL (get doc "link") = false ->
      forall w : world Bulletin.t, exists msg,
        Index.bulletinsTransform load newURL tweetId tweetText w =
        failed (TypeError msg) (Some tweetId) w) /\
     (forall items item,
        orDefault (get doc "inserts") (VArray []) = VArray items ->
        item ∈ items ->
        newURL (get item "link") = false ->
        forall w : world Bulletin.t, exists msg,
          Index.bulletinsTransform load newURL tweetId tweetText w =
          failed (TypeError msg) (Some tweetId) w) /\
     (forall msg,
        Descriptor.error (describe (TypeError msg) (Some tweetId)) =
        "Invalid structure")).
Proof.
  split.
  - intros reason mark Hload. split; [|split; [|done]].
    + intros last w. by rewrite eventsTransform_resolve, Hload.
    + intros w. by rewrite bulletinsTransform_resolve, Hload.
  - intros doc Hload. repeat split.
    + destruct (eventsTransform_descriptor _ _ _ _ _ _ _ _ H H0)
        as [_ [(reason & mark & Hbad & _)|[(doc' & msg & _ & ->)|
                                           (doc' & _ & _ & ->)]]];
        [congruence|by left|by right].
    + destruct (eventsTransform_descriptor _ _ _ _ _ _ _ _ H H0)
        as [_ [(reason & mark & Hbad & _)|[(doc' & msg & _ & ->)|
                                           (doc' & _ & _ & ->)]]];
        [congruence|done|done].
    + intros w w' r d Hrun Hd.
      destruct (bulletinsTransform_descriptor _ _ _ _ _ _ _ _ Hrun Hd)
        as [_ [(reason & mark & Hbad & _)|(doc' & msg & _ & ->)]];
        [congruence|done].
    + intros raw Hnull Htitle Hdesc Htrim last w.
      by rewrite eventsTransform_resolve, Hload,
        (parseEvent_title_missing _ _ Hnull Htitle Hdesc Htrim).
    + intros items item Htitle Htimes Hin Hbad last w.
      destruct (parseEvent_bad_entry _ _ _ Htitle Htimes Hin Hbad)
        as [msg Hp].
      exists msg. by rewrite eventsTransform_resolve, Hload, Hp.
    + intros Hlink w.
      destruct (parseBulletin_bad_link newURL _ Hlink) as [msg Hp].
      exists msg. by rewrite bulletinsTransform_resolve, Hload, Hp.
    + intros items item Hinserts Hin Hlink w.
      destruct (parseBulletin_bad_insert newURL _ _ _ Hinserts Hin Hlink)
        as [msg Hp].
      exists msg. by rewrite bulletinsTransform_resolve, Hload, Hp.
Qed.

(** A malformed text, an occurrence entry without a time, and a bulletin
    whose link is no URL. *)
Lemma syntax_error_exactly_on_decode_failure_witness :
  Index.eventsTransform sampleYaml "13" "title: [" None (World [] []) =
    failed (YAMLException
              "unexpected end of the stream within a flow collection"
              (Some {| position := 8; line := 1; column := 0 |}))
           (Some "13") (World [] []) /\
  (exists msg,
     Index.eventsTransform sampleYaml "15"
       ("title: B" +:+ LF +:+ "times: [{day: Sunday}]") None (World [] []) =
     failed (TypeError msg) (Some "15") (World [] [])) /\
  (exists msg,
     Index.bulletinsTransform sampleYaml sampleURL "21"
       ("date: May 31" +:+ LF +:+ "title: C" +:+ LF +:+ "link: not-a-url")
       (World [] []) =
     failed (TypeError msg) (Some "21") (World [] [])).
Proof.
  split; [|split].
  - apply (proj1 (syntax_error_exactly_on_decode_failure
                    sampleYaml sampleURL "13" "title: [")
             "unexpected end of the stream within a flow collection"
             (Some {| position := 8; line := 1; column := 0 |}) eq_refl).
  - apply (proj1 (proj2 (proj2 (proj2
             (proj2 (syntax_error_exactly_on_decode_failure
                       sampleYaml sampleURL "15"
                       ("title: B" +:+ LF +:+ "times: [{day: Sunday}]"))
                _ eq_refl))))
             [VObject [("day", VString "Sunday")]]
             (VObject [("day", VString "Sunday")])).
    + reflexivity.
    + reflexivity.
    + apply list_elem_of_here.
    + right. reflexivity.
  - apply (proj1 (proj2 (proj2 (proj2 (proj2
             (proj2 (syntax_error_exactly_on_decode_failure
                       sampleYaml sampleURL "21"
                       ("date: May 31" +:+ LF +:+ "title: C" +:+ LF +:+
                        "link: not-a-url"))
                _ eq_refl)))))).
    reflexivity.
Defined.

(** ** C8: the transforms return, and the loop goes on *)

Lemma resolved_app_inv tweets before after posts :
  resolved tweets (before ++ after) posts ->
  exists posts1 posts2,
    resolved tweets before posts1 /\ resolved tweets after posts2 /\
    posts = posts1 ++ posts2.
Proof. apply Forall2_app_inv_l. Qed.

(** What the [try] block of [eventsTransform] does, by the parser's
    decision. *)
Lemma eventsTry_resolve load text last (w : world Event.t) :
  eventsTry load text last w =
  match parseEvent (load text) with
  | Primary record =>
      (World (heap w ++ [record]) (console w),
       Return (Result (Some (length (heap w))) (Some (length (heap w)))
                      None))
  | Continuation descriptive =>
      match last with
      | Some l => merged l descriptive w
      | None =>
          (w, Throw (Error (Message "Continuation tweet with no primary")))
      end
  | Invalid e => (w, Throw e)
  end.
Proof.
  unfold eventsTry, parseEvent, merged.
  run. destruct (load text) as [doc|reason mark]; [|done].
  destruct doc as [| |s|items|members|f]; run; try done.
  destruct (orDefault (member "desc" members) _) as [| |raw| | |]; try done.
  destruct (truthy (member "title" members));
    destruct (nonEmpty (trim raw)) eqn:Hd; simpl; rewrite ?Hd; try done;
    try (by destruct last).
  all: match goal with
       | |- context [orDefault (member "times" ?m) ?d] =>
           destruct (orDefault (member "times" m) d); simpl; try done;
           rewrite timesLoop_fault; by destruct (timesFault _)
       end.
Qed.

Lemma tryCatch_Throw {R} (body : M R result) (tweetId : string)
    (w w' : world R) (e : thrown) :
  body w = (w', Throw e) ->
  tryCatch body (Index.catchBlock tweetId) w = failed e (Some tweetId) w'.
Proof. intros Hbody. unfold tryCatch. by rewrite Hbody. Qed.

Lemma tryCatch_Return {R} (body : M R result) (tweetId : string)
    (w w' : world R) (r : result) :
  body w = (w', Return r) ->
  tryCatch body (Index.catchBlock tweetId) w = (w', Return r).
Proof. intros Hbody. unfold tryCatch. by rewrite Hbody. Qed.

Lemma bulletinsTry_resolve load newURL text (w : world Bulletin.t) :
  bulletinsTry load newURL text w =
  match parseBulletin newURL (load text) with
  | inr record =>
      (World (heap w ++ [record]) (console w),
       Return (Result (Some (length (heap w))) None None))
  | inl e => (w, Throw e)
  end.
Proof.
  unfold bulletinsTry, parseBulletin.
  run. destruct (load text) as [doc|reason mark]; [|done].
  destruct doc as [| |s|items|members|f]; run; try done.
  destruct (truthy (member "date" members)); simpl; try done.
  destruct (truthy (member "title" members)); simpl; try done.
  destruct (newURL (member "link" members)); simpl; try done.
  destruct (orDefault (member "inserts" members) _); simpl; try done;
    rewrite insertsLoop_fault; by destruct (insertsFault _ _).
Qed.

Lemma eventsTry_Throw load text last (w w' : world Event.t) e :
  eventsTry load text last w = (w', Throw e) -> w' = w.
Proof.
  rewrite eventsTry_resolve.
  destruct (parseEvent (load text)) as [record|descriptive|e0];
    [done| |by intros [= <- _]].
  destruct last as [l|]; [done|by intros [= <- _]].
Qed.

Lemma eventsTry_Return load text last (w w' : world Event.t) r :
  eventsTry load text last w = (w', Return r) -> errorDescriptor r = None.
Proof.
  rewrite eventsTry_resolve.
  destruct (parseEvent (load text)) as [record|descriptive|e0];
    [by intros [= _ <-]| |done].
  destruct last as [l|]; [by intros [= _ <-]|done].
Qed.

Lemma bulletinsTry_Throw load newURL text (w w' : world Bulletin.t) e :
  bulletinsTry load newURL text w = (w', Throw e) -> w' = w.
Proof.
  rewrite bulletinsTry_resolve.
  destruct (parseBulletin newURL (load text)); [by intros [= <- _]|done].
Qed.

Lemma bulletinsTry_Return load newURL text (w w' : world Bulletin.t) r :
  bulletinsTry load newURL text w = (w', Return r) ->
  errorDescriptor r = None.
Proof.
  rewrite bulletinsTry_resolve.
  destruct (parseBulletin newURL (load text)); [done|by intros [= _ <-]].
Qed.

Lemma unexpected_category (e : thrown) (tweetId : option string) :
  Descriptor.error (describe e tweetId) = "Unexpected error" <->
  (forall reason mark, e <> YAMLException reason mark) /\
  (forall msg, e <> TypeError msg).
Proof.
  destruct e; simpl; split; try done.
  - intros [H _]. by destruct (H reason mark).
  - intros [_ H]. by destruct (H msg).
Qed.

(** C8.  On every input (any post id, any text, any last-primary value, any
    store) each transform returns its triple and throws nothing: it is its
    [try] block under its catch block, so what the block returns is
    returned, without a descriptor, and whatever exception the block
    raises, at whatever point, is returned as that exception's descriptor,
    stamped with the post's id and logged once, with no element and no
    last-primary, the store as it was.  What the catch block reports as
    [Unexpected error] is exactly what is neither a [YAMLException] nor a
    [TypeError]; in a descriptor an event post produces, the decode failure
    is [Invalid YAML], every [TypeError] (thrown by the validation or by
    the engine on a document of the wrong shape) is [Invalid structure],
    and the one remaining exception, which the block does raise for a
    continuation without a primary, is [Unexpected error].  A post's
    failure does not stop the loop: the pass of a post whose block raises
    an exception appends the descriptor to the errors, updates the hash,
    clears the last-primary and returns; in a timeline whose ids name
    tweets, the posts after any post are processed from the state that post
    left, every one of them, and the loop returns. *)
Theorem transforms_return_and_loop_goes_on
    (load : string -> loaded) (newURL : jsval -> bool) :
  (forall tweetId tweetText last (w : world Event.t),
     exists w' r,
       Index.eventsTransform load tweetId tweetText last w = (w', Return r)) /\
  (forall tweetId tweetText (w : world Bulletin.t),
     exists w' r,
       Index.bulletinsTransform load newURL tweetId tweetText w =
       (w', Return r)) /\
  (forall e tweetId,
     Descriptor.error (describe e tweetId) = "Unexpected error" <->
     (forall reason mark, e <> YAMLException reason mark) /\
     (forall msg, e <> TypeError msg)) /\
  (forall tweetId tweetText last (w w' : world Event.t) r d,
     Index.eventsTransform load tweetId tweetText last w = (w', Return r) ->
     errorDescriptor r = Some d ->
     (exists reason mark,
        load tweetText = Malformed reason mark /\
        Descriptor.error d = "Invalid YAML" /\
        Descriptor.type d = "YAMLException") \/
     (exists doc,
        load tweetText = Document doc /\
        Descriptor.error d = "Invalid structure" /\
        Descriptor.type d = "TypeError") \/
     (exists doc,
        load tweetText = Document doc /\ last = None /\
        Descriptor.error d = "Unexpected error" /\
        d = noPrimary tweetId)) /\
  (forall tweets before tweetId after posts state (w : world Event.t),
     resolved tweets (before ++ tweetId :: after) posts ->
     exists w1 state1 w2 state2 w3 state3,
       timelineLoop (Index.eventsTransform load) tweets before state w =
         (w1, Return state1) /\
       iteration (Index.eventsTransform load) tweets state1 tweetId w1 =
         (w2, Return state2) /\
       timelineLoop (Index.eventsTransform load) tweets after state2 w2 =
         (w3, Return state3) /\
       timelineLoop (Index.eventsTransform load) tweets
                    (before ++ tweetId :: after) state w =
         (w3, Return state3)) /\
  (forall tweetId tweetText last,
     Index.eventsTransform load tweetId tweetText last =
     tryCatch (eventsTry load tweetText last) (Index.catchBlock tweetId)) /\
  (forall tweetId tweetText,
     Index.bulletinsTransform load newURL tweetId tweetText =
     tryCatch (bulletinsTry load newURL tweetText)
              (Index.catchBlock tweetId)) /\
  (forall tweetId tweetText last (w w' : world Event.t) e,
     eventsTry load tweetText last w = (w', Throw e) ->
     w' = w /\
     Index.eventsTransform load tweetId tweetText last w =
       (World (heap w)
              (console w ++
                 [console_error [ArgDescriptor (describe e (Some tweetId))]]),
        Return (Result None None (Some (describe e (Some tweetId))))) /\
     ((forall reason mark, e <> YAMLException reason mark) ->
      (forall msg, e <> TypeError msg) ->
      Descriptor.error (describe e (Some tweetId)) = "Unexpected error")) /\
  (forall tweetId tweetText (w w' : world Bulletin.t) e,
     bulletinsTry load newURL tweetText w = (w', Throw e) ->
     w' = w /\
     Index.bulletinsTransform load newURL tweetId tweetText w =
       (World (heap w)
              (console w ++
                 [console_error [ArgDescriptor (describe e (Some tweetId))]]),
        Return (Result None None (Some (describe e (Some tweetId))))) /\
     ((forall reason mark, e <> YAMLException reason mark) ->
      (forall msg, e <> TypeError msg) ->
      Descriptor.error (describe e (Some tweetId)) = "Unexpected error")) /\
  (forall tweetId tweetText last (w w' : world Event.t) r,
     eventsTry load tweetText last w = (w', Return r) ->
     Index.eventsTransform load tweetId tweetText last w = (w', Return r) /\
     errorDescriptor r = None) /\
  (forall tweetId tweetText (w w' : world Bulletin.t) r,
     bulletinsTry load newURL tweetText w = (w', Return r) ->
     Index.bulletinsTransform load newURL tweetId tweetText w =
       (w', Return r) /\
     errorDescriptor r = None) /\
  (forall tweetText last reason mark (w : world Event.t),
     load tweetText = Malformed reason mark ->
     eventsTry load tweetText last w =
     (w, Throw (YAMLException reason mark))) /\
  (forall tweetText doc descriptive (w : world Event.t),
     load tweetText = Document doc ->
     continuationCandidate doc descriptive ->
     eventsTry load tweetText None w =
     (w, Throw (Error (Message "Continuation tweet with no primary")))) /\
  (forall tweets tweetId after post posts state (w w' : world Event.t) e,
     tweets !! tweetId = Some post ->
     resolved tweets after posts ->
     eventsTry load (tweetTextExpandedLinks (full_text post) (urls post))
               (lastNonContinuationElement state) w = (w', Throw e) ->
     let descriptor := describe e (Some tweetId) in
     let state2 :=
       Collection (dataset state) (errors state ++ [descriptor])
                  (update (hash state) (full_text post)) None in
     let w2 :=
       World (heap w)
             (console w ++ [console_error [ArgDescriptor descriptor]]) in
     iteration (Index.eventsTransform load) tweets state tweetId w =
       (w2, Return state2) /\
     timelineLoop (Index.eventsTransform load) tweets (tweetId :: after)
                  state w =
       timelineLoop (Index.eventsTransform load) tweets after state2 w2 /\
     exists w3 state3,
       timelineLoop (Index.eventsTransform load) tweets after state2 w2 =
         (w3, Return state3) /\
       hash state3 = hash state2 ++ map full_text posts) /\
  (forall tweets tweetId after post posts state (w w' : world Bulletin.t) e,
     tweets !! tweetId = Some post ->
     resolved tweets after posts ->
     bulletinsTry load newURL
                  (tweetTextExpandedLinks (full_text post) (urls post)) w =
       (w', Throw e) ->
     let transform :=
       fun tweetId tweetText (_ : option nat) =>
         Index.bulletinsTransform load newURL tweetId tweetText in
     let descriptor := describe e (Some tweetId) in
     let state2 :=
       Collection (dataset state) (errors state ++ [descriptor])
                  (update (hash state) (full_text post)) None in
     let w2 :=
       World (heap w)
             (console w ++ [console_error [ArgDescriptor descriptor]]) in
     iteration transform tweets state tweetId w = (w2, Return state2) /\
     timelineLoop transform tweets (tweetId :: after) state w =
       timelineLoop transform tweets after state2 w2 /\
     exists w3 state3,
       timelineLoop transform tweets after state2 w2 =
         (w3, Return state3) /\
       hash state3 = hash state2 ++ map full_text posts).
Proof.
  split; [apply index_eventsTransform_returns|].
  split.
  { intros tweetId tweetText w.
    apply (index_bulletinsTransform_returns load newURL tweetId tweetText
             None). }
  split; [intros e tweetId; apply unexpected_category|].
  split.
  { intros tweetId tweetText last w w' r d Hrun Hd.
    destruct (eventsTransform_descriptor _ _ _ _ _ _ _ _ Hrun Hd)
      as [_ [(reason & mark & Hload & ->)|[(doc & msg & Hload & ->)|
                                           (doc & Hload & Hlast & ->)]]];
      eauto 10. }
  split.
  { intros tweets before tweetId after posts state w Hres.
    pose proof (index_eventsTransform_returns load) as Hret.
    destruct (resolved_app_inv _ _ _ _ Hres)
      as (posts1 & posts2 & Hres1 & Hres2 & _).
    destruct (timelineLoop_hash _ tweets Hret before posts1 state w Hres1)
      as (w1 & state1 & Hloop1 & _).
    inversion Hres2 as [|? post ? posts3 Hpost Hres3]; subst.
    destruct (iteration_returns _ tweets Hret state1 tweetId post w1 Hpost)
      as (w2 & r & _ & Hstep).
    destruct (timelineLoop_hash _ tweets Hret after posts3
                (Collection (push (dataset state1) (element r))
                            (push (errors state1) (errorDescriptor r))
                            (update (hash state1) (full_text post))
                            (lastNonContinuation r))
                w2 Hres3)
      as (w3 & state3 & Hloop3 & _).
    do 6 eexists. split; [exact Hloop1|]. split; [exact Hstep|].
    split; [exact Hloop3|].
    rewrite timelineLoop_app, Hloop1. simpl. unfold bind.
    by rewrite Hstep. }
  split; [done|]. split; [done|].
  split.
  { intros tweetId tweetText last w w' e Htry.
    pose proof (eventsTry_Throw _ _ _ _ _ _ Htry) as ->.
    split; [done|]. split.
    - exact (tryCatch_Throw _ tweetId _ _ _ Htry).
    - intros Hyaml Htype. by apply unexpected_category. }
  split.
  { intros tweetId tweetText w w' e Htry.
    pose proof (bulletinsTry_Throw _ _ _ _ _ _ Htry) as ->.
    split; [done|]. split.
    - exact (tryCatch_Throw _ tweetId _ _ _ Htry).
    - intros Hyaml Htype. by apply unexpected_category. }
  split.
  { intros tweetId tweetText last w w' r Htry. split.
    - exact (tryCatch_Return _ tweetId _ _ _ Htry).
    - by eapply eventsTry_Return. }
  split.
  { intros tweetId tweetText w w' r Htry. split.
    - exact (tryCatch_Return _ tweetId _ _ _ Htry).
    - by eapply bulletinsTry_Return. }
  split.
  { intros tweetText last reason mark w Hload.
    by rewrite eventsTry_resolve, Hload. }
  split.
  { intros tweetText doc descriptive w Hload Hcand.
    by rewrite eventsTry_resolve, Hload, (parseEvent_candidate _ _ Hcand). }
  split.
  { intros tweets tweetId after post posts state w w' e Hpost Hres Htry
      descriptor state2 w2.
    pose proof (eventsTry_Throw _ _ _ _ _ _ Htry) as ->.
    assert (iteration (Index.eventsTransform load) tweets state tweetId w =
            (w2, Return state2)) as Hstep.
    { rewrite (iteration_found _ _ _ _ _ _ Hpost).
      change (Index.eventsTransform load tweetId
                (tweetTextExpandedLinks (full_text post) (urls post))
                (lastNonContinuationElement state) w)
        with (tryCatch
                (eventsTry load
                   (tweetTextExpandedLinks (full_text post) (urls post))
                   (lastNonContinuationElement state))
                (Index.catchBlock tweetId) w).
      by rewrite (tryCatch_Throw _ tweetId _ _ _ Htry). }
    split; [exact Hstep|]. split.
    { cbn [timelineLoop]. unfold bind at 1. by rewrite Hstep. }
    destruct (timelineLoop_hash _ tweets (index_eventsTransform_returns load)
                after posts state2 w2 Hres)
      as (w3 & state3 & Hloop & Hhash).
    by exists w3, state3. }
  intros tweets tweetId after post posts state w w' e Hpost Hres Htry
    transform descriptor state2 w2.
  pose proof (bulletinsTry_Throw _ _ _ _ _ _ Htry) as ->.
  assert (iteration transform tweets state tweetId w = (w2, Return state2))
    as Hstep.
  { assert (transform tweetId
              (tweetTextExpandedLinks (full_text post) (urls post))
              (lastNonContinuationElement state) w =
            failed e (Some tweetId) w) as Hrun
      by exact (tryCatch_Throw _ tweetId _ _ _ Htry).
    by rewrite (iteration_found _ _ _ _ _ _ Hpost), Hrun. }
  split; [exact Hstep|]. split.
  { cbn [timelineLoop]. unfold bind at 1. by rewrite Hstep. }
  destruct (timelineLoop_hash transform tweets
              (index_bulletinsTransform_returns load newURL)
              after posts state2 w2 Hres) as (w3 & state3 & Hloop & Hhash).
  by exists w3, state3.
Qed.

(** The loop of the examples goes on after the malformed third post. *)
Lemma transforms_return_and_loop_goes_on_witness :
  exists w1 state1 w2 state2 w3 state3,
    timelineLoop (Index.eventsTransform sampleYaml) sampleTweets
                 ["11"; "12"] (Collection [] [] createHash None)
                 (World [] []) = (w1, Return state1) /\
    iteration (Index.eventsTransform sampleYaml) sampleTweets state1 "13" w1 =
      (w2, Return state2) /\
    timelineLoop (Index.eventsTransform sampleYaml) sampleTweets ["14"]
                 state2 w2 = (w3, Return state3) /\
    timelineLoop (Index.eventsTransform sampleYaml) sampleTweets
                 (["11"; "12"] ++ "13" :: ["14"])
                 (Collection [] [] createHash None) (World [] []) =
      (w3, Return state3).
Proof.
  apply (proj1 (proj2 (proj2 (proj2 (proj2
           (transforms_return_and_loop_goes_on sampleYaml sampleURL)))))
           sampleTweets ["11"; "12"] "13" ["14"] samplePosts).
  apply sample_resolved.
Defined.

(** ** C7: the publish decision *)


Section IndexAgent.

Variable load : string -> loaded.
Variable newURL : jsval -> bool.
Variable md5 : string -> string.
Variable stringify : Index.generatedContent -> string.
Variable base64 : string -> string.
Variable store : Commit.t -> rejection + string.

(** With timelines that resolve, the three loops of [agent] run to
    their end and [publish] decides. *)
Lemma index_agent_reaches_publish input postsR postsS postsB :
  resolved (default ∅ (Index.regularEventsTweets input))
           (default [] (Index.regularEventsTimeline input)) postsR ->
  resolved (default ∅ (Index.specialEventsTweets input))
           (default [] (Index.specialEventsTimeline input)) postsS ->
  resolved (default ∅ (Index.bulletinsTweets input))
           (default [] (Index.bulletinsTimeline input)) postsB ->
  exists out regular special bulletin,
    Index.agent load newURL md5 stringify base64 store input =
    Index.publish md5 stringify base64 store input out
                  regular special bulletin /\
    timelineHash regular = map full_text postsR /\
    timelineHash special = map full_text postsS /\
    timelineHash bulletin = map full_text postsB.
Proof.
  intros HR HS HB. unfold Index.agent.
  destruct (collectionLoop_hash (Index.eventsTransform load) _ _ _ []
              (index_eventsTransform_returns load) HR)
    as (out1 & regular & -> & Hregular).
  destruct (collectionLoop_hash (Index.eventsTransform load) _ _ _ out1
              (index_eventsTransform_returns load) HS)
    as (out2 & special & -> & Hspecial).
  destruct (collectionLoop_hash _ _ _ _ out2
              (index_bulletinsTransform_returns load newURL) HB)
    as (out3 & bulletin & -> & Hbulletin).
  by exists out3, regular, special, bulletin.
Qed.

End IndexAgent.

Section SuccessorAgent.

Variable load : string -> loaded.
Variable newURL : jsval -> bool.
Variable md5 : string -> string.
Variable stringify : Successor.generatedContent -> string.
Variable base64 : string -> string.
Variable store : Commit.t -> rejection + string.

Lemma successor_agent_reaches_publish input postsA postsR postsS postsB :
  resolved (default ∅ (Successor.announcementsTweets input))
           (default [] (Successor.announcementsTimeline input)) postsA ->
  resolved (default ∅ (Successor.regularEventsTweets input))
           (default [] (Successor.regularEventsTimeline input)) postsR ->
  resolved (default ∅ (Successor.specialEventsTweets input))
           (default [] (Successor.specialEventsTimeline input)) postsS ->
  resolved (default ∅ (Successor.bulletinsTweets input))
           (default [] (Successor.bulletinsTimeline input)) postsB ->
  exists out announcement regular special bulletin,
    Successor.agent load newURL md5 stringify base64 store input =
    Successor.publish md5 stringify base64 store input out
                      announcement regular special bulletin /\
    timelineHash announcement = map full_text postsA /\
    timelineHash regular = map full_text postsR /\
    timelineHash special = map full_text postsS /\
    timelineHash bulletin = map full_text postsB.
Proof.
  intros HA HR HS HB. unfold Successor.agent.
  destruct (collectionLoop_hash (Successor.announcementsTransform load)
              _ _ _ [] (successor_announcementsTransform_returns load) HA)
    as (out0 & announcement & -> & Hannouncement).
  destruct (collectionLoop_hash (Successor.eventsTransform load) _ _ _ out0
              (index_eventsTransform_returns load) HR)
    as (out1 & regular & -> & Hregular).
  destruct (collectionLoop_hash (Successor.eventsTransform load) _ _ _ out1
              (index_eventsTransform_returns load) HS)
    as (out2 & special & -> & Hspecial).
  destruct (collectionLoop_hash _ _ _ _ out2
              (successor_bulletinsTransform_returns load newURL) HB)
    as (out3 & bulletin & -> & Hbulletin).
  by exists out3, announcement, regular, special, bulletin.
Qed.



End SuccessorAgent.



(** With another digest in the published artifact the same invocation
    sends its one request, under the version token it read. *)
Example changed_digest_commits :
  requests (Index.agent sampleYaml sampleURL sampleDigest (fun _ => "{}") id
                        sampleStore (sampleInput "0")) =
  [ Commit.mk "Generated content data: Updates in regular events" "{}" "f00" ].
Proof. vm_compute. reflexivity. Qed.


(** * Further properties of the transforms and of the pipeline *)

(** ** Which documents become records *)

Lemma timesFault_valid items :
  timesFault items = None <-> forallb validEntry items = true.
Proof.
  induction items as [|item rest IH]; [done|]. simpl. unfold validEntry.
  destruct (nullish item); simpl; [done|].
  destruct (truthy (get item "day")); simpl; [|done].
  destruct (truthy (get item "time")); simpl; [done|done].
Qed.

Lemma insertsFault_valid newURL items :
  insertsFault newURL items = None <->
  forallb (validInsert newURL) items = true.
Proof.
  induction items as [|item rest IH]; [done|]. simpl. unfold validInsert.
  destruct (nullish item); simpl; [done|].
  destruct (truthy (get item "title")); simpl; [|done].
  destruct (newURL (get item "link")); simpl; [done|done].
Qed.

Lemma truthy_not_nullish doc key : truthy (get doc key) = true -> nullish doc = false.
Proof. by destruct doc. Qed.

Lemma parseEvent_primary doc :
  match parseEvent (Document doc) with
  | Primary record => primaryEvent doc = true /\ record = eventOf doc
  | _ => primaryEvent doc = false
  end.
Proof.
  unfold parseEvent, primaryEvent, eventOf.
  destruct (truthy (get doc "title")) eqn:Htitle; simpl.
  - rewrite (truthy_not_nullish _ _ Htitle).
    destruct (orDefault (get doc "desc") _) as [| |raw| | |]; try done.
    destruct (elements _) as [items|]; [|done].
    destruct (timesFault items) as [e|] eqn:Hfault.
    + destruct (forallb validEntry items) eqn:Hall; [|done].
      apply timesFault_valid in Hall. congruence.
    + by rewrite (proj1 (timesFault_valid items) Hfault).
  - destruct (nullish doc); [done|].
    destruct (orDefault (get doc "desc") _) as [| |raw| | |]; try done.
    by destruct (nonEmpty (trim raw)).
Qed.

Lemma parseAnnouncement_primary doc :
  match parseAnnouncement (Document doc) with
  | Primary record =>
      primaryAnnouncement doc = true /\ record = announcementOf doc
  | _ => primaryAnnouncement doc = false
  end.
Proof.
  unfold parseAnnouncement, primaryAnnouncement, announcementOf.
  destruct (truthy (get doc "title")) eqn:Htitle; simpl.
  - rewrite (truthy_not_nullish _ _ Htitle).
    by destruct (orDefault (get doc "desc") _) as [| |raw| | |].
  - destruct (nullish doc); [done|].
    destruct (orDefault (get doc "desc") _) as [| |raw| | |]; try done.
    by destruct (nonEmpty (trim raw)).
Qed.

Lemma parseBulletin_primary newURL doc :
  match parseBulletin newURL (Document doc) with
  | inr record => primaryBulletin newURL doc = true /\ record = bulletinOf doc
  | inl (TypeError _) => primaryBulletin newURL doc = false
  | inl _ => False
  end.
Proof.
  unfold parseBulletin, primaryBulletin, bulletinOf.
  destruct (nullish doc) eqn:Hnull.
  { by destruct doc. }
  destruct (truthy (get doc "date")); simpl; [|done].
  destruct (truthy (get doc "title")); simpl; [|done].
  destruct (newURL (get doc "link")); simpl; [|done].
  destruct (elements _) as [items|]; [|done].
  destruct (insertsFault newURL items) as [e|] eqn:Hfault.
  - destruct (insertsFault_TypeError _ _ _ Hfault) as [msg ->].
    destruct (forallb _ items) eqn:Hall; [|done].
    apply insertsFault_valid in Hall. congruence.
  - by rewrite (proj1 (insertsFault_valid newURL items) Hfault).
Qed.

(** X1.  A decoded event document becomes a record exactly when its title is
    truthy, its [desc] is absent or a string and its [times] are absent or
    an iterable of entries that each have a truthy day and time.  Such a
    post allocates the record with the document's fields, the trimmed
    [desc] and [times] defaulting to the empty list, and returns it as the
    element and as the new last-primary, whatever last-primary it was
    given: it changes no earlier record and logs nothing.  Every other
    decoded document yields no element. *)
Theorem event_record_exactly_when_valid
    (load : string -> loaded) (tweetId tweetText : string) (doc : jsval)
    (last : option ref) (w : world Event.t) :
  load tweetText = Document doc ->
  (primaryEvent doc = true ->
   Index.eventsTransform load tweetId tweetText last w =
   (World (heap w ++ [eventOf doc]) (console w),
    Return (Result (Some (length (heap w))) (Some (length (heap w))) None)))
  /\
  (primaryEvent doc = false ->
   exists w' r,
     Index.eventsTransform load tweetId tweetText last w = (w', Return r) /\
     element r = None /\ length (heap w') = length (heap w)).
Proof.
  intros Hload. rewrite eventsTransform_resolve, Hload.
  pose proof (parseEvent_primary doc) as Hp.
  destruct (parseEvent (Document doc)) as [record|descriptive|e]; simpl.
  - destruct Hp as [-> ->]. split; [done|discriminate].
  - rewrite Hp. split; [discriminate|]. intros _.
    destruct last as [l|]; simpl; do 2 eexists;
      (split; [reflexivity|]); split; try done.
    simpl. by rewrite length_alter.
  - rewrite Hp. split; [discriminate|]. intros _.
    do 2 eexists. split; [reflexivity|]. done.
Qed.

(** A title-only post: no [desc], no [times]. *)
Lemma event_record_exactly_when_valid_witness :
  Index.eventsTransform sampleYaml "1" "title: A" (Some 7) (World [] []) =
  (World [ Event.mk (VString "A") VUndefined VUndefined VUndefined
                    (VArray []) EmptyString ] [],
   Return (Result (Some 0) (Some 0) None)).
Proof.
  apply (proj1 (event_record_exactly_when_valid sampleYaml "1" "title: A"
                  (VObject [("title", VString "A")]) (Some 7) (World [] [])
                  eq_refl)).
  reflexivity.
Defined.

(** X2.  A decoded bulletin document becomes a record exactly when its date
    and title are truthy, [new URL(link)] returns, and its [inserts] are
    absent or an iterable of inserts that each have a truthy title and a
    link [new URL] accepts.  The record holds the document's date, title,
    [sub], link and inserts; it is the element, and a bulletin never
    becomes the last-primary.  Every other decoded document gives an
    [Invalid structure] descriptor, no element, and leaves the store as it
    was. *)
Theorem bulletin_record_exactly_when_valid
    (load : string -> loaded) (newURL : jsval -> bool)
    (tweetId tweetText : string) (doc : jsval) (w : world Bulletin.t) :
  load tweetText = Document doc ->
  (primaryBulletin newURL doc = true ->
   Index.bulletinsTransform load newURL tweetId tweetText w =
   (World (heap w ++ [bulletinOf doc]) (console w),
    Return (Result (Some (length (heap w))) None None)))
  /\
  (primaryBulletin newURL doc = false ->
   exists msg,
     Index.bulletinsTransform load newURL tweetId tweetText w =
     failed (TypeError msg) (Some tweetId) w).
Proof.
  intros Hload. rewrite bulletinsTransform_resolve, Hload.
  pose proof (parseBulletin_primary newURL doc) as Hp.
  destruct (parseBulletin newURL (Document doc)) as [[| msg |]|record];
    try done.
  - rewrite Hp. split; [discriminate|]. eauto.
  - destruct Hp as [-> ->]. split; [done|discriminate].
Qed.

Lemma bulletin_record_exactly_when_valid_witness :
  Index.bulletinsTransform sampleBulletinYaml sampleURL
    "21" sampleBulletinText (World [] []) =
  (World [ Bulletin.mk (VString "May 31") (VString "C") VUndefined
             (VString "https://example.org/c.pdf")
             (VArray [VObject [("title", VString "Insert");
                               ("link",
                                VString "https://example.org/i.pdf")]]) ] [],
   Return (Result (Some 0) None None)).
Proof.
  apply (proj1 (bulletin_record_exactly_when_valid
                  sampleBulletinYaml sampleURL
                  "21" sampleBulletinText sampleBulletin (World [] [])
                  eq_refl)).
  reflexivity.
Defined.

(** X3.  [announcementsTransform] on a decoded document: a truthy title with
    a [desc] that is absent or a string gives a new record (title, [sub],
    color, youtube, tweet, trimmed [desc]), returned as element and as
    last-primary; no title with a non-empty trimmed [desc] is a continuation,
    appended after a blank line to the record the last-primary names, or the
    [Unexpected error] of a continuation with no primary when there is none;
    every other document gives an [Invalid structure] descriptor. *)
Theorem announcement_transform_cases
    (load : string -> loaded) (tweetId tweetText : string) (doc : jsval)
    (last : option ref) (w : world Announcement.t) :
  load tweetText = Document doc ->
  (primaryAnnouncement doc = true ->
   Successor.announcementsTransform load tweetId tweetText last w =
   (World (heap w ++ [announcementOf doc]) (console w),
    Return (Result (Some (length (heap w))) (Some (length (heap w))) None)))
  /\
  (forall descriptive l,
     continuationCandidate doc descriptive -> last = Some l ->
     Successor.announcementsTransform load tweetId tweetText last w =
     (World (alter (fun a =>
                      withDescriptive
                        (Announcement.descriptive a +:+
                           (LF +:+ LF) +:+ descriptive) a)
                   l (heap w))
            (console w),
      Return (Result None (Some l) None)))
  /\
  (forall descriptive,
     continuationCandidate doc descriptive -> last = None ->
     Successor.announcementsTransform load tweetId tweetText last w =
     failed (Error (Message "Continuation tweet with no primary"))
            (Some tweetId) w)
  /\
  (primaryAnnouncement doc = false ->
   (forall descriptive, ~ continuationCandidate doc descriptive) ->
   exists msg,
     Successor.announcementsTransform load tweetId tweetText last w =
     failed (TypeError msg) (Some tweetId) w).
Proof.
  intros Hload. rewrite announcementsTransform_resolve, Hload.
  split; [|split; [|split]].
  - intros Hprimary. pose proof (parseAnnouncement_primary doc) as Hp.
    destruct (parseAnnouncement (Document doc)) as [record|d|e];
      [|congruence..].
    by destruct Hp as [_ ->].
  - intros descriptive l Hcand ->.
    rewrite (parseAnnouncement_candidate _ _ Hcand).
    destruct Hcand as (_ & raw & _ & _ & Hne).
    simpl. unfold merged. by rewrite (nonEmpty_true _ Hne).
  - intros descriptive Hcand ->.
    by rewrite (parseAnnouncement_candidate _ _ Hcand).
  - intros Hprimary Hnot. pose proof (parseAnnouncement_primary doc) as Hp.
    unfold parseAnnouncement in *.
    destruct (nullish doc); [simpl; eauto|].
    destruct (orDefault (get doc "desc") _) as [| |raw| | |] eqn:Hdesc;
      simpl; eauto.
    destruct (truthy (get doc "title")) eqn:Htitle; simpl in *;
      [destruct Hp; congruence|].
    destruct (nonEmpty (trim raw)) eqn:Hne; simpl; eauto.
    destruct (Hnot (trim raw)). split; [done|]. exists raw.
    split; [done|]. split; [done|]. intros Hempty. rewrite Hempty in Hne.
    discriminate.
Qed.

(** An announcement with a title, and its continuation. *)
Lemma announcement_transform_cases_witness :
  Successor.announcementsTransform sampleYaml "1" "title: A" None
    (World [] []) =
  (World [ Announcement.mk (VString "A") VUndefined VUndefined VUndefined
                           VUndefined EmptyString ] [],
   Return (Result (Some 0) (Some 0) None)).
Proof.
  apply (proj1 (announcement_transform_cases sampleYaml "1" "title: A"
                  (VObject [("title", VString "A")]) None (World [] [])
                  eq_refl)).
  reflexivity.
Defined.

(** X4.  A [times] given as a scalar is iterated character by character: a
    non-empty scalar is always rejected with [Day/date or time missing]
    (a character has neither field), and an empty one is accepted like an
    empty list. *)
Theorem scalar_times
    (load : string -> loaded) (tweetId tweetText : string) (doc : jsval)
    (raw scalar : string) (last : option ref) (w : world Event.t) :
  load tweetText = Document doc ->
  truthy (get doc "title") = true ->
  orDefault (get doc "desc") (VString EmptyString) = VString raw ->
  get doc "times" = VString scalar ->
  Index.eventsTransform load tweetId tweetText last w =
  if nonEmpty scalar
  then failed (TypeError (Message "Day/date or time missing")) (Some tweetId) w
  else (World (heap w ++ [eventOf doc]) (console w),
        Return (Result (Some (length (heap w))) (Some (length (heap w)))
                       None)).
Proof.
  intros Hload Htitle Hdesc Htimes.
  rewrite eventsTransform_resolve, Hload. unfold parseEvent, eventOf.
  rewrite (truthy_not_nullish _ _ Htitle), Hdesc, Htitle, Htimes. simpl.
  by destruct scalar.
Qed.

Lemma scalar_times_witness :
  Index.eventsTransform
    (fun _ => Document (VObject [("title", VString "A");
                                 ("times", VString "Sundays")]))
    "1" "post" None (World [] []) =
  failed (TypeError (Message "Day/date or time missing")) (Some "1")
         (World [] []).
Proof.
  apply (scalar_times _ "1" "post"
           (VObject [("title", VString "A"); ("times", VString "Sundays")])
           EmptyString "Sundays" None (World [] []));
    reflexivity.
Defined.

(** ** What one post does to the store, the dataset and the errors *)

Lemma resolve_stepOf {R} `{Descriptive R} (p : parsed R) tweetId last
    (w : world R) :
  stepOf tweetId last w (resolve p (Some tweetId) last w).
Proof.
  destruct p as [record|descriptive|e]; simpl.
  - apply (step_record tweetId last w record true).
  - destruct last as [l|]; [by apply step_merge|apply step_failed].
  - apply step_failed.
Qed.

Lemma index_eventsTransform_steps load : steps (Index.eventsTransform load).
Proof.
  intros tweetId tweetText last w. rewrite eventsTransform_resolve.
  apply resolve_stepOf.
Qed.

Lemma successor_announcementsTransform_steps load :
  steps (Successor.announcementsTransform load).
Proof.
  intros tweetId tweetText last w. rewrite announcementsTransform_resolve.
  apply resolve_stepOf.
Qed.

Lemma index_bulletinsTransform_steps load newURL :
  steps (fun tweetId tweetText _ =>
           Index.bulletinsTransform load newURL tweetId tweetText).
Proof.
  intros tweetId tweetText last w. rewrite bulletinsTransform_resolve.
  destruct (parseBulletin _ _) as [e|record].
  - apply step_failed.
  - apply (step_record tweetId last w record false).
Qed.

Lemma steps_returns {R}
    (transform : string -> string -> option ref -> M R result) :
  steps transform -> returns transform.
Proof.
  intros Hsteps tweetId tweetText last w.
  destruct (Hsteps tweetId tweetText last w); unfold failed; eauto.
Qed.

Section StepFacts.

Context {R : Type}.
Variable transform : string -> string -> option ref -> M R result.
Variable tweets : gmap string tweetObject.
Hypothesis transform_steps : steps transform.

(** One pass of the loop that returns, in terms of the step the transform
    took. *)
Lemma iteration_step state tweetId (w w' : world R) state' :
  iteration transform tweets state tweetId w = (w', Return state') ->
  exists post r,
    tweets !! tweetId = Some post /\
    stepOf tweetId (lastNonContinuationElement state) w (w', Return r) /\
    state' = Collection (push (dataset state) (element r))
                        (push (errors state) (errorDescriptor r))
                        (update (hash state) (full_text post))
                        (lastNonContinuation r).
Proof.
  unfold iteration. destruct (tweets !! tweetId) as [[text links]|]; [|done].
  unfold bind.
  pose proof (transform_steps tweetId (tweetTextExpandedLinks text links)
                (lastNonContinuationElement state) w) as Hstep.
  destruct (transform _ _ _ w) as [w1 [r|e]]; [|done].
  intros [= <- <-]. by exists {| full_text := text; urls := links |}, r.
Qed.

Lemma iteration_aligned state tweetId (w w' : world R) state' :
  aligned state w ->
  iteration transform tweets state tweetId w = (w', Return state') ->
  aligned state' w'.
Proof.
  intros [Hdata Hlast] Hrun.
  destruct (iteration_step _ _ _ _ _ Hrun) as (post & r & _ & Hstep & ->).
  inversion Hstep as [record keep|l f Hl|e]; subst; unfold aligned; simpl.
  - split.
    + rewrite Hdata, length_app. simpl.
      by rewrite Nat.add_1_r, seq_S.
    + destruct keep; [|done]. rewrite length_app. simpl. lia.
  - split; [by rewrite length_alter|].
    rewrite length_alter. by rewrite Hl in Hlast.
  - done.
Qed.

Lemma timelineLoop_aligned timeline state (w w' : world R) state' :
  aligned state w ->
  timelineLoop transform tweets timeline state w = (w', Return state') ->
  aligned state' w'.
Proof.
  revert state w. induction timeline as [|tweetId rest IH]; intros state w Hal.
  - by intros [= <- <-].
  - simpl. unfold bind.
    destruct (iteration transform tweets state tweetId w)
      as [w1 [state1|e]] eqn:Hstep; [|done].
    apply IH. by eapply iteration_aligned.
Qed.

(** The errors a run appends, the console entries it writes and the posts
    they come from. *)
Lemma iteration_errors state tweetId (w w' : world R) state' :
  iteration transform tweets state tweetId w = (w', Return state') ->
  exists new,
    errors state' = errors state ++ new /\
    console w' =
      console w ++ map (fun d => console_error [ArgDescriptor d]) new /\
    Descriptor.tweetId <$> new `sublist_of` [Some tweetId] /\
    length (dataset state') + length (errors state') <=
      S (length (dataset state) + length (errors state)) /\
    length (heap w) <= length (heap w').
Proof.
  intros Hrun.
  destruct (iteration_step _ _ _ _ _ Hrun) as (post & r & _ & Hstep & ->).
  inversion Hstep as [record keep|l f Hl|e]; subst; simpl.
  - exists []. rewrite !app_nil_r, !length_app. simpl.
    repeat split; [apply sublist_nil_l|lia|lia].
  - exists []. rewrite !app_nil_r, length_alter.
    repeat split; [apply sublist_nil_l|lia|lia].
  - exists [describe e (Some tweetId)]. rewrite !length_app. simpl.
    repeat split; [by destruct e|lia|lia].
Qed.

Lemma timelineLoop_errors timeline state (w w' : world R) state' :
  timelineLoop transform tweets timeline state w = (w', Return state') ->
  exists new,
    errors state' = errors state ++ new /\
    console w' =
      console w ++ map (fun d => console_error [ArgDescriptor d]) new /\
    Descriptor.tweetId <$> new `sublist_of` (Some <$> timeline) /\
    length (dataset state') + length (errors state') <=
      length (dataset state) + length (errors state) + length timeline /\
    length (heap w) <= length (heap w').
Proof.
  revert state w. induction timeline as [|tweetId rest IH]; intros state w.
  - intros [= <- <-]. exists []. rewrite !app_nil_r.
    repeat split; [done|lia|lia].
  - simpl. unfold bind.
    destruct (iteration transform tweets state tweetId w)
      as [w1 [state1|e]] eqn:Hstep; [|done].
    intros Hloop.
    destruct (iteration_errors _ _ _ _ _ Hstep)
      as (new1 & He1 & Hc1 & Hs1 & Hn1 & Hh1).
    destruct (IH _ _ Hloop) as (new2 & He2 & Hc2 & Hs2 & Hn2 & Hh2).
    exists (new1 ++ new2). split; [by rewrite He2, He1, app_assoc|].
    split; [by rewrite Hc2, Hc1, map_app, app_assoc|].
    split; [|simpl; lia].
    rewrite fmap_app. by apply (sublist_app _ [Some tweetId]).
Qed.

End StepFacts.

Lemma omap_lookup_seq {A} (before l : list A) :
  omap (fun i => (before ++ l) !! i) (seq (length before) (length l)) = l.
Proof.
  revert before. induction l as [|x l IH]; intros before; [done|].
  simpl. rewrite list_lookup_middle by done. simpl. f_equal.
  specialize (IH (before ++ [x])).
  rewrite length_app, <- app_assoc in IH. simpl in IH.
  by rewrite Nat.add_1_r in IH.
Qed.

Lemma sampleRun_eq :
  timelineLoop (Index.eventsTransform sampleYaml) sampleTweets sampleTimeline
               (Collection [] [] createHash None) (World [] []) =
  (sampleWorld, Return sampleState).
Proof. vm_compute. reflexivity. Qed.

(** X5.  In a collection of events the dataset and the carried pointer stay
    in step with the record objects: when the loop returns, the dataset
    holds every record allocated in the collection exactly once, in the
    order of the posts that made them, and the last-primary pointer is
    either null or the newest of them.  A continuation therefore always
    writes to the most recently emitted record of its own collection, and
    the records the collection contributes are exactly the allocated
    objects. *)
Theorem pointer_is_newest_record
    (load : string -> loaded) (tweets : gmap string tweetObject)
    (timeline : list string) (out : list consoleCall)
    (w' : world Event.t) (state' : collection) :
  timelineLoop (Index.eventsTransform load) tweets timeline
               (Collection [] [] createHash None) (World [] out) =
    (w', Return state') ->
  dataset state' = seq 0 (length (heap w')) /\
  (lastNonContinuationElement state' = None \/
   exists newest,
     lastNonContinuationElement state' = Some newest /\
     last (dataset state') = Some newest /\
     S newest = length (heap w')) /\
  omap (fun r => heap w' !! r) (dataset state') = heap w'.
Proof.
  intros Hrun.
  assert (aligned (Collection [] [] createHash None)
                  (World (R := Event.t) [] out)) as Hinit by done.
  destruct (timelineLoop_aligned _ tweets (index_eventsTransform_steps load)
              timeline _ _ _ _ Hinit Hrun) as [Hdata Hlast].
  split; [done|]. split.
  - destruct (lastNonContinuationElement state') as [newest|]; [|by left].
    right. exists newest. split; [done|]. split; [|done].
    rewrite Hdata, <- Hlast, seq_S. by rewrite last_snoc.
  - rewrite Hdata. apply (omap_lookup_seq []).
Qed.

Lemma pointer_is_newest_record_witness :
  dataset sampleState = seq 0 (length (heap sampleWorld)) /\
  (lastNonContinuationElement sampleState = None \/
   exists newest,
     lastNonContinuationElement sampleState = Some newest /\
     last (dataset sampleState) = Some newest /\
     S newest = length (heap sampleWorld)) /\
  omap (fun r => heap sampleWorld !! r) (dataset sampleState) =
    heap sampleWorld.
Proof.
  apply (pointer_is_newest_record sampleYaml sampleTweets sampleTimeline []).
  apply sampleRun_eq.
Defined.

(** X6.  Errors, console and posts stay in step in both loops of
    [src/index.js]: when a collection's loop returns, the errors are the
    errors it started with followed by the new descriptors, the console is
    the console it started with followed by one [console.error] per new
    descriptor, in the same order, and the tweet ids of the new descriptors
    are ids of the timeline, in timeline order, at most one descriptor per
    post. *)
Theorem errors_mirror_console
    (load : string -> loaded) (newURL : jsval -> bool)
    (tweets : gmap string tweetObject) (timeline : list string)
    (state state' : collection) :
  (forall w w' : world Event.t,
     timelineLoop (Index.eventsTransform load) tweets timeline state w =
       (w', Return state') ->
     exists new,
       errors state' = errors state ++ new /\
       console w' =
         console w ++ map (fun d => console_error [ArgDescriptor d]) new /\
       Descriptor.tweetId <$> new `sublist_of` (Some <$> timeline)) /\
  (forall w w' : world Bulletin.t,
     timelineLoop
       (fun tweetId tweetText _ =>
          Index.bulletinsTransform load newURL tweetId tweetText)
       tweets timeline state w = (w', Return state') ->
     exists new,
       errors state' = errors state ++ new /\
       console w' =
         console w ++ map (fun d => console_error [ArgDescriptor d]) new /\
       Descriptor.tweetId <$> new `sublist_of` (Some <$> timeline)).
Proof.
  split; intros w w' Hrun.
  - destruct (timelineLoop_errors _ tweets (index_eventsTransform_steps load)
                _ _ _ _ _ Hrun) as (new & He & Hc & Hs & _).
    by exists new.
  - destruct (timelineLoop_errors _ tweets
                (index_bulletinsTransform_steps load newURL)
                _ _ _ _ _ Hrun) as (new & He & Hc & Hs & _).
    by exists new.
Qed.

Lemma errors_mirror_console_witness :
  exists new,
    errors sampleState = [] ++ new /\
    console sampleWorld =
      [] ++ map (fun d => console_error [ArgDescriptor d]) new /\
    Descriptor.tweetId <$> new `sublist_of` (Some <$> sampleTimeline).
Proof.
  apply (proj1 (errors_mirror_console sampleYaml sampleURL sampleTweets
                  sampleTimeline (Collection [] [] createHash None)
                  sampleState)
           (World [] []) sampleWorld).
  apply sampleRun_eq.
Defined.

(** X7.  Every post of a bulletins collection ends as one record or as one
    error: when the loop returns, dataset and errors together have grown by
    the length of the timeline.  In an events collection they have grown by
    at most that, the difference being the continuations that were
    merged. *)
Theorem posts_accounted_for
    (load : string -> loaded) (newURL : jsval -> bool)
    (tweets : gmap string tweetObject) (timeline : list string)
    (state state' : collection) :
  (forall w w' : world Bulletin.t,
     timelineLoop
       (fun tweetId tweetText _ =>
          Index.bulletinsTransform load newURL tweetId tweetText)
       tweets timeline state w = (w', Return state') ->
     length (dataset state') + length (errors state') =
     length (dataset state) + length (errors state) + length timeline) /\
  (forall w w' : world Event.t,
     timelineLoop (Index.eventsTransform load) tweets timeline state w =
       (w', Return state') ->
     length (dataset state') + length (errors state') <=
     length (dataset state) + length (errors state) + length timeline).
Proof.
  split.
  - revert state. induction timeline as [|tweetId rest IH]; intros state w w'.
    + intros [= <- <-]. simpl. lia.
    + simpl. unfold bind.
      destruct (iteration _ tweets state tweetId w)
        as [w1 [state1|e]] eqn:Hstep; [|done].
      intros Hloop. rewrite (IH _ _ _ Hloop).
      unfold iteration in Hstep.
      destruct (tweets !! tweetId) as [[text links]|]; [|done].
      unfold bind in Hstep.
      destruct (bulletinsTransform_shape load newURL tweetId
                  (tweetTextExpandedLinks text links) w)
        as (w2 & r & Hr & [[e ->]|[d ->]]);
        rewrite Hr in Hstep; injection Hstep as <- <-; simpl;
        rewrite length_app; simpl; lia.
  - intros w w' Hrun.
    destruct (timelineLoop_errors _ tweets (index_eventsTransform_steps load)
                _ _ _ _ _ Hrun) as (new & _ & _ & _ & Hn & _).
    done.
Qed.

(** One bulletin that is a record and one that is an error. *)
Lemma posts_accounted_for_witness :
  length [0] +
  length [describe (TypeError (Message "Bulletin link missing or invalid"))
                   (Some "22")] =
  length (dataset (Collection [] [] createHash None)) +
  length (errors (Collection [] [] createHash None)) +
  length ["21"; "22"].
Proof.
  apply (proj1 (posts_accounted_for sampleBulletinYaml sampleURL
                  (list_to_map
                     [("21", post sampleBulletinText);
                      ("22", post ("date: May 31" +:+ LF +:+ "title: C" +:+
                                   LF +:+ "link: not-a-url"))])
                  ["21"; "22"] (Collection [] [] createHash None)
                  (Collection
                     [0]
                     [describe (TypeError
                                  (Message "Bulletin link missing or invalid"))
                               (Some "22")]
                     [sampleBulletinText;
                      "date: May 31" +:+ LF +:+ "title: C" +:+ LF +:+
                      "link: not-a-url"]
                     None))
           (World [] [])
           (World [bulletinOf sampleBulletin]
                  [console_error
                     [ArgDescriptor
                        (describe (TypeError
                                     (Message
                                        "Bulletin link missing or invalid"))
                                  (Some "22"))]])).
  vm_compute. reflexivity.
Defined.

(** ** Records only grow *)

Lemma extended_refl e : extended e e.
Proof.
  repeat split. exists EmptyString. by rewrite append_nil_r.
Qed.

Lemma extended_trans e1 e2 e3 :
  extended e1 e2 -> extended e2 e3 -> extended e1 e3.
Proof.
  intros (? & ? & ? & ? & ? & s1 & Hs1) (? & ? & ? & ? & ? & s2 & Hs2).
  repeat split; try congruence.
  exists (s1 +:+ s2). by rewrite Hs2, Hs1, append_assoc.
Qed.

Lemma eventsTransform_extends load tweetId tweetText last
    (w w' : world Event.t) r i e :
  Index.eventsTransform load tweetId tweetText last w = (w', Return r) ->
  heap w !! i = Some e ->
  exists e', heap w' !! i = Some e' /\ extended e e'.
Proof.
  rewrite eventsTransform_resolve. intros Hrun Hi.
  destruct (parseEvent (load tweetText)) as [record|descriptive|err];
    simpl in Hrun.
  - injection Hrun as <- <-. exists e. split; [|apply extended_refl].
    simpl. by apply lookup_app_l_Some.
  - destruct last as [l|]; simpl in Hrun; injection Hrun as <- <-; simpl.
    + destruct (decide (l = i)) as [->|Hne].
      * rewrite list_lookup_alter_eq, Hi. simpl. eexists. split; [done|].
        repeat split. simpl. eauto.
      * rewrite list_lookup_alter_ne by done. exists e.
        split; [done|apply extended_refl].
    + exists e. split; [done|apply extended_refl].
  - injection Hrun as <- <-. exists e. split; [done|apply extended_refl].
Qed.

(** X8.  In a collection of events no post removes a record or changes a
    field a record was made with: when the loop returns, every record that
    was in the store is still there under the same reference, with the
    title, subtitle, color, location and times it had, and a descriptive
    text that starts with the text it had. *)
Theorem records_only_grow
    (load : string -> loaded) (tweets : gmap string tweetObject)
    (timeline : list string) (state state' : collection)
    (w w' : world Event.t) (i : ref) (e : Event.t) :
  timelineLoop (Index.eventsTransform load) tweets timeline state w =
    (w', Return state') ->
  heap w !! i = Some e ->
  exists e', heap w' !! i = Some e' /\ extended e e'.
Proof.
  revert state w e. induction timeline as [|tweetId rest IH];
    intros state w e.
  - intros [= <- <-] Hi. exists e. split; [done|apply extended_refl].
  - simpl. unfold bind.
    destruct (iteration _ tweets state tweetId w)
      as [w1 [state1|err]] eqn:Hstep; [|done].
    intros Hloop Hi. unfold iteration in Hstep.
    destruct (tweets !! tweetId) as [[text links]|]; [|done].
    unfold bind in Hstep.
    destruct (Index.eventsTransform load tweetId _ _ w)
      as [w2 [r|err]] eqn:Hrun; [|done].
    injection Hstep as <- <-.
    destruct (eventsTransform_extends _ _ _ _ _ _ _ _ _ Hrun Hi)
      as (e1 & Hi1 & Hext1).
    destruct (IH _ _ _ Hloop Hi1) as (e' & Hi' & Hext').
    exists e'. split; [done|]. by eapply extended_trans.
Qed.

(** The record of the examples, from the second post on. *)
Lemma records_only_grow_witness :
  exists e',
    heap sampleWorld !! 0 = Some e' /\
    extended (Event.mk (VString "A") VUndefined VUndefined VUndefined
                       (VArray []) "see https://example.org/x") e'.
Proof.
  apply (records_only_grow sampleYaml sampleTweets ["12"; "13"; "14"]
           (Collection [0] [] [ "title: A" +:+ LF +:+ "desc: see t.co/x" ]
                       (Some 0))
           sampleState
           (World [Event.mk (VString "A") VUndefined VUndefined VUndefined
                            (VArray []) "see https://example.org/x"] [])
           sampleWorld 0).
  - vm_compute. reflexivity.
  - reflexivity.
Defined.

(** ** Runs of continuations *)

Lemma concat_cons (x : string) (l : list string) :
  String.concat EmptyString (x :: l) = x +:+ String.concat EmptyString l.
Proof. destruct l; simpl; [by rewrite append_nil_r|done]. Qed.

Lemma eventsTransform_merge load tweetId tweetText doc descriptive last
    (w : world Event.t) :
  load tweetText = Document doc ->
  continuationCandidate doc descriptive ->
  Index.eventsTransform load tweetId tweetText (Some last) w =
  (World (alter (fun r => withDescriptive
                            (Event.descriptive r +:+
                               (LF +:+ LF) +:+ descriptive) r)
                last (heap w))
         (console w),
   Return (Result None (Some last) None)).
Proof.
  intros Hload Hcand.
  rewrite eventsTransform_resolve, Hload, (parseEvent_candidate _ _ Hcand).
  destruct Hcand as (_ & raw & _ & _ & Hne).
  simpl. unfold merged. by rewrite (nonEmpty_true _ Hne).
Qed.

(** X9.  Continuations accumulate: a run of continuation posts that follows
    a primary appends each one's descriptive text to the primary's, in
    timeline order, every one after a blank line.  The run adds nothing to
    the dataset, the errors or the console, touches no other record, and
    leaves the pointer on the primary. *)
Theorem continuations_accumulate
    (load : string -> loaded) (tweets : gmap string tweetObject)
    (timeline : list string) (posts : list tweetObject)
    (texts : list string) (state : collection) (w : world Event.t)
    (last : ref) (primary : Event.t) :
  lastNonContinuationElement state = Some last ->
  heap w !! last = Some primary ->
  resolved tweets timeline posts ->
  continuations load posts texts ->
  exists w' state',
    timelineLoop (Index.eventsTransform load) tweets timeline state w =
      (w', Return state') /\
    heap w' !! last =
      Some (withDescriptive
              (Event.descriptive primary +:+
                 String.concat EmptyString
                   (map (fun text => LF +:+ LF +:+ text) texts))
              primary) /\
    (forall other, other <> last -> heap w' !! other = heap w !! other) /\
    dataset state' = dataset state /\
    errors state' = errors state /\
    lastNonContinuationElement state' = Some last /\
    console w' = console w.
Proof.
  intros Hlast Hprimary Hres Hconts.
  revert texts state w primary Hlast Hprimary Hconts.
  induction Hres as [|tweetId post timeline posts Hpost _ IH];
    intros texts state w primary Hlast Hprimary Hconts.
  - inversion Hconts; subst. exists w, state. simpl.
    rewrite append_nil_r. by destruct primary.
  - inversion Hconts as [|? text ? texts' (doc & Hload & Hcand) Hrest];
      subst.
    cbn [map]. rewrite concat_cons.
    simpl. unfold bind.
    rewrite (iteration_found _ _ _ _ _ _ Hpost), Hlast,
      (eventsTransform_merge _ _ _ _ _ _ _ Hload Hcand).
    simpl.
    destruct (IH texts'
                (Collection (dataset state) (errors state)
                            (update (hash state) (full_text post))
                            (Some last))
                (World (alter (fun r => withDescriptive
                                          (Event.descriptive r +:+
                                             (LF +:+ LF) +:+ text) r)
                              last (heap w))
                       (console w))
                (withDescriptive
                   (Event.descriptive primary +:+ (LF +:+ LF) +:+ text)
                   primary))
      as (w' & state' & Hloop & Hheap & Hother & Hd & He & Hl & Hc);
      [done| |done|].
    { simpl. by rewrite list_lookup_alter_eq, Hprimary. }
    exists w', state'. split; [exact Hloop|].
    split.
    { rewrite Hheap. simpl. by rewrite !append_assoc. }
    split.
    { intros other Hne. rewrite (Hother other Hne). simpl.
      by rewrite list_lookup_alter_ne. }
    done.
Qed.

(** The primary of the examples followed by two continuations. *)
Lemma continuations_accumulate_witness :
  exists w' state',
    timelineLoop (Index.eventsTransform sampleYaml)
      (list_to_map [("2", post "desc: world"); ("3", post "desc: orphan")])
      ["2"; "3"]
      (Collection [0] [] ["title: A"] (Some 0))
      (World [Event.mk (VString "A") VUndefined VUndefined VUndefined
                       (VArray []) EmptyString] []) =
      (w', Return state') /\
    heap w' !! 0 =
      Some (Event.mk (VString "A") VUndefined VUndefined VUndefined
                     (VArray [])
                     (LF +:+ LF +:+ "world" +:+ LF +:+ LF +:+ "orphan")) /\
    (forall other, other <> 0 ->
       heap w' !! other =
       [Event.mk (VString "A") VUndefined VUndefined VUndefined
                 (VArray []) EmptyString] !! other) /\
    dataset state' = [0] /\
    errors state' = [] /\
    lastNonContinuationElement state' = Some 0 /\
    console w' = [].
Proof.
  apply (continuations_accumulate sampleYaml
           (list_to_map [("2", post "desc: world"); ("3", post "desc: orphan")])
           ["2"; "3"] [post "desc: world"; post "desc: orphan"]
           ["world"; "orphan"]
           (Collection [0] [] ["title: A"] (Some 0))
           (World [Event.mk (VString "A") VUndefined VUndefined VUndefined
                            (VArray []) EmptyString] [])
           0
           (Event.mk (VString "A") VUndefined VUndefined VUndefined
                     (VArray []) EmptyString)).
  - reflexivity.
  - reflexivity.
  - repeat constructor.
  - constructor; [|constructor; [|constructor]].
    + exists (VObject [("desc", VString "world")]). split; [reflexivity|].
      split; [reflexivity|]. exists "world".
      split; [reflexivity|split; [reflexivity|done]].
    + exists (VObject [("desc", VString "orphan")]). split; [reflexivity|].
      split; [reflexivity|]. exists "orphan".
      split; [reflexivity|split; [reflexivity|done]].
Defined.

(** ** The refactoring of the successor revision *)

(** X10.  The successor's [eventsTransform], with the continuation moved to
    [handleContinuation] and the catch block to [prepare], does what
    [src/index.js]'s does on every input: same result, same store, same
    console.  Its [bulletinsTransform] makes the same record of every
    document that [src/index.js]'s makes one of, and rejects the same
    documents with the same category, type, reason and mark - but, calling
    [prepare(error)] without the id, with no tweet id in the descriptor. *)
Theorem successor_keeps_behaviour
    (load : string -> loaded) (newURL : jsval -> bool)
    (tweetId tweetText : string) :
  (forall last (w : world Event.t),
     Successor.eventsTransform load tweetId tweetText last w =
     Index.eventsTransform load tweetId tweetText last w) /\
  (forall w : world Bulletin.t,
     (exists record,
        Index.bulletinsTransform load newURL tweetId tweetText w =
          (World (heap w ++ [record]) (console w),
           Return (Result (Some (length (heap w))) None None)) /\
        Successor.bulletinsTransform load newURL tweetId tweetText w =
          (World (heap w ++ [record]) (console w),
           Return (Result (Some (length (heap w))) None None))) \/
     (exists e,
        Index.bulletinsTransform load newURL tweetId tweetText w =
          failed e (Some tweetId) w /\
        Successor.bulletinsTransform load newURL tweetId tweetText w =
          failed e None w /\
        Descriptor.tweetId (describe e (Some tweetId)) = Some tweetId /\
        Descriptor.tweetId (describe e None) = None /\
        Descriptor.error (describe e None) =
          Descriptor.error (describe e (Some tweetId)) /\
        Descriptor.type (describe e None) =
          Descriptor.type (describe e (Some tweetId)) /\
        Descriptor.reason (describe e None) =
          Descriptor.reason (describe e (Some tweetId)) /\
        Descriptor.mark (describe e None) =
          Descriptor.mark (describe e (Some tweetId)))).
Proof.
  split; [done|]. intros w.
  rewrite bulletinsTransform_resolve, successor_bulletinsTransform_resolve.
  destruct (parseBulletin newURL (load tweetText)) as [e|record].
  - right. exists e. by destruct e.
  - left. by exists record.
Qed.

(** ** How an invocation ends *)

Lemma resolved_not_missing tweets timeline posts :
  resolved (default ∅ tweets) (default [] timeline) posts ->
  ~ missing tweets timeline.
Proof.
  unfold missing. induction 1 as [|tweetId post timeline' posts Hpost _ IH].
  - by intros ?%Exists_nil.
  - intros [Hnone|Hrest]%Exists_cons; [congruence|by apply IH].
Qed.

Section LoopOutcome.

Context {R : Type}.
Variable transform : string -> string -> option ref -> M R result.
Variable tweets : gmap string tweetObject.
Hypothesis transform_returns : returns transform.

(** The loop ends in one of two ways: it returns, every id having an entry,
    or the destructuring of a missing entry throws. *)
Lemma timelineLoop_outcome timeline state (w : world R) :
  (Forall (fun tweetId => is_Some (tweets !! tweetId)) timeline /\
   exists w' state',
     timelineLoop transform tweets timeline state w = (w', Return state')) \/
  (Exists (fun tweetId => tweets !! tweetId = None) timeline /\
   exists w',
     timelineLoop transform tweets timeline state w =
     (w', Throw (TypeError (EngineMessage NotDestructurable)))).
Proof.
  revert state w. induction timeline as [|tweetId rest IH]; intros state w.
  - left. split; [constructor|]. by exists w, state.
  - simpl. unfold bind.
    destruct (tweets !! tweetId) as [post|] eqn:Hpost.
    + destruct (iteration_returns transform tweets transform_returns
                  state tweetId post w Hpost) as (w1 & r & _ & ->).
      destruct (IH (Collection (push (dataset state) (element r))
                               (push (errors state) (errorDescriptor r))
                               (update (hash state) (full_text post))
                               (lastNonContinuation r)) w1)
        as [[Hall Hrun]|[Hsome Hrun]].
      * left. split; [|exact Hrun]. constructor; [by rewrite Hpost|done].
      * right. split; [by apply Exists_cons_tl|exact Hrun].
    + right. split; [by apply Exists_cons_hd|].
      exists w. unfold iteration. by rewrite Hpost.
Qed.

End LoopOutcome.

Lemma collectionLoop_outcome {R}
    (transform : string -> string -> option ref -> M R result)
    timeline tweets out :
  returns transform ->
  (~ missing tweets timeline /\
   exists out' c, collectionLoop transform timeline tweets out =
                  (out', Return c)) \/
  (missing tweets timeline /\
   exists out', collectionLoop transform timeline tweets out =
                (out', Throw (TypeError (EngineMessage NotDestructurable)))).
Proof.
  intros Hret. unfold collectionLoop, missing.
  destruct (timelineLoop_outcome transform (default ∅ tweets) Hret
              (default [] timeline) (Collection [] [] createHash None)
              (World [] out))
    as [[Hall (w' & state' & ->)]|[Hsome (w' & ->)]].
  - left. split; [|eauto].
    intros Hsome. apply Exists_exists in Hsome as (tweetId & Hin & Hnone).
    rewrite Forall_forall in Hall. specialize (Hall tweetId Hin).
    rewrite Hnone in Hall. by destruct Hall.
  - right. eauto.
Qed.

Ltac settle store :=
  unfold settled;
  repeat match goal with
         | |- context [store ?request] =>
             let Hstore := fresh "Hstore" in
             destruct (store request) eqn:Hstore
         end;
  simpl;
  (split; [lia|]); (split; [by repeat constructor|]);
  first [ by eauto
        | by intros ? ?%elem_of_nil
        | intros ? ->%list_elem_of_singleton; eauto ].

Ltac ended :=
  simpl; (split; [lia|]); (split; [constructor|]);
  (split; [reflexivity|]); (split; [reflexivity|]); auto 6.

Lemma index_publish_settled md5 stringify base64 store input out
    regular special bulletin :
  settled store (Index.generatedContentSha1 input)
          (Index.publish md5 stringify base64 store input out
                         regular special bulletin).
Proof.
  unfold Index.publish.
  destruct (_ || _ || _); settle store.
Qed.

Lemma successor_publish_settled md5 stringify base64 store input out
    announcement regular special bulletin :
  settled store (Successor.generatedContentSha1 input)
          (Successor.publish md5 stringify base64 store input out
                             announcement regular special bulletin).
Proof.
  unfold Successor.publish.
  destruct (_ || _ || _ || _ || _); [destruct (negb _)|]; settle store.
Qed.

(** From the first loop on, in [src/index.js]. *)
Lemma index_agent_outcome
    (load : string -> loaded) (newURL : jsval -> bool)
    (md5 : string -> string) (base64 : string -> string)
    (store : Commit.t -> rejection + string) :
  forall stringify input,
  let run := Index.agent load newURL md5 stringify base64 store input in
  length (requests run) <= 1 /\
  Forall (fun request =>
            Commit.sha request = Index.generatedContentSha1 input)
         (requests run) /\
  match caught run with
  | None =>
      forall request, request ∈ requests run ->
                      exists commit, store request = inr commit
  | Some (Rejected r) =>
      exists request, requests run = [request] /\ store request = inl r
  | Some (Thrown e) =>
      e = TypeError (EngineMessage NotDestructurable) /\
      requests run = [] /\
      (missing (Index.regularEventsTweets input)
               (Index.regularEventsTimeline input) \/
       missing (Index.specialEventsTweets input)
               (Index.specialEventsTimeline input) \/
       missing (Index.bulletinsTweets input)
               (Index.bulletinsTimeline input))
  end.
Proof.
  intros stringify input run; subst run.
  unfold Index.agent.
  destruct (collectionLoop_outcome (Index.eventsTransform load)
              (Index.regularEventsTimeline input)
              (Index.regularEventsTweets input) []
              (index_eventsTransform_returns load))
    as [[_ (out1 & regular & ->)]|[Hmiss (out1 & ->)]];
    [|by ended].
  destruct (collectionLoop_outcome (Index.eventsTransform load)
              (Index.specialEventsTimeline input)
              (Index.specialEventsTweets input) out1
              (index_eventsTransform_returns load))
    as [[_ (out2 & special & ->)]|[Hmiss (out2 & ->)]];
    [|by ended].
  destruct (collectionLoop_outcome _
              (Index.bulletinsTimeline input)
              (Index.bulletinsTweets input) out2
              (index_bulletinsTransform_returns load newURL))
    as [[_ (out3 & bulletin & ->)]|[Hmiss (out3 & ->)]];
    [|by ended].
  destruct (index_publish_settled md5 stringify base64 store input
              out3 regular special bulletin) as (Hlen & Hsha & Hend).
  split; [done|]. split; [done|].
  by destruct (caught _) as [[e|r]|].
Qed.

(** From the first loop on, in the successor. *)
Lemma successor_agent_outcome
    (load : string -> loaded) (newURL : jsval -> bool)
    (md5 : string -> string) (base64 : string -> string)
    (store : Commit.t -> rejection + string) :
  forall stringify input,
  let run :=
    Successor.agent load newURL md5 stringify base64 store input in
  length (requests run) <= 1 /\
  Forall (fun request =>
            Commit.sha request = Successor.generatedContentSha1 input)
         (requests run) /\
  match caught run with
  | None =>
      forall request, request ∈ requests run ->
                      exists commit, store request = inr commit
  | Some (Rejected r) =>
      exists request, requests run = [request] /\ store request = inl r
  | Some (Thrown e) =>
      e = TypeError (EngineMessage NotDestructurable) /\
      requests run = [] /\
      (missing (Successor.announcementsTweets input)
               (Successor.announcementsTimeline input) \/
       missing (Successor.regularEventsTweets input)
               (Successor.regularEventsTimeline input) \/
       missing (Successor.specialEventsTweets input)
               (Successor.specialEventsTimeline input) \/
       missing (Successor.bulletinsTweets input)
               (Successor.bulletinsTimeline input))
  end.
Proof.
  intros stringify input run; subst run.
  unfold Successor.agent.
  destruct (collectionLoop_outcome (Successor.announcementsTransform load)
              (Successor.announcementsTimeline input)
              (Successor.announcementsTweets input) []
              (successor_announcementsTransform_returns load))
    as [[_ (out0 & announcement & ->)]|[Hmiss (out0 & ->)]];
    [|by ended].
  destruct (collectionLoop_outcome (Successor.eventsTransform load)
              (Successor.regularEventsTimeline input)
              (Successor.regularEventsTweets input) out0
              (index_eventsTransform_returns load))
    as [[_ (out1 & regular & ->)]|[Hmiss (out1 & ->)]];
    [|by ended].
  destruct (collectionLoop_outcome (Successor.eventsTransform load)
              (Successor.specialEventsTimeline input)
              (Successor.specialEventsTweets input) out1
              (index_eventsTransform_returns load))
    as [[_ (out2 & special & ->)]|[Hmiss (out2 & ->)]];
    [|by ended].
  destruct (collectionLoop_outcome _
              (Successor.bulletinsTimeline input)
              (Successor.bulletinsTweets input) out2
              (successor_bulletinsTransform_returns load newURL))
    as [[_ (out3 & bulletin & ->)]|[Hmiss (out3 & ->)]];
    [|by ended].
  destruct (successor_publish_settled md5 stringify base64 store input
              out3 announcement regular special bulletin)
    as (Hlen & Hsha & Hend).
  split; [done|]. split; [done|].
  by destruct (caught _) as [[e|r]|].
Qed.

(** X11.  However an invocation goes, from the first line of its [try], it
    sends the content store at most one request, and that one under the
    version token it read.  It ends in one of four ways.  A call or a
    statement before the first loop rejects or throws: the top-level catch
    receives that failure, logs the banner and the failure, and nothing
    was sent.  A loop throws: then it is the [TypeError] of destructuring an
    entry the lookup table does not have, some timeline names a post that
    is missing, and nothing was sent.  The store rejects the request: the
    rejection is what the top-level catch receives, after the one request.
    Or it runs to its end: then the store accepted what was sent, if
    anything. *)
Theorem invocation_sends_at_most_one_request
    (load : string -> loaded) (newURL : jsval -> bool)
    (md5 : string -> string) (base64 : string -> string)
    (store : Commit.t -> rejection + string) :
  (forall stringify fetches,
     let run :=
       Invocation.index load newURL md5 base64 store stringify fetches in
     length (requests run) <= 1 /\
     (forall input,
        fetches = inr input ->
        Forall (fun request =>
                  Commit.sha request = Index.generatedContentSha1 input)
               (requests run)) /\
     (forall error,
        fetches = inl error -> run = topLevelCatch [] [] error) /\
     match caught run with
     | None =>
         (exists input, fetches = inr input) /\
         forall request, request ∈ requests run ->
                         exists commit, store request = inr commit
     | Some (Rejected r) =>
         (fetches = inl (Rejected r) /\ requests run = []) \/
         (exists input request,
            fetches = inr input /\
            requests run = [request] /\ store request = inl r)
     | Some (Thrown e) =>
         requests run = [] /\
         (fetches = inl (Thrown e) \/
          exists input,
            fetches = inr input /\
            e = TypeError (EngineMessage NotDestructurable) /\
            (missing (Index.regularEventsTweets input)
                     (Index.regularEventsTimeline input) \/
             missing (Index.specialEventsTweets input)
                     (Index.specialEventsTimeline input) \/
             missing (Index.bulletinsTweets input)
                     (Index.bulletinsTimeline input)))
     end) /\
  (forall stringify fetches,
     let run :=
       Invocation.successor load newURL md5 base64 store stringify fetches in
     length (requests run) <= 1 /\
     (forall input,
        fetches = inr input ->
        Forall (fun request =>
                  Commit.sha request = Successor.generatedContentSha1 input)
               (requests run)) /\
     (forall error,
        fetches = inl error -> run = topLevelCatch [] [] error) /\
     match caught run with
     | None =>
         (exists input, fetches = inr input) /\
         forall request, request ∈ requests run ->
                         exists commit, store request = inr commit
     | Some (Rejected r) =>
         (fetches = inl (Rejected r) /\ requests run = []) \/
         (exists input request,
            fetches = inr input /\
            requests run = [request] /\ store request = inl r)
     | Some (Thrown e) =>
         requests run = [] /\
         (fetches = inl (Thrown e) \/
          exists input,
            fetches = inr input /\
            e = TypeError (EngineMessage NotDestructurable) /\
            (missing (Successor.announcementsTweets input)
                     (Successor.announcementsTimeline input) \/
             missing (Successor.regularEventsTweets input)
                     (Successor.regularEventsTimeline input) \/
             missing (Successor.specialEventsTweets input)
                     (Successor.specialEventsTimeline input) \/
             missing (Successor.bulletinsTweets input)
                     (Successor.bulletinsTimeline input)))
     end).
Proof.
  split; intros stringify [error|input] run; subst run;
    cbn [Invocation.index Invocation.successor].
  - split; [simpl; lia|]. split; [done|]. split; [by intros ? [= <-]|].
    destruct error as [e|r]; simpl; [by split; [|left]|by left].
  - destruct (index_agent_outcome load newURL md5 base64 store stringify
                input) as (Hlen & Hsha & Hend).
    split; [done|]. split; [by intros ? [= <-]|]. split; [done|].
    destruct (caught _) as [[e|r]|].
    + destruct Hend as (-> & Hnone & Hmiss). split; [done|]. right.
      by exists input.
    + destruct Hend as (request & Hone & Hstore). right.
      by exists input, request.
    + split; [by exists input|done].
  - split; [simpl; lia|]. split; [done|]. split; [by intros ? [= <-]|].
    destruct error as [e|r]; simpl; [by split; [|left]|by left].
  - destruct (successor_agent_outcome load newURL md5 base64 store stringify
                input) as (Hlen & Hsha & Hend).
    split; [done|]. split; [by intros ? [= <-]|]. split; [done|].
    destruct (caught _) as [[e|r]|].
    + destruct Hend as (-> & Hnone & Hmiss). split; [done|]. right.
      by exists input.
    + destruct Hend as (request & Hone & Hstore). right.
      by exists input, request.
    + split; [by exists input|done].
Qed.

(** X12.  A timeline that names a post missing from its lookup table ends
    the invocation: the destructuring of the missing entry throws outside
    every transform's [try], the top-level catch logs the banner and the
    [TypeError], and nothing is sent to the content store - also nothing of
    the collections whose loops had run to their end. *)
Theorem missing_post_ends_invocation
    (load : string -> loaded) (newURL : jsval -> bool)
    (md5 : string -> string) (base64 : string -> string)
    (store : Commit.t -> rejection + string) :
  (forall stringify input,
     missing (Index.regularEventsTweets input)
             (Index.regularEventsTimeline input) \/
     missing (Index.specialEventsTweets input)
             (Index.specialEventsTimeline input) \/
     missing (Index.bulletinsTweets input)
             (Index.bulletinsTimeline input) ->
     exists out,
       Index.agent load newURL md5 stringify base64 store input =
       Effects
         (out ++ errorBanner (TypeError (EngineMessage NotDestructurable)))
         []
         (Some (Thrown (TypeError (EngineMessage NotDestructurable))))) /\
  (forall stringify input,
     missing (Successor.announcementsTweets input)
             (Successor.announcementsTimeline input) \/
     missing (Successor.regularEventsTweets input)
             (Successor.regularEventsTimeline input) \/
     missing (Successor.specialEventsTweets input)
             (Successor.specialEventsTimeline input) \/
     missing (Successor.bulletinsTweets input)
             (Successor.bulletinsTimeline input) ->
     exists out,
       Successor.agent load newURL md5 stringify base64 store input =
       Effects
         (out ++ errorBanner (TypeError (EngineMessage NotDestructurable)))
         []
         (Some (Thrown (TypeError (EngineMessage NotDestructurable))))).
Proof.
  split; intros stringify input Hmissing.
  - unfold Index.agent.
    destruct (collectionLoop_outcome (Index.eventsTransform load)
                (Index.regularEventsTimeline input)
                (Index.regularEventsTweets input) []
                (index_eventsTransform_returns load))
      as [[HR (out1 & regular & ->)]|[_ (out1 & ->)]];
      [|by exists out1].
    destruct (collectionLoop_outcome (Index.eventsTransform load)
                (Index.specialEventsTimeline input)
                (Index.specialEventsTweets input) out1
                (index_eventsTransform_returns load))
      as [[HS (out2 & special & ->)]|[_ (out2 & ->)]];
      [|by exists out2].
    destruct (collectionLoop_outcome _
                (Index.bulletinsTimeline input)
                (Index.bulletinsTweets input) out2
                (index_bulletinsTransform_returns load newURL))
      as [[HB (out3 & bulletin & ->)]|[_ (out3 & ->)]];
      [|by exists out3].
    by destruct Hmissing as [?|[?|?]].
  - unfold Successor.agent.
    destruct (collectionLoop_outcome (Successor.announcementsTransform load)
                (Successor.announcementsTimeline input)
                (Successor.announcementsTweets input) []
                (successor_announcementsTransform_returns load))
      as [[HA (out0 & announcement & ->)]|[_ (out0 & ->)]];
      [|by exists out0].
    destruct (collectionLoop_outcome (Successor.eventsTransform load)
                (Successor.regularEventsTimeline input)
                (Successor.regularEventsTweets input) out0
                (index_eventsTransform_returns load))
      as [[HR (out1 & regular & ->)]|[_ (out1 & ->)]];
      [|by exists out1].
    destruct (collectionLoop_outcome (Successor.eventsTransform load)
                (Successor.specialEventsTimeline input)
                (Successor.specialEventsTweets input) out1
                (index_eventsTransform_returns load))
      as [[HS (out2 & special & ->)]|[_ (out2 & ->)]];
      [|by exists out2].
    destruct (collectionLoop_outcome _
                (Successor.bulletinsTimeline input)
                (Successor.bulletinsTweets input) out2
                (successor_bulletinsTransform_returns load newURL))
      as [[HB (out3 & bulletin & ->)]|[_ (out3 & ->)]];
      [|by exists out3].
    by destruct Hmissing as [?|[?|[?|?]]].
Qed.

(** The second id of the timeline has no entry. *)
Lemma missing_post_ends_invocation_witness :
  exists out,
    Index.agent sampleYaml sampleURL sampleDigest (fun _ => "{}") id
                sampleStore sampleGap =
    Effects
      (out ++ errorBanner (TypeError (EngineMessage NotDestructurable)))
      []
      (Some (Thrown (TypeError (EngineMessage NotDestructurable)))).
Proof.
  apply (proj1 (missing_post_ends_invocation sampleYaml sampleURL
                  sampleDigest id sampleStore)
           (fun _ => "{}") sampleGap).
  left. apply Exists_cons_tl, Exists_cons_hd. reflexivity.
Defined.

(** ** What is committed *)

Lemma differs_true (stored : jsval) (computed : string) :
  differs stored computed = true <-> stored <> VString computed.
Proof.
  destruct stored as [| |s| | |]; simpl; try (split; [done|reflexivity]).
  rewrite negb_true_iff, String.eqb_neq. split; [congruence|].
  intros Hne ->. by apply Hne.
Qed.

Lemma differs_false (stored : jsval) (computed : string) :
  differs stored computed = false <-> stored = VString computed.
Proof.
  destruct stored as [| |s| | |]; simpl; try (split; discriminate).
  rewrite negb_false_iff, String.eqb_eq. split; congruence.
Qed.

Ltac sublabels :=
  repeat first [ apply sublist_nil_l | apply sublist_skip
               | apply sublist_cons ].

(** The labels pushed for three flags. *)
Lemma pushIf_three (bR bS bB : bool) :
  let labels := pushIf bR "regular events" ++
                pushIf bS "special events" ++
                pushIf bB "bulletins" in
  labels `sublist_of` [ "regular events"; "special events"; "bulletins" ] /\
  ("regular events" ∈ labels <-> bR = true) /\
  ("special events" ∈ labels <-> bS = true) /\
  ("bulletins" ∈ labels <-> bB = true).
Proof.
  destruct bR, bS, bB; cbn [pushIf app];
    (split; [sublabels|]); repeat split; try done;
    try solve [ intros _; repeat first [ apply list_elem_of_here
                                       | apply list_elem_of_further ] ];
    intros Hin;
    repeat (apply elem_of_cons in Hin as [Hin|Hin]; [discriminate|]);
    by apply elem_of_nil in Hin.
Qed.

Lemma pushIf_four (bA bR bS bB : bool) :
  let labels := pushIf bA "announcements" ++
                pushIf bR "regular events" ++
                pushIf bS "special events" ++
                pushIf bB "bulletins" in
  labels `sublist_of`
    [ "announcements"; "regular events"; "special events"; "bulletins" ] /\
  ("announcements" ∈ labels <-> bA = true) /\
  ("regular events" ∈ labels <-> bR = true) /\
  ("special events" ∈ labels <-> bS = true) /\
  ("bulletins" ∈ labels <-> bB = true).
Proof.
  destruct bA, bR, bS, bB; cbn [pushIf app];
    (split; [sublabels|]); repeat split; try done;
    try solve [ intros _; repeat first [ apply list_elem_of_here
                                       | apply list_elem_of_further ] ];
    intros Hin;
    repeat (apply elem_of_cons in Hin as [Hin|Hin]; [discriminate|]);
    by apply elem_of_nil in Hin.
Qed.

(** X13.  In [src/index.js], over timelines that resolve: the invocation
    sends nothing exactly when each of the three stored digests is the
    digest computed for its collection.  Otherwise its request holds the
    version token that was read and the encoded JSON of a content whose
    digests are the three computed ones, in the order regular events,
    special events, bulletins; its message lists, in that order, exactly
    the collections whose stored digest is not the computed one; and, when
    the store accepts, the last line logged names the first seven
    characters of the commit and the same list. *)
Theorem changed_collections_are_committed
    (load : string -> loaded) (newURL : jsval -> bool)
    (md5 : string -> string) (stringify : Index.generatedContent -> string)
    (base64 : string -> string) (store : Commit.t -> rejection + string)
    (input : Index.fetched) (postsR postsS postsB : list tweetObject) :
  resolved (default ∅ (Index.regularEventsTweets input))
           (default [] (Index.regularEventsTimeline input)) postsR ->
  resolved (default ∅ (Index.specialEventsTweets input))
           (default [] (Index.specialEventsTimeline input)) postsS ->
  resolved (default ∅ (Index.bulletinsTweets input))
           (default [] (Index.bulletinsTimeline input)) postsB ->
  let run := Index.agent load newURL md5 stringify base64 store input in
  let dR := digest md5 (map full_text postsR) in
  let dS := digest md5 (map full_text postsS) in
  let dB := digest md5 (map full_text postsB) in
  (requests run = [] <->
     Index.regularEventsTimelineDigest input = VString dR /\
     Index.specialEventsTimelineDigest input = VString dS /\
     Index.bulletinsTimelineDigest input = VString dB) /\
  forall request,
    request ∈ requests run ->
    Commit.sha request = Index.generatedContentSha1 input /\
    (exists content,
       Commit.content request = base64 (stringify content) /\
       Index.digests content = [ dR; dS; dB ]) /\
    exists labels,
      Commit.message request =
        "Generated content data: Updates in " +:+
        String.concat ", " labels /\
      labels `sublist_of`
        [ "regular events"; "special events"; "bulletins" ] /\
      ("regular events" ∈ labels <->
         Index.regularEventsTimelineDigest input <> VString dR) /\
      ("special events" ∈ labels <->
         Index.specialEventsTimelineDigest input <> VString dS) /\
      ("bulletins" ∈ labels <->
         Index.bulletinsTimelineDigest input <> VString dB) /\
      forall commit,
        store request = inr commit ->
        caught run = None /\
        last (consoleOut run) =
          Some (console_log
                  [ArgText ("Commit " +:+ String.substring 0 7 commit +:+
                            " - Updates in " +:+
                            String.concat ", " labels)]).
Proof.
  intros HR HS HB run dR dS dB. subst run dR dS dB.
  destruct (index_agent_reaches_publish load newURL md5 stringify base64
              store input _ _ _ HR HS HB)
    as (out & regular & special & bulletin & -> & <- & <- & <-).
  unfold Index.publish.
  destruct (pushIf_three
              (differs (Index.regularEventsTimelineDigest input)
                       (digest md5 (timelineHash regular)))
              (differs (Index.specialEventsTimelineDigest input)
                       (digest md5 (timelineHash special)))
              (differs (Index.bulletinsTimelineDigest input)
                       (digest md5 (timelineHash bulletin))))
    as (Hsub & HlR & HlS & HlB).
  destruct (differs (Index.regularEventsTimelineDigest input) _ ||
            differs (Index.specialEventsTimelineDigest input) _ ||
            differs (Index.bulletinsTimelineDigest input) _) eqn:Hany.
  - match goal with
    | |- context [store ?r] => remember r as sent eqn:Hsent
    end.
    split.
    + split.
      * by destruct (store sent).
      * rewrite <- !differs_false. intros (H1 & H2 & H3).
        by rewrite H1, H2, H3 in Hany.
    + intros request Hin.
      assert (request = sent) as ->.
      { destruct (store sent); by apply list_elem_of_singleton in Hin. }
      subst sent. cbn [Commit.sha Commit.content Commit.message].
      split; [reflexivity|]. split; [eexists; split; reflexivity|].
      eexists. split; [reflexivity|].
      split; [exact Hsub|]. rewrite <- !differs_true.
      split; [exact HlR|]. split; [exact HlS|]. split; [exact HlB|].
      intros commit ->. split; [reflexivity|]. cbn [consoleOut].
      apply last_snoc.
  - apply orb_false_iff in Hany as [[H1 H2]%orb_false_iff H3].
    rewrite <- !differs_false.
    split; [by split|]. by intros request ?%elem_of_nil.
Qed.

(** The invocation of the examples against a published digest [0] of the
    regular events. *)
Lemma changed_collections_are_committed_witness :
  let run := Index.agent sampleYaml sampleURL sampleDigest (fun _ => "{}") id
                         sampleStore (sampleInput "0") in
  let dR := digest sampleDigest (map full_text samplePosts) in
  let dS := digest sampleDigest [] in
  let dB := digest sampleDigest [] in
  (requests run = [] <->
     VString "0" = VString dR /\
     VString (sampleDigest EmptyString) = VString dS /\
     VString (sampleDigest EmptyString) = VString dB) /\
  forall request,
    request ∈ requests run ->
    Commit.sha request = "f00" /\
    (exists content,
       Commit.content request = "{}" /\
       Index.digests content = [ dR; dS; dB ]) /\
    exists labels,
      Commit.message request =
        "Generated content data: Updates in " +:+
        String.concat ", " labels /\
      labels `sublist_of`
        [ "regular events"; "special events"; "bulletins" ] /\
      ("regular events" ∈ labels <-> VString "0" <> VString dR) /\
      ("special events" ∈ labels <->
         VString (sampleDigest EmptyString) <> VString dS) /\
      ("bulletins" ∈ labels <->
         VString (sampleDigest EmptyString) <> VString dB) /\
      forall commit,
        sampleStore request = inr commit ->
        caught run = None /\
        last (consoleOut run) =
          Some (console_log
                  [ArgText ("Commit " +:+ String.substring 0 7 commit +:+
                            " - Updates in " +:+
                            String.concat ", " labels)]).
Proof.
  apply (changed_collections_are_committed sampleYaml sampleURL sampleDigest
           (fun _ => "{}") id sampleStore (sampleInput "0")
           samplePosts [] []).
  - apply sample_resolved.
  - constructor.
  - constructor.
Defined.

(** X14.  In the successor, over timelines that resolve: the invocation
    sends nothing exactly when the dry-run option is on or each of the four
    stored digests is the digest computed for its collection.  A request
    it sends holds the version token that was read and the encoded JSON of
    a content whose digests are the four computed ones, in the order
    announcements, regular events, special events, bulletins; its message
    lists, in that order, exactly the collections whose stored digest is
    not the computed one; and, when the store accepts, the last line
    logged names the first seven characters of the commit and the same
    list. *)
Theorem successor_commits_changed_collections
    (load : string -> loaded) (newURL : jsval -> bool)
    (md5 : string -> string)
    (stringify : Successor.generatedContent -> string)
    (base64 : string -> string) (store : Commit.t -> rejection + string)
    (input : Successor.fetched)
    (postsA postsR postsS postsB : list tweetObject) :
  resolved (default ∅ (Successor.announcementsTweets input))
           (default [] (Successor.announcementsTimeline input)) postsA ->
  resolved (default ∅ (Successor.regularEventsTweets input))
           (default [] (Successor.regularEventsTimeline input)) postsR ->
  resolved (default ∅ (Successor.specialEventsTweets input))
           (default [] (Successor.specialEventsTimeline input)) postsS ->
  resolved (default ∅ (Successor.bulletinsTweets input))
           (default [] (Successor.bulletinsTimeline input)) postsB ->
  let run := Successor.agent load newURL md5 stringify base64 store input in
  let dA := digest md5 (map full_text postsA) in
  let dR := digest md5 (map full_text postsR) in
  let dS := digest md5 (map full_text postsS) in
  let dB := digest md5 (map full_text postsB) in
  (requests run = [] <->
     Successor.dryRun input = true \/
     (Successor.announcementsTimelineDigest input = VString dA /\
      Successor.regularEventsTimelineDigest input = VString dR /\
      Successor.specialEventsTimelineDigest input = VString dS /\
      Successor.bulletinsTimelineDigest input = VString dB)) /\
  forall request,
    request ∈ requests run ->
    Commit.sha request = Successor.generatedContentSha1 input /\
    (exists content,
       Commit.content request = base64 (stringify content) /\
       Successor.digests content = [ dA; dR; dS; dB ]) /\
    exists labels,
      Commit.message request =
        "Generated content data: Updates in " +:+
        String.concat ", " labels /\
      labels `sublist_of`
        [ "announcements"; "regular events"; "special events";
          "bulletins" ] /\
      ("announcements" ∈ labels <->
         Successor.announcementsTimelineDigest input <> VString dA) /\
      ("regular events" ∈ labels <->
         Successor.regularEventsTimelineDigest input <> VString dR) /\
      ("special events" ∈ labels <->
         Successor.specialEventsTimelineDigest input <> VString dS) /\
      ("bulletins" ∈ labels <->
         Successor.bulletinsTimelineDigest input <> VString dB) /\
      forall commit,
        store request = inr commit ->
        caught run = None /\
        last (consoleOut run) =
          Some (console_info
                  [ArgText ("Commit " +:+ String.substring 0 7 commit +:+
                            " - Updates in " +:+
                            String.concat ", " labels)]).
Proof.
  intros HA HR HS HB run dA dR dS dB. subst run dA dR dS dB.
  destruct (successor_agent_reaches_publish load newURL md5 stringify base64
              store input _ _ _ _ HA HR HS HB)
    as (out & announcement & regular & special & bulletin & -> &
        <- & <- & <- & <-).
  unfold Successor.publish.
  destruct (pushIf_four
              (differs (Successor.announcementsTimelineDigest input)
                       (digest md5 (timelineHash announcement)))
              (differs (Successor.regularEventsTimelineDigest input)
                       (digest md5 (timelineHash regular)))
              (differs (Successor.specialEventsTimelineDigest input)
                       (digest md5 (timelineHash special)))
              (differs (Successor.bulletinsTimelineDigest input)
                       (digest md5 (timelineHash bulletin))))
    as (Hsub & HlA & HlR & HlS & HlB).
  rewrite <- !differs_false.
  destruct (Successor.dryRun input) eqn:Hdry.
  { rewrite orb_true_r. cbn [negb requests].
    split; [by split; [left|]|]. by intros request ?%elem_of_nil. }
  rewrite orb_false_r. cbn [negb].
  destruct (differs (Successor.announcementsTimelineDigest input) _ ||
            differs (Successor.regularEventsTimelineDigest input) _ ||
            differs (Successor.specialEventsTimelineDigest input) _ ||
            differs (Successor.bulletinsTimelineDigest input) _) eqn:Hany.
  - match goal with
    | |- context [store ?r] => remember r as sent eqn:Hsent
    end.
    split.
    + split.
      * by destruct (store sent).
      * intros [?|(H0 & H1 & H2 & H3)]; [done|].
        by rewrite H0, H1, H2, H3 in Hany.
    + intros request Hin.
      assert (request = sent) as ->.
      { destruct (store sent); by apply list_elem_of_singleton in Hin. }
      subst sent. cbn [Commit.sha Commit.content Commit.message].
      split; [reflexivity|]. split; [eexists; split; reflexivity|].
      eexists. split; [reflexivity|].
      split; [exact Hsub|]. rewrite <- !differs_true.
      split; [exact HlA|]. split; [exact HlR|]. split; [exact HlS|].
      split; [exact HlB|].
      intros commit ->. split; [reflexivity|]. cbn [consoleOut].
      apply last_snoc.
  - apply orb_false_iff in Hany as [[[H0 H1]%orb_false_iff H2]%orb_false_iff H3].
    split; [by split; [right|]|]. by intros request ?%elem_of_nil.
Qed.

(** The invocation of the examples, the option off, against a published
    digest [0] of the announcements. *)
Lemma successor_commits_changed_collections_witness :
  let input := sampleSuccessorInput false "0" in
  let run := Successor.agent sampleYaml sampleURL sampleDigest
                             (fun _ => "{}") id sampleStore input in
  let dA := digest sampleDigest (map full_text samplePosts) in
  let dR := digest sampleDigest [] in
  let dS := digest sampleDigest [] in
  let dB := digest sampleDigest [] in
  (requests run = [] <->
     Successor.dryRun input = true \/
     (Successor.announcementsTimelineDigest input = VString dA /\
      Successor.regularEventsTimelineDigest input = VString dR /\
      Successor.specialEventsTimelineDigest input = VString dS /\
      Successor.bulletinsTimelineDigest input = VString dB)) /\
  forall request,
    request ∈ requests run ->
    Commit.sha request = Successor.generatedContentSha1 input /\
    (exists content,
       Commit.content request = "{}" /\
       Successor.digests content = [ dA; dR; dS; dB ]) /\
    exists labels,
      Commit.message request =
        "Generated content data: Updates in " +:+
        String.concat ", " labels /\
      labels `sublist_of`
        [ "announcements"; "regular events"; "special events";
          "bulletins" ] /\
      ("announcements" ∈ labels <->
         Successor.announcementsTimelineDigest input <> VString dA) /\
      ("regular events" ∈ labels <->
         Successor.regularEventsTimelineDigest input <> VString dR) /\
      ("special events" ∈ labels <->
         Successor.specialEventsTimelineDigest input <> VString dS) /\
      ("bulletins" ∈ labels <->
         Successor.bulletinsTimelineDigest input <> VString dB) /\
      forall commit,
        sampleStore request = inr commit ->
        caught run = None /\
        last (consoleOut run) =
          Some (console_info
                  [ArgText ("Commit " +:+ String.substring 0 7 commit +:+
                            " - Updates in " +:+
                            String.concat ", " labels)]).
Proof.
  apply (successor_commits_changed_collections sampleYaml sampleURL
           sampleDigest (fun _ => "{}") id sampleStore
           (sampleSuccessorInput false "0") samplePosts [] [] []).
  - apply sample_resolved.
  - constructor.
  - constructor.
  - constructor.
Defined.

(** * The predecessor revision *)

(** ** White space at the ends of a line *)

Lemma rev_app_spec (s t : string) :
  String.rev_app s t = String.rev s +:+ t.
Proof.
  unfold String.rev. revert t. induction s as [|c s IH]; intros t; simpl.
  - by rewrite append_nil_l.
  - rewrite (IH (String c t)), (IH (String c EmptyString)).
    by rewrite append_assoc, append_cons, append_nil_l.
Qed.

Lemma rev_cons (c : ascii) (s : string) :
  String.rev (String c s) = String.rev s +:+ String c EmptyString.
Proof. unfold String.rev at 1. simpl. apply rev_app_spec. Qed.

Lemma rev_snoc (s : string) (c : ascii) :
  String.rev (s +:+ String c EmptyString) = String c (String.rev s).
Proof.
  induction s as [|d s IH]; [done|].
  by rewrite append_cons, !rev_cons, IH, append_cons.
Qed.

Lemma rev_involutive (s : string) : String.rev (String.rev s) = s.
Proof.
  induction s as [|c s IH]; [done|]. by rewrite rev_cons, rev_snoc, IH.
Qed.

Lemma allWhiteSpace_app (s t : string) :
  allWhiteSpace (s +:+ t) = allWhiteSpace s && allWhiteSpace t.
Proof.
  induction s as [|c s IH]; [by rewrite append_nil_l|].
  rewrite append_cons. simpl. by rewrite IH, andb_assoc.
Qed.

Lemma allWhiteSpace_rev (s : string) :
  allWhiteSpace (String.rev s) = allWhiteSpace s.
Proof.
  induction s as [|c s IH]; [done|].
  rewrite rev_cons, allWhiteSpace_app, IH. simpl.
  by rewrite andb_true_r, andb_comm.
Qed.

Lemma trimStart_app (s t : string) :
  trimStart (s +:+ t) =
  if allWhiteSpace s then trimStart t else trimStart s +:+ t.
Proof.
  induction s as [|c s IH]; [by rewrite append_nil_l|].
  rewrite append_cons. simpl. destruct (isWhiteSpace c); simpl; [done|].
  by rewrite append_cons.
Qed.

Lemma trimStart_allWhiteSpace (s : string) :
  allWhiteSpace s = true -> trimStart s = EmptyString.
Proof.
  induction s as [|c s IH]; [done|]. simpl.
  destruct (isWhiteSpace c); [apply IH|done].
Qed.

(** [trimEnd], read from the front. *)
Lemma trimEnd_cons (c : ascii) (s : string) :
  trimEnd (String c s) =
  if allWhiteSpace (String c s) then EmptyString else String c (trimEnd s).
Proof.
  unfold trimEnd. rewrite rev_cons, trimStart_app, allWhiteSpace_rev.
  cbn [allWhiteSpace]. destruct (allWhiteSpace s) eqn:Hs.
  - rewrite andb_true_r. cbn [trimStart].
    destruct (isWhiteSpace c); [done|].
    rewrite trimStart_allWhiteSpace by by rewrite allWhiteSpace_rev.
    done.
  - rewrite andb_false_r. by rewrite rev_snoc.
Qed.

Lemma trimEnd_allWhiteSpace (s : string) :
  allWhiteSpace s = true -> trimEnd s = EmptyString.
Proof.
  intros Hs. destruct s as [|c s]; [done|]. by rewrite trimEnd_cons, Hs.
Qed.

Lemma trim_cons (c : ascii) (s : string) :
  trim (String c s) =
  if isWhiteSpace c then trim s else trimEnd (String c s).
Proof. unfold trim. simpl. by destruct (isWhiteSpace c). Qed.

Lemma oneLine_trimEnd_trim (s : string) :
  oneLine (trimEnd s) = true -> oneLine (trim s) = true.
Proof.
  induction s as [|c s IH]; [done|]. rewrite trim_cons.
  destruct (isWhiteSpace c) eqn:Hc; [|done].
  rewrite trimEnd_cons. cbn [allWhiteSpace]. rewrite Hc. simpl.
  destruct (allWhiteSpace s) eqn:Hs.
  - intros _. unfold trim. by rewrite (trimStart_allWhiteSpace _ Hs).
  - simpl. intros [_ H]%andb_true_iff. by apply IH.
Qed.

Lemma substring_app (m s : string) :
  String.substring 0 (String.length m) (m +:+ s) = m.
Proof.
  induction m as [|c m IH]; [by destruct s|].
  rewrite append_cons. simpl. by rewrite IH.
Qed.

Lemma substring_all (s : string) :
  String.substring 0 (String.length s) s = s.
Proof. induction s as [|c s IH]; [done|]. simpl. by rewrite IH. Qed.

(** ** The trimming pattern *)

(** [\s*$]: the rest is white space. *)
Lemma trailing_white_space (index : nat) (rest : string)
    (captures : list jsval) :
  RegExp.matcher
    (RegExp.sequence [RegExp.Star RegExp.WhiteSpace; RegExp.InputEnd])
    done_ index rest captures =
  if allWhiteSpace rest
  then Some (index + String.length rest, captures) else None.
Proof.
  cbn [RegExp.sequence fold_right RegExp.matcher].
  revert index. induction rest as [|c rest IH]; intros index.
  - simpl. unfold done_. by rewrite Nat.add_0_r.
  - cbn [RegExp.star RegExp.matches allWhiteSpace String.length].
    destruct (isWhiteSpace c); [|done]. rewrite IH. simpl.
    destruct (allWhiteSpace rest); [|done]. do 2 f_equal. lia.
Qed.

(** [(.*?)\s*$] from inside the group: the shortest text after which only
    white space is left, when no line terminator comes before that. *)
Lemma lazy_capture (rest taken whole : string) (start : nat)
    (captures : list jsval) :
  whole = taken +:+ rest ->
  RegExp.star RegExp.Dot false
    (fun index' rest' captures' =>
       RegExp.matcher
         (RegExp.sequence [RegExp.Star RegExp.WhiteSpace; RegExp.InputEnd])
         done_ index' rest'
         (<[1 := VString (String.substring 0 (index' - start) whole)]>
            captures'))
    (start + String.length taken) rest captures =
  if oneLine (trimEnd rest)
  then Some (start + String.length whole,
             <[1 := VString (taken +:+ trimEnd rest)]> captures)
  else None.
Proof.
  revert taken. induction rest as [|c rest IH]; intros taken ->.
  - cbn [RegExp.star]. rewrite trailing_white_space. simpl.
    rewrite !append_nil_r, Nat.add_0_r.
    replace (start + String.length taken - start)
      with (String.length taken) by lia.
    by rewrite substring_all.
  - assert (RegExp.matcher
              (RegExp.sequence
                 [RegExp.Star RegExp.WhiteSpace; RegExp.InputEnd])
              done_ (start + String.length taken) (String c rest)
              (<[1 := VString
                        (String.substring 0
                           (start + String.length taken - start)
                           (taken +:+ String c rest))]> captures) =
            if allWhiteSpace (String c rest)
            then Some (start + String.length (taken +:+ String c rest),
                       <[1 := VString taken]> captures)
            else None) as Hhere.
    { rewrite trailing_white_space.
      replace (start + String.length taken - start)
        with (String.length taken) by lia.
      rewrite substring_app, append_length.
      destruct (allWhiteSpace _); [|done]. do 2 f_equal. lia. }
    cbn [RegExp.star]. rewrite Hhere, trimEnd_cons.
    assert (taken +:+ String c rest =
            (taken +:+ String c EmptyString) +:+ rest) as Hsplit
      by (by rewrite append_assoc, append_cons, append_nil_l).
    specialize (IH _ Hsplit). rewrite append_length in IH.
    cbn [String.length] in IH. rewrite Nat.add_1_r, Nat.add_succ_r in IH.
    destruct (RegExp.matches RegExp.Dot c) eqn:Hdot;
      destruct (allWhiteSpace (String c rest)) eqn:Hws;
      try (by rewrite append_nil_r).
    + rewrite IH. cbn [oneLine]. simpl in Hdot. rewrite Hdot.
      by rewrite append_assoc, append_cons, append_nil_l.
    + cbn [oneLine]. simpl in Hdot. by rewrite Hdot.
Qed.

(** [\s*(.*?)\s*$]: the trimmed text, when it holds no line terminator. *)
Lemma leading_white_space (rest : string) (index : nat)
    (captures : list jsval) :
  RegExp.matcher
    (RegExp.sequence [RegExp.Star RegExp.WhiteSpace;
                      RegExp.Capture 1 (RegExp.LazyStar RegExp.Dot);
                      RegExp.Star RegExp.WhiteSpace; RegExp.InputEnd])
    done_ index rest captures =
  if oneLine (trim rest)
  then Some (index + String.length rest,
             <[1 := VString (trim rest)]> captures)
  else None.
Proof.
  assert (forall index rest,
            RegExp.matcher
              (RegExp.sequence
                 [RegExp.Capture 1 (RegExp.LazyStar RegExp.Dot);
                  RegExp.Star RegExp.WhiteSpace; RegExp.InputEnd])
              done_ index rest captures =
            if oneLine (trimEnd rest)
            then Some (index + String.length rest,
                       <[1 := VString (trimEnd rest)]> captures)
            else None) as Hgroup.
  { intros i s.
    pose proof (lazy_capture s EmptyString s i captures) as H.
    specialize (H eq_refl). rewrite append_nil_l in H.
    cbn [String.length] in H. rewrite Nat.add_0_r in H.
    rewrite <- H. reflexivity. }
  change (RegExp.star RegExp.WhiteSpace true
            (RegExp.matcher
               (RegExp.sequence
                  [RegExp.Capture 1 (RegExp.LazyStar RegExp.Dot);
                   RegExp.Star RegExp.WhiteSpace; RegExp.InputEnd])
               done_)
            index rest captures =
          if oneLine (trim rest)
          then Some (index + String.length rest,
                     <[1 := VString (trim rest)]> captures)
          else None).
  revert index. induction rest as [|c rest IH]; intros index.
  - cbn [RegExp.star]. by rewrite Hgroup.
  - cbn [RegExp.star RegExp.matches]. rewrite trim_cons, Hgroup.
    destruct (isWhiteSpace c) eqn:Hc; [|done].
    rewrite IH. simpl String.length. rewrite Nat.add_succ_r.
    destruct (oneLine (trim rest)) eqn:Hline; [done|].
    destruct (oneLine (trimEnd (String c rest))) eqn:Hend; [|done].
    apply oneLine_trimEnd_trim in Hend. rewrite trim_cons, Hc in Hend.
    congruence.
Qed.

(** [rawLine.match(/^\s*(.*?)\s*$/)]: the line and the line trimmed, or
    [null] when a line terminator is left inside the trimmed line. *)
Lemma exec_trimPattern (line : string) :
  RegExp.exec Predecessor.trimPattern 1 line =
  if oneLine (trim line)
  then Some [ VString line; VString (trim line) ]
  else None.
Proof.
  assert (forall index rest,
            RegExp.search Predecessor.trimPattern 1 (S index) rest = None)
    as Hlater.
  { intros index rest. revert index.
    induction rest as [|c rest IH]; intros index; [done|].
    cbn [RegExp.search]. unfold RegExp.attempt, Predecessor.trimPattern.
    cbn [RegExp.sequence fold_right RegExp.matcher Nat.eqb]. apply IH. }
  unfold RegExp.exec.
  assert (RegExp.attempt Predecessor.trimPattern 1 0 line =
          if oneLine (trim line)
          then Some (String.length line,
                     [ VUndefined; VString (trim line) ])
          else None) as Hattempt.
  { unfold RegExp.attempt, Predecessor.trimPattern.
    pose proof (leading_white_space line 0 [VUndefined; VUndefined]) as H.
    cbn [RegExp.sequence fold_right RegExp.matcher Nat.eqb] in *.
    exact H. }
  destruct line as [|c line]; cbn [RegExp.search]; rewrite Hattempt.
  - done.
  - destruct (oneLine _); [|apply Hlater].
    rewrite Nat.sub_0_r, substring_all. done.
Qed.

Lemma trimmed_spec {R} (rawLine : string) (w : world R) :
  Predecessor.trimmed rawLine w =
  if oneLine (trim rawLine)
  then (w, Return (VString (trim rawLine)))
  else (w, Throw (TypeError (EngineMessage NotIterable))).
Proof.
  unfold Predecessor.trimmed. rewrite exec_trimPattern.
  by destruct (oneLine _).
Qed.

(** X15.  [rawLine.match(/^\s*(.*?)\s*$/)] gives the line and, as its
    capture, the line as [trim] leaves it - unless a line terminator is
    left inside the trimmed line, which [.] does not match: then the match
    is [null] and the destructuring of it throws a [TypeError], the world
    left as it was. *)
Theorem trimming_pattern_is_trim (rawLine : string) :
  RegExp.exec Predecessor.trimPattern 1 rawLine =
    (if oneLine (trim rawLine)
     then Some [ VString rawLine; VString (trim rawLine) ]
     else None) /\
  forall (R : Type) (w : world R),
    Predecessor.trimmed rawLine w =
    if oneLine (trim rawLine)
    then (w, Return (VString (trim rawLine)))
    else (w, Throw (TypeError (EngineMessage NotIterable))).
Proof.
  split; [apply exec_trimPattern|]. intros R w. apply trimmed_spec.
Qed.

(** ** The loops over lines *)

Lemma truthy_VString (s : string) : truthy (VString s) = nonEmpty s.
Proof. done. Qed.

Lemma keptLines_cons (rawLine : string) (rawLines : list string) :
  keptLines (rawLine :: rawLines) =
  (if nonEmpty (trim rawLine) then [VString (trim rawLine)] else []) ++
  keptLines rawLines.
Proof.
  unfold keptLines. rewrite fmap_cons, filter_cons.
  destruct (nonEmpty (trim rawLine)) eqn:Hne.
  - rewrite decide_True by done. done.
  - rewrite decide_False by done. done.
Qed.

Lemma keptLines_truthy (rawLines : list string) :
  Forall (fun line => truthy line = true) (keptLines rawLines).
Proof.
  induction rawLines as [|rawLine rest IH]; [constructor|].
  rewrite keptLines_cons. destruct (nonEmpty (trim rawLine)) eqn:Hne; [|done].
  constructor; [done|exact IH].
Qed.

Lemma descriptiveLoop_clean {R} (rawLines : list string)
    (descriptive : list jsval) (w : world R) :
  cleanLines rawLines ->
  Predecessor.descriptiveLoop rawLines descriptive w =
  (w, Return (descriptive ++ keptLines rawLines)).
Proof.
  intros Hclean. revert descriptive.
  induction Hclean as [|rawLine rest Hline _ IH]; intros descriptive.
  - simpl. by rewrite app_nil_r.
  - cbn [Predecessor.descriptiveLoop]. unfold bind.
    rewrite trimmed_spec, Hline, IH, keptLines_cons, truthy_VString.
    destruct (nonEmpty (trim rawLine)); [by rewrite <- app_assoc|done].
Qed.

(** Whatever the lines: what the loop returns is what it was given
    followed by non-empty lines. *)
Lemma descriptiveLoop_truthy {R} (rawLines : list string)
    (descriptive result : list jsval) (w w' : world R) :
  Predecessor.descriptiveLoop rawLines descriptive w = (w', Return result) ->
  Forall (fun line => truthy line = true) descriptive ->
  w' = w /\ Forall (fun line => truthy line = true) result.
Proof.
  revert descriptive. induction rawLines as [|rawLine rest IH];
    intros descriptive.
  - by intros [= <- <-].
  - cbn [Predecessor.descriptiveLoop]. unfold bind. rewrite trimmed_spec.
    destruct (oneLine (trim rawLine)); [|done].
    intros Hrun Hall. apply (IH _ Hrun).
    destruct (truthy (VString (trim rawLine))) eqn:Hline; [|done].
    apply Forall_app. split; [done|]. by apply Forall_singleton.
Qed.

Lemma timesLoop_truthy (timeSegments : list string)
    (times : list Predecessor.occurrence) :
  Forall (fun o => truthy (Predecessor.day o) = true /\
                   truthy (Predecessor.time o) = true) times ->
  Forall (fun o => truthy (Predecessor.day o) = true /\
                   truthy (Predecessor.time o) = true)
         (Predecessor.timesLoop timeSegments times).
Proof.
  revert times. induction timeSegments as [|segment rest IH]; intros times;
    [done|].
  intros Hall. cbn [Predecessor.timesLoop]. apply IH.
  destruct (truthy _ && truthy _) eqn:Hboth; [|done].
  apply andb_true_iff in Hboth. apply Forall_app. split; [done|].
  by apply Forall_singleton.
Qed.


(** ** [eventsTransform] *)

(** X16.  Whatever the post and the last-primary: when [eventsTransform]
    returns an element, the element is an event object made by this call,
    returned as the last-primary too, with a non-empty title, at least one
    occurrence, a non-empty day and time in every occurrence and no empty
    descriptive line; no other object is touched and nothing is logged. *)
Theorem kept_events_are_well_formed
    (tweetContinuationLine : option string) (tweetText : string)
    (last : option nat) (w w' : world Predecessor.Event.t)
    (r : list (option nat)) (kept : nat) :
  Predecessor.eventsTransform tweetContinuationLine tweetText last w =
    (w', Return r) ->
  Predecessor.element 0 r = Some kept ->
  exists event,
    w' = World (heap w ++ [event]) (console w) /\
    kept = length (heap w) /\
    r = [ Some kept; Some kept ] /\
    wellFormed event.
Proof.
  unfold Predecessor.eventsTransform.
  destruct (splitBy "010" tweetText) as [firstLine subsequentLines].
  destruct (negb (Predecessor.isContinuation _ _)).
  - unfold bind at 1. rewrite trimmed_spec.
    destruct (oneLine _); [|done].
    unfold bind at 1.
    destruct (Predecessor.descriptiveLoop _ _ w) as [w1 [descriptive|e]]
      eqn:Hloop; [|done].
    apply descriptiveLoop_truthy in Hloop as [-> Hlines]; [|constructor].
    destruct (truthy _ && Nat.ltb 0 _) eqn:Hkeep; [|by intros [= <- <-]].
    apply andb_true_iff in Hkeep as [Htitle Htimes].
    unfold bind, alloc, ret. intros [= <- <-] [= <-].
    eexists. split; [reflexivity|]. split; [done|]. split; [done|].
    split; [exact Htitle|]. split; [|split; [|exact Hlines]].
    + simpl. intros Hnone. rewrite Hnone in Htimes. discriminate.
    + apply timesLoop_truthy. constructor.
  - destruct last as [event|]; [|by intros [= <- <-]].
    unfold bind.
    destruct (Predecessor.continuationLoop _ _ w) as [w1 [[]|e]]; [|done].
    by intros [= <- <-].
Qed.

Lemma kept_events_are_well_formed_witness :
  exists event,
    World [sampleLinesEvent] [] =
      World (heap (World [] []) ++ [event])
            (console (World (@nil Predecessor.Event.t) [])) /\
    0 = length (heap (World (@nil Predecessor.Event.t) [])) /\
    [ Some 0; Some 0 ] = [ Some 0; Some 0 ] /\
    wellFormed event.
Proof.
  apply (kept_events_are_well_formed (Some "...") sampleLines None
           (World [] []) (World [sampleLinesEvent] [])
           [ Some 0; Some 0 ] 0);
    reflexivity.
Defined.



(** X18.  A post whose first line is not the continuation line, and whose
    lines trim to texts without a line terminator, becomes an event exactly
    when its title - the first line without its [+color] directives,
    trimmed - is not empty and its second line gives at least one
    occurrence.  The event holds that title, the first color directive of
    the first line or [null], the occurrences and the non-empty trimmed
    lines from the third on; it is the element and the new last-primary.
    Otherwise the post is dropped: [[null, null]], nothing made, nothing
    logged, and the last-primary is lost. *)
Theorem event_of_a_clean_post
    (tweetContinuationLine : option string) (tweetText : string)
    (firstLine : string) (subsequentLines : list string)
    (last : option nat) (w : world Predecessor.Event.t) :
  splitBy "010" tweetText = (firstLine, subsequentLines) ->
  tweetContinuationLine <> Some firstLine ->
  oneLine (titleOf firstLine) = true ->
  cleanLines (tail subsequentLines) ->
  Predecessor.eventsTransform tweetContinuationLine tweetText last w =
  if nonEmpty (titleOf firstLine) && Nat.ltb 0 (length (timesOf subsequentLines))
  then (World (heap w ++
                 [ Predecessor.Event.mk
                     (VString (titleOf firstLine)) (colorOf firstLine)
                     (timesOf subsequentLines)
                     (keptLines (tail subsequentLines)) ])
              (console w),
        Return [ Some (length (heap w)); Some (length (heap w)) ])
  else (w, Return [ None; None ]).
Proof.
  intros Hsplit Hfirst Htitle Hclean. unfold Predecessor.eventsTransform.
  rewrite Hsplit.
  assert (Predecessor.isContinuation tweetContinuationLine firstLine = false)
    as ->.
  { unfold Predecessor.isContinuation.
    destruct tweetContinuationLine as [line|]; [|done].
    apply String.eqb_neq. congruence. }
  cbn [negb]. unfold bind at 1. fold (titleOf firstLine) in *.
  rewrite trimmed_spec. fold (titleOf firstLine). rewrite Htitle.
  unfold bind at 1. rewrite (descriptiveLoop_clean _ _ _ Hclean).
  rewrite app_nil_l, truthy_VString.
  assert (match head subsequentLines with
          | Some line =>
              if nonEmpty line
              then let (segment, segments) := splitBy ";" line in
                   segment :: segments
              else []
          | None => []
          end =
          match head subsequentLines with
          | Some line =>
              if nonEmpty line
              then fst (splitBy ";" line) :: snd (splitBy ";" line)
              else []
          | None => []
          end) as ->.
  { destruct (head subsequentLines) as [line|]; [|done].
    by destruct (splitBy ";" line). }
  assert (Predecessor.timesLoop
            match head subsequentLines with
            | Some line =>
                if nonEmpty line
                then fst (splitBy ";" line) :: snd (splitBy ";" line)
                else []
            | None => []
            end [] = timesOf subsequentLines) as ->.
  { unfold timesOf. destruct (head subsequentLines) as [line|]; [|done].
    by destruct (nonEmpty line). }
  by destruct (nonEmpty (titleOf firstLine) && _).
Qed.

Lemma event_of_a_clean_post_witness :
  Predecessor.eventsTransform (Some "...") sampleLines None (World [] []) =
  (World [sampleLinesEvent] [], Return [ Some 0; Some 0 ]).
Proof.
  apply (event_of_a_clean_post (Some "...") sampleLines
           "Mass +red" [ "Sun @ 9am (Hall); Mon @ 8am"; "  All welcome  " ]
           None (World [] []) eq_refl).
  - discriminate.
  - reflexivity.
  - repeat constructor.
Defined.

(** ** [bulletinsTransform] *)

Lemma insertsLoop_clean {R} (rawLines : list string) (insertTitle : jsval)
    (expecting : bool) (inserts : list Predecessor.insert) (w : world R) :
  cleanLines rawLines ->
  Predecessor.insertsLoop rawLines insertTitle expecting inserts w =
  (w, Return (inserts ++
              if expecting then pairUp (keptLines rawLines)
              else match keptLines rawLines with
                   | [] => []
                   | link :: rest =>
                       {| Predecessor.insertTitle := insertTitle;
                          Predecessor.insertLink := link |} :: pairUp rest
                   end)).
Proof.
  intros Hclean. revert insertTitle expecting inserts.
  induction Hclean as [|rawLine rest Hline _ IH];
    intros insertTitle expecting inserts.
  - unfold ret. destruct expecting; simpl; by rewrite app_nil_r.
  - cbn [Predecessor.insertsLoop]. unfold bind.
    rewrite trimmed_spec, Hline, keptLines_cons, truthy_VString.
    destruct (nonEmpty (trim rawLine)); [|by rewrite IH].
    destruct expecting; rewrite IH; simpl; [done|].
    by rewrite <- app_assoc.
Qed.

(** X19.  A bulletin post of one line makes [bulletinsTransform] throw:
    there is no second line to call [match] on.  A post of two lines or
    more, all trimming to texts without a line terminator, becomes a
    bulletin exactly when the first line gives a non-empty date and a
    non-empty title around a [-] and [new URL] accepts the trimmed second
    line; the bulletin holds them and the inserts made of the non-empty
    trimmed lines that follow, taken two by two as title and link - a last
    title without a link is left out.  Otherwise the post is dropped:
    [[null]], nothing made, nothing logged. *)
Theorem bulletin_of_a_post
    (newURL : jsval -> bool) (tweetText : string)
    (firstLine : string) (lines : list string) (w : world Predecessor.Bulletin.t) :
  splitBy "010" tweetText = (firstLine, lines) ->
  (lines = [] ->
   Predecessor.bulletinsTransform newURL tweetText w =
   (w, Throw (TypeError (EngineMessage NoProperties)))) /\
  (forall linkLine subsequentLines,
     lines = linkLine :: subsequentLines ->
     cleanLines lines ->
     Predecessor.bulletinsTransform newURL tweetText w =
     if truthy (fst (dateTitleOf firstLine)) &&
        truthy (snd (dateTitleOf firstLine)) &&
        newURL (VString (trim linkLine))
     then (World (heap w ++
                    [ Predecessor.Bulletin.mk
                        (fst (dateTitleOf firstLine))
                        (snd (dateTitleOf firstLine))
                        (VString (trim linkLine))
                        (pairUp (keptLines subsequentLines)) ])
                 (console w),
           Return [ Some (length (heap w)) ])
     else (w, Return [ None ])).
Proof.
  intros Hsplit. unfold Predecessor.bulletinsTransform. rewrite Hsplit.
  split; [by intros ->|].
  intros linkLine subsequentLines -> Hclean.
  apply Forall_cons in Hclean as [Hlink Hrest].
  cbn [head tail]. unfold bind at 1. rewrite trimmed_spec, Hlink.
  unfold dateTitleOf. cbn [fst snd].
  destruct (truthy (at_ 1 _)); [|done].
  destruct (truthy (at_ 2 _)); [|done].
  destruct (newURL _); [|done]. cbn [negb orb andb].
  unfold bind. by rewrite (insertsLoop_clean _ _ _ _ _ Hrest).
Qed.

Lemma bulletin_of_a_post_witness :
  Predecessor.bulletinsTransform sampleURL sampleBulletinLines
    (World [] []) =
  (World [ Predecessor.Bulletin.mk
             (VString "May 31") (VString "Pentecost")
             (VString "https://example.org/c.pdf")
             [ {| Predecessor.insertTitle := VString "Insert";
                  Predecessor.insertLink :=
                    VString "https://example.org/i.pdf" |} ] ] [],
   Return [ Some 0 ]).
Proof.
  apply (proj2 (bulletin_of_a_post sampleURL sampleBulletinLines
                  "May 31 - Pentecost"
                  [ " https://example.org/c.pdf"; "Insert"; EmptyString;
                    "https://example.org/i.pdf "; "Left over" ]
                  (World [] []) eq_refl)
           " https://example.org/c.pdf"
           [ "Insert"; EmptyString; "https://example.org/i.pdf ";
             "Left over" ]
           eq_refl).
  repeat constructor.
Defined.

(** ** The invocation *)

Lemma quiet_ret {R A} (a : A) : quiet (@ret R A a).
Proof. by intros w. Qed.

Lemma quiet_throw {R A} (f : fault) :
  quiet (@throw R A (TypeError (EngineMessage f))).
Proof. intros w. split; [done|]. by exists f. Qed.

Lemma quiet_bind {R A B} (m : M R A) (k : A -> M R B) :
  quiet m -> (forall a, quiet (k a)) -> quiet (bind m k).
Proof.
  intros Hm Hk w. unfold bind. specialize (Hm w).
  destruct (m w) as [w1 [a|e]]; simpl in *; [|done].
  destruct Hm as [Hc _]. specialize (Hk a w1). rewrite <- Hc.
  by destruct (k a w1).
Qed.

Lemma quiet_trimmed {R} (rawLine : string) :
  quiet (@Predecessor.trimmed R rawLine).
Proof.
  intros w. rewrite trimmed_spec. destruct (oneLine _); simpl; [done|].
  split; [done|]. by eexists.
Qed.

Lemma quiet_descriptiveLoop {R} (rawLines : list string)
    (descriptive : list jsval) :
  quiet (@Predecessor.descriptiveLoop R rawLines descriptive).
Proof.
  revert descriptive. induction rawLines as [|rawLine rest IH];
    intros descriptive; [apply quiet_ret|].
  apply quiet_bind; [apply quiet_trimmed|]. intros line. apply IH.
Qed.

Lemma quiet_continuationLoop (event : nat) (rawLines : list string) :
  quiet (Predecessor.continuationLoop event rawLines).
Proof.
  induction rawLines as [|rawLine rest IH]; [apply quiet_ret|].
  apply quiet_bind; [apply quiet_trimmed|]. intros line.
  apply quiet_bind; [|intros _; apply IH].
  destruct (truthy line); [by intros w|apply quiet_ret].
Qed.

Lemma quiet_insertsLoop {R} (rawLines : list string) (insertTitle : jsval)
    (expecting : bool) (inserts : list Predecessor.insert) :
  quiet (@Predecessor.insertsLoop R rawLines insertTitle expecting inserts).
Proof.
  revert insertTitle expecting inserts.
  induction rawLines as [|rawLine rest IH];
    intros insertTitle expecting inserts; [apply quiet_ret|].
  apply quiet_bind; [apply quiet_trimmed|]. intros line.
  destruct (truthy line); [destruct expecting|]; apply IH.
Qed.

Lemma quiet_alloc {R} (r : R) : quiet (alloc r).
Proof. by intros w. Qed.

Lemma quiet_eventsTransform (tweetContinuationLine : option string)
    (tweetText : string) (last : option nat) :
  quiet (Predecessor.eventsTransform tweetContinuationLine tweetText last).
Proof.
  unfold Predecessor.eventsTransform.
  destruct (splitBy "010" tweetText) as [firstLine subsequentLines].
  destruct (negb _).
  - apply quiet_bind; [apply quiet_trimmed|]. intros title.
    apply quiet_bind; [apply quiet_descriptiveLoop|]. intros descriptive.
    destruct (truthy title && _); [|apply quiet_ret].
    apply quiet_bind; [apply quiet_alloc|]. intros event. apply quiet_ret.
  - destruct last as [event|]; [|apply quiet_ret].
    apply quiet_bind; [apply quiet_continuationLoop|]. intros _.
    apply quiet_ret.
Qed.

Lemma quiet_bulletinsTransform (newURL : jsval -> bool)
    (tweetText : string) :
  quiet (Predecessor.bulletinsTransform newURL tweetText).
Proof.
  unfold Predecessor.bulletinsTransform.
  destruct (splitBy "010" tweetText) as [firstLine lines].
  apply quiet_bind.
  { destruct (head lines); [apply quiet_trimmed|apply quiet_throw]. }
  intros link. destruct (negb _ || negb _); [apply quiet_ret|].
  destruct (negb (newURL link)); [apply quiet_ret|].
  apply quiet_bind; [apply quiet_insertsLoop|]. intros inserts.
  apply quiet_bind; [apply quiet_alloc|]. intros bulletin. apply quiet_ret.
Qed.

Section PredecessorLoop.

Context {R : Type}.
Variable transform : string -> option nat -> M R (list (option nat)).
Variable tweets : gmap string tweetObject.
Hypothesis transform_quiet : forall tweetText last,
  quiet (transform tweetText last).

Lemma quiet_iteration state tweetId :
  quiet (Predecessor.iteration transform tweets state tweetId).
Proof.
  unfold Predecessor.iteration.
  destruct (tweets !! tweetId) as [[tweetText tweetLinks]|];
    [|apply quiet_throw].
  apply quiet_bind; [apply transform_quiet|]. intros r. apply quiet_ret.
Qed.

Lemma quiet_timelineLoop timeline state :
  quiet (Predecessor.timelineLoop transform tweets timeline state).
Proof.
  revert state. induction timeline as [|tweetId rest IH]; intros state;
    [apply quiet_ret|].
  apply quiet_bind; [apply quiet_iteration|]. intros state'. apply IH.
Qed.

(** A post at which the pass throws ends the loop, wherever it stands in
    the timeline. *)
Lemma timelineLoop_throws timeline state tweetId (w : world R) :
  tweetId ∈ timeline ->
  (forall state w, exists w' e,
     Predecessor.iteration transform tweets state tweetId w =
     (w', Throw e)) ->
  exists w' e,
    Predecessor.timelineLoop transform tweets timeline state w =
    (w', Throw e).
Proof.
  intros Hin Hthrows. revert state w.
  induction timeline as [|head rest IH]; intros state w;
    [by apply elem_of_nil in Hin|].
  cbn [Predecessor.timelineLoop]. unfold bind.
  destruct (Predecessor.iteration transform tweets state head w)
    as [w1 [state1|e]] eqn:Hstep; [|eauto].
  apply elem_of_cons in Hin as [->|Hin].
  - destruct (Hthrows state w) as (w' & e & He). congruence.
  - by apply IH.
Qed.

End PredecessorLoop.

Lemma predecessor_collectionLoop_quiet {R}
    (transform : string -> option nat -> M R (list (option nat)))
    timeline tweets out :
  (forall tweetText last, quiet (transform tweetText last)) ->
  fst (Predecessor.collectionLoop transform timeline tweets out) = out /\
  match snd (Predecessor.collectionLoop transform timeline tweets out) with
  | Throw e => engineFault e
  | Return _ => True
  end.
Proof.
  intros Hquiet. unfold Predecessor.collectionLoop.
  pose proof (quiet_timelineLoop transform (default ∅ tweets) Hquiet
                (default [] timeline)
                (Predecessor.Collection [] createHash None) (World [] out))
    as [Hconsole Hthrown].
  by destruct (Predecessor.timelineLoop _ _ _ _ _) as [w [state|e]].
Qed.

Lemma predecessor_publish_settled md5 stringify base64 store input out
    regular special bulletin :
  settled store (Index.generatedContentSha1 input)
          (Predecessor.publish md5 stringify base64 store input out
                               regular special bulletin) /\
  forall e,
    caught (Predecessor.publish md5 stringify base64 store input out
                                regular special bulletin) <>
    Some (Thrown e).
Proof.
  unfold Predecessor.publish.
  destruct (_ || _ || _).
  - split; [settle store|]. intros e. by destruct (store _).
  - split; [settle store|]. done.
Qed.

(** X20.  However an invocation of the predecessor goes, it sends the
    content store at most one request, under the version token it read.
    No loop writes to the console: a post that does not fit leaves no
    trace.  An invocation that runs to its end logs one line; one that a
    loop ends logs the banner and the exception - a [TypeError] of the
    engine, never one the source throws by name - and sends nothing. *)
Theorem predecessor_invocation_outcome
    (tweetContinuationLine : option string) (newURL : jsval -> bool)
    (md5 : string -> string)
    (stringify : Predecessor.generatedContent -> string)
    (base64 : string -> string) (store : Commit.t -> rejection + string)
    (input : Index.fetched) :
  let run := Predecessor.agent tweetContinuationLine newURL md5 stringify
                               base64 store input in
  length (requests run) <= 1 /\
  Forall (fun request =>
            Commit.sha request = Index.generatedContentSha1 input)
         (requests run) /\
  match caught run with
  | None =>
      (exists line, consoleOut run = [ console_log line ]) /\
      forall request, request ∈ requests run ->
                      exists commit, store request = inr commit
  | Some (Rejected r) =>
      exists request, requests run = [request] /\ store request = inl r
  | Some (Thrown e) =>
      requests run = [] /\ engineFault e /\ consoleOut run = errorBanner e
  end.
Proof.
  intros run. subst run. unfold Predecessor.agent.
  destruct (predecessor_collectionLoop_quiet
              (Predecessor.eventsTransform tweetContinuationLine)
              (Index.regularEventsTimeline input)
              (Index.regularEventsTweets input) []
              (quiet_eventsTransform tweetContinuationLine))
    as [Hout1 Hthrown1].
  destruct (Predecessor.collectionLoop _ _ _ []) as [out1 [regular|e1]];
    simpl in Hout1, Hthrown1; subst out1;
    [|by simpl; split; [lia|split; [constructor|]]].
  destruct (predecessor_collectionLoop_quiet
              (Predecessor.eventsTransform tweetContinuationLine)
              (Index.specialEventsTimeline input)
              (Index.specialEventsTweets input) []
              (quiet_eventsTransform tweetContinuationLine))
    as [Hout2 Hthrown2].
  destruct (Predecessor.collectionLoop _ _ _ []) as [out2 [special|e2]];
    simpl in Hout2, Hthrown2; subst out2;
    [|by simpl; split; [lia|split; [constructor|]]].
  destruct (predecessor_collectionLoop_quiet
              (fun tweetText _ =>
                 Predecessor.bulletinsTransform newURL tweetText)
              (Index.bulletinsTimeline input)
              (Index.bulletinsTweets input) []
              (fun tweetText _ => quiet_bulletinsTransform newURL tweetText))
    as [Hout3 Hthrown3].
  destruct (Predecessor.collectionLoop _ _ _ []) as [out3 [bulletin|e3]];
    simpl in Hout3, Hthrown3; subst out3;
    [|by simpl; split; [lia|split; [constructor|]]].
  destruct (predecessor_publish_settled md5 stringify base64 store input []
              regular special bulletin) as [(Hlen & Hsha & Hend) Hnot].
  split; [done|]. split; [done|].
  destruct (caught _) as [[e|r]|] eqn:Hcaught; [by destruct (Hnot e)|done|].
  split; [|done].
  unfold Predecessor.publish in *.
  destruct (_ || _ || _); [|by eexists].
  destruct (store _); [done|by eexists].
Qed.

(** X21.  One bulletin post of a single line ends the invocation of the
    predecessor: wherever the post stands in the bulletins timeline and
    whatever the other posts are, the top-level catch is reached with an
    exception, nothing is sent to the content store, and the console holds
    the banner and the exception only. *)
Theorem one_line_bulletin_ends_invocation
    (tweetContinuationLine : option string) (newURL : jsval -> bool)
    (md5 : string -> string)
    (stringify : Predecessor.generatedContent -> string)
    (base64 : string -> string) (store : Commit.t -> rejection + string)
    (input : Index.fetched) (tweetId : string) (post : tweetObject) :
  tweetId ∈ default [] (Index.bulletinsTimeline input) ->
  default ∅ (Index.bulletinsTweets input) !! tweetId = Some post ->
  snd (splitBy "010" (tweetTextExpandedLinks (full_text post) (urls post)))
    = [] ->
  exists e,
    Predecessor.agent tweetContinuationLine newURL md5 stringify base64
                      store input =
    Effects (errorBanner e) [] (Some (Thrown e)).
Proof.
  intros Hin Hpost Hone. unfold Predecessor.agent.
  destruct (predecessor_collectionLoop_quiet
              (Predecessor.eventsTransform tweetContinuationLine)
              (Index.regularEventsTimeline input)
              (Index.regularEventsTweets input) []
              (quiet_eventsTransform tweetContinuationLine))
    as [Hout1 _].
  destruct (Predecessor.collectionLoop _ _ _ []) as [out1 [regular|e1]];
    simpl in Hout1; subst out1; [|by exists e1].
  destruct (predecessor_collectionLoop_quiet
              (Predecessor.eventsTransform tweetContinuationLine)
              (Index.specialEventsTimeline input)
              (Index.specialEventsTweets input) []
              (quiet_eventsTransform tweetContinuationLine))
    as [Hout2 _].
  destruct (Predecessor.collectionLoop _ _ _ []) as [out2 [special|e2]];
    simpl in Hout2; subst out2; [|by exists e2].
  destruct (predecessor_collectionLoop_quiet
              (fun tweetText _ =>
                 Predecessor.bulletinsTransform newURL tweetText)
              (Index.bulletinsTimeline input)
              (Index.bulletinsTweets input) []
              (fun tweetText _ => quiet_bulletinsTransform newURL tweetText))
    as [Hout3 _].
  unfold Predecessor.collectionLoop in *.
  destruct (timelineLoop_throws
              (fun tweetText _ =>
                 Predecessor.bulletinsTransform newURL tweetText)
              (default ∅ (Index.bulletinsTweets input))
              (default [] (Index.bulletinsTimeline input))
              (Predecessor.Collection [] createHash None) tweetId
              (World [] []) Hin) as (w' & e & Hloop).
  { intros state w. unfold Predecessor.iteration. rewrite Hpost.
    destruct post as [text links]. simpl in Hone.
    unfold bind, Predecessor.bulletinsTransform.
    destruct (splitBy "010" _) as [firstLine lines]. simpl in Hone.
    subst lines. simpl. eauto. }
  rewrite Hloop in *. simpl in Hout3. rewrite Hout3. by exists e.
Qed.

Lemma one_line_bulletin_ends_invocation_witness :
  exists e,
    Predecessor.agent (Some "...") sampleURL sampleDigest (fun _ => "{}") id
                      sampleStore sampleOneLine =
    Effects (errorBanner e) [] (Some (Thrown e)).
Proof.
  apply (one_line_bulletin_ends_invocation (Some "...") sampleURL
           sampleDigest (fun _ => "{}") id sampleStore sampleOneLine
           "32" (post "June 7 - Trinity")).
  - apply list_elem_of_further, list_elem_of_here.
  - reflexivity.
  - reflexivity.
Defined.

(** X22.  When a loop of the predecessor runs to its end, every id of the
    timeline had its post in the lookup table, and the hash was updated
    once for each of them, in timeline order, with the post's text as it
    was fetched - for the posts that were dropped too, and before any link
    was expanded.  The dataset grew by one element at most for each
    post. *)
Theorem predecessor_hash_covers_every_post {R}
    (transform : string -> option nat -> M R (list (option nat)))
    (tweets : gmap string tweetObject) (timeline : list string)
    (state state' : Predecessor.collection) (w w' : world R) :
  Predecessor.timelineLoop transform tweets timeline state w =
    (w', Return state') ->
  exists posts,
    resolved tweets timeline posts /\
    Predecessor.hash state' =
      Predecessor.hash state ++ map full_text posts /\
    length (Predecessor.dataset state') <=
      length (Predecessor.dataset state) + length timeline.
Proof.
  revert state w. induction timeline as [|tweetId rest IH]; intros state w.
  - intros [= <- <-]. exists []. rewrite app_nil_r.
    split; [constructor|]. split; [done|lia].
  - cbn [Predecessor.timelineLoop]. unfold bind at 1.
    unfold Predecessor.iteration.
    destruct (tweets !! tweetId) as [[tweetText tweetLinks]|] eqn:Hpost;
      [|done].
    unfold bind at 1.
    destruct (transform _ _ w) as [w1 [r|e]]; [|done].
    unfold ret. intros Hloop.
    destruct (IH _ _ Hloop) as (posts & Hres & Hhash & Hlen).
    exists ({| full_text := tweetText; urls := tweetLinks |} :: posts).
    split; [by constructor|]. simpl in *. split.
    + rewrite Hhash. unfold update. by rewrite <- app_assoc.
    + destruct (Predecessor.element 0 r); simpl in Hlen;
        rewrite ?length_app in Hlen; simpl in Hlen; lia.
Qed.

Lemma predecessor_hash_covers_every_post_witness :
  exists posts,
    resolved (list_to_map [ ("41", post sampleLines);
                            ("42", post "dropped") ])
             [ "41"; "42" ] posts /\
    Predecessor.hash
      (Predecessor.Collection [0] [ sampleLines; "dropped" ] None) =
      Predecessor.hash (Predecessor.Collection [] createHash None) ++
      map full_text posts /\
    length (Predecessor.dataset
              (Predecessor.Collection [0] [ sampleLines; "dropped" ] None))
      <= length (Predecessor.dataset
                   (Predecessor.Collection [] createHash None)) +
         length [ "41"; "42" ].
Proof.
  apply (predecessor_hash_covers_every_post
           (Predecessor.eventsTransform (Some "..."))
           (list_to_map [ ("41", post sampleLines); ("42", post "dropped") ])
           [ "41"; "42" ]
           (Predecessor.Collection [] createHash None)
           (Predecessor.Collection [0] [ sampleLines; "dropped" ] None)
           (World [] []) (World [sampleLinesEvent] [])).
  reflexivity.
Defined.

(** ** Separators *)

Lemma needs_atom (c : ascii) (k : RegExp.continuation) :
  needs c (RegExp.matcher (RegExp.Atom (RegExp.Literal c)) k).
Proof.
  intros index [|d rest] captures; [done|]. simpl.
  by intros [->%negb_true_iff _]%andb_true_iff.
Qed.

Lemma needs_star (c : ascii) (class : RegExp.charClass) (greedy : bool)
    (k : RegExp.continuation) :
  needs c k -> needs c (RegExp.star class greedy k).
Proof.
  intros Hk index rest. revert index.
  induction rest as [|d rest IH]; intros index captures Hlacks.
  - by apply Hk.
  - cbn [RegExp.star]. rewrite (Hk _ _ _ Hlacks).
    simpl in Hlacks. apply andb_true_iff in Hlacks as [_ Hrest].
    rewrite (IH _ _ Hrest). by destruct (RegExp.matches class d), greedy.
Qed.

Lemma needs_capture (c : ascii) (n : nat) (class : RegExp.charClass)
    (k : RegExp.continuation) :
  needs c k ->
  needs c (RegExp.matcher (RegExp.Capture n (RegExp.LazyStar class)) k).
Proof.
  intros Hk index rest captures Hlacks. cbn [RegExp.matcher].
  exact (needs_star c class false _
           (fun index' rest' captures' Hrest => Hk _ _ _ Hrest)
           index rest captures Hlacks).
Qed.

Lemma search_needs (c : ascii) (p : RegExp.pattern) (groups : nat) :
  needs c (RegExp.matcher p (fun index _ captures =>
                               Some (index, captures))) ->
  forall index rest,
    lacks c rest = true -> RegExp.search p groups index rest = None.
Proof.
  intros Hp index rest. revert index.
  induction rest as [|d rest IH]; intros index Hlacks;
    cbn [RegExp.search]; unfold RegExp.attempt; rewrite (Hp _ _ _ Hlacks);
    [done|].
  simpl in Hlacks. apply andb_true_iff in Hlacks as [_ Hrest]. by apply IH.
Qed.

Lemma timePattern_needs_at (segment : string) :
  lacks "@" segment = true ->
  RegExp.exec Predecessor.timePattern 3 segment = None.
Proof.
  apply search_needs. unfold Predecessor.timePattern.
  cbn [RegExp.sequence fold_right].
  intros index rest captures Hlacks. cbn [RegExp.matcher].
  destruct (Nat.eqb index 0); [|done].
  exact (needs_star _ _ _ _
           (needs_capture _ 1 _ _ (needs_star _ _ _ _ (needs_atom _ _)))
           index rest captures Hlacks).
Qed.

Lemma dateTitlePattern_needs_dash (line : string) :
  lacks "-" line = true ->
  RegExp.exec Predecessor.dateTitlePattern 2 line = None.
Proof.
  apply search_needs. unfold Predecessor.dateTitlePattern.
  cbn [RegExp.sequence fold_right].
  intros index rest captures Hlacks. cbn [RegExp.matcher].
  destruct (Nat.eqb index 0); [|done].
  exact (needs_star _ _ _ _
           (needs_capture _ 1 _ _ (needs_star _ _ _ _ (needs_atom _ _)))
           index rest captures Hlacks).
Qed.

(** X23.  The predecessor's separators are required.  A time segment
    without [@] matches nothing and adds no occurrence.  A bulletin post
    whose first line has no [-] has neither date nor title: whenever
    [bulletinsTransform] returns for it, it returns [[null]] and makes
    nothing. *)
Theorem separators_are_required :
  (forall segment rest times,
     lacks "@" segment = true ->
     Predecessor.timesLoop (segment :: rest) times =
     Predecessor.timesLoop rest times) /\
  (forall newURL tweetText (w w' : world Predecessor.Bulletin.t) r,
     lacks "-" (fst (splitBy "010" tweetText)) = true ->
     Predecessor.bulletinsTransform newURL tweetText w = (w', Return r) ->
     r = [ None ] /\ w' = w).
Proof.
  split.
  - intros segment rest times Hlacks. cbn [Predecessor.timesLoop].
    by rewrite (timePattern_needs_at _ Hlacks).
  - intros newURL tweetText w w' r Hlacks.
    unfold Predecessor.bulletinsTransform.
    destruct (splitBy "010" tweetText) as [firstLine lines].
    simpl in Hlacks. rewrite (dateTitlePattern_needs_dash _ Hlacks).
    unfold bind.
    destruct (head lines) as [line|]; [|done].
    rewrite trimmed_spec. destruct (oneLine _); [|done]. simpl.
    by intros [= <- <-].
Qed.

Lemma separators_are_required_witness :
  Predecessor.timesLoop [ "Sundays 9am"; "Mon @ 8am" ] [] =
  Predecessor.timesLoop [ "Mon @ 8am" ] [].
Proof.
  apply (proj1 separators_are_required "Sundays 9am" [ "Mon @ 8am" ] []).
  reflexivity.
Defined.
